(** * rabbithole: dependency-health scanner and updater

    A shallow embedding of the core services of the repository
    ([services/updater.ts], [services/audit.ts], [services/outdated.ts],
    [services/registry.ts], [commands/update.ts]) together with the
    properties stated about them.

    Conventions of the embedding:
    - a JavaScript string is the list of its UTF-16 code units;
    - an [async] function that awaits every call it makes is embedded as
      the sequential computation it performs;
    - every call that leaves the program (child process, file system,
      prompt, network) is a function of an abstract world, and may throw. *)

From Stdlib Require Import ZArith NArith List String Ascii DecimalString Sorted Permutation Lia.
From Stdlib Require DecimalN DecimalPos.
From stdpp Require Import base option list gmap.
From Equations Require Import Equations.

Local Open Scope Z_scope.

(** ** JavaScript strings and the built-ins the services use *)

Module JS.

(** UTF-16 code units. *)
Abbreviation jsstring := (list N).

(** A string literal of the source (all of them are ASCII). *)
Definition lit (s : string) : jsstring :=
  List.map N_of_ascii (list_ascii_of_string s).
Arguments lit s%_string.

Definition code_eqb (c d : N) : bool := N.eqb c d.

(** [s.startsWith(p)] *)
Fixpoint startsWith (p s : jsstring) : bool :=
  match p, s with
  | [], _ => true
  | _ :: _, [] => false
  | c :: p', d :: s' => code_eqb c d && startsWith p' s'
  end.

(** [s.includes(p)] *)
Fixpoint includes (s p : jsstring) : bool :=
  startsWith p s ||
  match s with
  | [] => false
  | _ :: s' => includes s' p
  end.

(** [s.split(sep)] for a separator of one code unit; the result is
    never empty. *)
Fixpoint split (sep : N) (s : jsstring) : list jsstring :=
  match s with
  | [] => [[]]
  | c :: s' =>
      if code_eqb c sep then [] :: split sep s'
      else match split sep s' with
           | l :: ls => (c :: l) :: ls
           | [] => [[c]]
           end
  end.

Definition LF : N := 10%N.

(** ECMAScript WhiteSpace and LineTerminator code points: what [\s]
    matches and what [trim] removes. *)
Definition isWhiteSpace (c : N) : bool :=
  ((9 <=? c) && (c <=? 13) || (c =? 32) || (c =? 160) || (c =? 5760)
   || (8192 <=? c) && (c <=? 8202) || (c =? 8232) || (c =? 8233)
   || (c =? 8239) || (c =? 8287) || (c =? 12288) || (c =? 65279))%N.

Fixpoint dropWhile (f : N -> bool) (s : jsstring) : jsstring :=
  match s with
  | [] => []
  | c :: s' => if f c then dropWhile f s' else s
  end.

Definition trimStart (s : jsstring) : jsstring := dropWhile isWhiteSpace s.
Definition trimEnd (s : jsstring) : jsstring :=
  rev (dropWhile isWhiteSpace (rev s)).
(** [s.trim()] *)
Definition trim (s : jsstring) : jsstring := trimEnd (trimStart s).

(** [s.replace(re, "")] for a regular expression without the global
    flag: the leftmost match is removed. [matchAt s] is [Some rest]
    when the expression matches at the very start of [s], leaving
    [rest]. *)
Fixpoint removeFirst (matchAt : jsstring -> option jsstring) (s : jsstring)
  : jsstring :=
  match matchAt s with
  | Some rest => rest
  | None =>
      match s with
      | [] => []
      | c :: s' => c :: removeFirst matchAt s'
      end
  end.

Fixpoint takeWhile (f : N -> bool) (s : jsstring) : jsstring :=
  match s with
  | [] => []
  | c :: s' => if f c then c :: takeWhile f s' else []
  end.

(** [\d] *)
Definition isDigit (c : N) : bool := ((48 <=? c) && (c <=? 57))%N.

(** [s.match(re)] for a regular expression without the global flag:
    the leftmost position at which the expression matches. [matchAt s]
    is the captured group when the expression matches at the very start
    of [s]. *)
Fixpoint firstMatch {A} (matchAt : jsstring -> option A) (s : jsstring)
  : option A :=
  match matchAt s with
  | Some x => Some x
  | None =>
      match s with
      | [] => None
      | _ :: s' => firstMatch matchAt s'
      end
  end.

(** [parseInt(ds, 10)] on a string of decimal digits (exact below
    2^53, where the number type has every integer). *)
Definition parseInt10 (ds : jsstring) : Z :=
  fold_left (fun acc c => 10 * acc + (Z.of_N c - 48)) ds 0.

(** Truthiness of an optional string ([undefined] and [""] are falsy). *)
Definition truthy (o : option jsstring) : bool :=
  match o with
  | Some (_ :: _) => true
  | _ => false
  end.

(** Decimal digits of a non-negative integer, as [String(n)] prints
    them. *)
Definition digitsOf (n : N) : jsstring :=
  lit (NilEmpty.string_of_uint (N.to_uint n)).

(** [String(z)] for an integer-valued number below 1e21. *)
Definition numberToString (z : Z) : jsstring :=
  match z with
  | Z0 => lit "0"
  | Zpos p => digitsOf (Npos p)
  | Zneg p => lit "-" ++ digitsOf (Npos p)
  end.

(** *** Numbers

    The numbers of the services are integers (counts, milliseconds) or
    [NaN]; [None] stands for [NaN]. Milliseconds since the epoch stay
    far below 2^53, where the arithmetic of the number type is exact. *)
Abbreviation number := (option Z).

(** [a - b] *)
Definition numSub (a b : number) : number :=
  match a, b with
  | Some x, Some y => Some (x - y)
  | _, _ => None
  end.

(** [Math.floor(a / d)] for a positive integer [d]. *)
Definition numFloorDiv (a : number) (d : Z) : number :=
  match a with
  | Some x => Some (x / d)
  | None => None
  end.

(** [a % d] *)
Definition numRem (a : number) (d : Z) : number :=
  match a with
  | Some x => Some (Z.rem x d)
  | None => None
  end.

(** [a < k], [a > k], [a === k]: every comparison with [NaN] is false. *)
Definition numLt (a : number) (k : Z) : bool :=
  match a with
  | Some x => x <? k
  | None => false
  end.

Definition numGt (a : number) (k : Z) : bool :=
  match a with
  | Some x => k <? x
  | None => false
  end.

Definition numEq (a : number) (k : Z) : bool :=
  match a with
  | Some x => x =? k
  | None => false
  end.

(** [String(a)], as a template literal prints a number. *)
Definition numToString (a : number) : jsstring :=
  match a with
  | Some x => numberToString x
  | None => lit "NaN"
  end.

(** *** [Array.prototype.sort]

    A comparator returns a number; [None] stands for [NaN], which
    [sort] reads as [+0]. *)
Definition sortCompare {A} (comparefn : A -> A -> option Z) (x y : A) : Z :=
  default 0 (comparefn x y).

(** ECMAScript leaves the sorting algorithm to the engine, but requires
    the result to be a stable rearrangement that is ordered whenever the
    comparator is consistent. There is exactly one such rearrangement
    ([SortFacts.sort_unique]), so for a consistent comparator every
    engine returns what insertion sort returns. For a comparator that
    is not consistent the order is left to the engine; insertion then
    stands for an engine that only ever moves an element past a
    neighbour the comparator puts strictly before it. *)
Fixpoint sortInsert {A} (comparefn : A -> A -> option Z) (x : A) (l : list A)
  : list A :=
  match l with
  | [] => [x]
  | y :: l' =>
      if 0 <? sortCompare comparefn x y
      then y :: sortInsert comparefn x l'
      else x :: l
  end.

Fixpoint sort {A} (comparefn : A -> A -> option Z) (l : list A) : list A :=
  match l with
  | [] => []
  | x :: l' => sortInsert comparefn x (sort comparefn l')
  end.

(** A thrown value, as the [catch] clauses of the services read it:
    the error of a failed child process carries what the process
    printed; any error may carry a message. *)
Record Thrown := {
  thrown_stdout : option jsstring;
  thrown_stderr : option jsstring;
  thrown_message : option jsstring
}.

End JS.
Import JS.

(** *** Facts about the string built-ins *)

Module JSFacts.

(** What "the text contains the marker" means. *)
Definition contains (text marker : jsstring) : Prop :=
  exists before after, text = before ++ marker ++ after.

Lemma startsWith_true p s :
  startsWith p s = true <-> exists rest, s = p ++ rest.
Proof.
  revert s. induction p as [|c p IH]; intros s; simpl.
  - split; [intros _; now exists s | reflexivity].
  - destruct s as [|d s]; simpl.
    + split; [discriminate | intros [rest H]; discriminate].
    + rewrite andb_true_iff, IH. unfold code_eqb. rewrite N.eqb_eq.
      split.
      * intros [-> [rest ->]]. now exists rest.
      * intros [rest H]. injection H as -> ->. split; [reflexivity | now exists rest].
Qed.

Lemma startsWith_drop p s :
  startsWith p s = true -> s = p ++ drop (length p) s.
Proof.
  intros H. apply startsWith_true in H as [rest ->].
  now rewrite drop_app_length.
Qed.

Lemma includes_contains s p : includes s p = true <-> contains s p.
Proof.
  unfold contains. induction s as [|c s IH].
  - simpl. rewrite orb_false_r, startsWith_true. split.
    + intros [rest H]. exists [], rest. exact H.
    + intros [before [after H]]. destruct before; [now exists after | discriminate].
  - cbn [includes]. rewrite orb_true_iff, IH, startsWith_true. split.
    + intros [[rest H] | [before [after H]]].
      * exists [], rest. exact H.
      * exists (c :: before), after. now rewrite H.
    + intros [[|d before] [after H]].
      * left. now exists after.
      * right. injection H as -> ->. now exists before, after.
Qed.

Lemma includes_false s p : includes s p = false <-> ~ contains s p.
Proof.
  rewrite <- includes_contains. destruct (includes s p); split; congruence.
Qed.

Lemma dropWhile_split f s :
  exists ws, s = ws ++ dropWhile f s /\ Forall (fun c => f c = true) ws.
Proof.
  induction s as [|c s [ws [Hs Hws]]]; simpl.
  - now exists [].
  - destruct (f c) eqn:Hc.
    + exists (c :: ws). split; [now rewrite Hs at 1 | now constructor].
    + now exists [].
Qed.

Lemma dropWhile_head f s :
  match dropWhile f s with
  | c :: _ => f c = false
  | [] => True
  end.
Proof.
  induction s as [|c s IH]; simpl; [exact I |].
  destruct (f c) eqn:Hc; [exact IH | exact Hc].
Qed.

Lemma find_first {A} (f : A -> bool) (l : list A) x :
  List.find f l = Some x ->
  exists pre post, l = pre ++ x :: post
    /\ Forall (fun y => f y = false) pre /\ f x = true.
Proof.
  induction l as [|y l IH]; simpl; [discriminate |].
  destruct (f y) eqn:Hy.
  - intros [= ->]. now exists [], l.
  - intros H. destruct (IH H) as [pre [post [-> [Hpre Hx]]]].
    exists (y :: pre), post. repeat split; [now constructor | exact Hx].
Qed.

Lemma find_nothing {A} (f : A -> bool) (l : list A) :
  List.find f l = None -> Forall (fun y => f y = false) l.
Proof.
  induction l as [|y l IH]; simpl; [constructor |].
  destruct (f y) eqn:Hy; [discriminate | intros H; constructor; auto].
Qed.

(** The text before the first line feed. *)
Fixpoint firstLine (s : jsstring) : jsstring :=
  match s with
  | [] => []
  | c :: s' => if code_eqb c LF then [] else c :: firstLine s'
  end.

Lemma split_not_nil sep s : split sep s <> [].
Proof.
  destruct s as [|c s]; simpl; [discriminate |].
  destruct (code_eqb c sep); [discriminate |].
  destruct (split sep s); discriminate.
Qed.

Lemma hd_split_LF d s : hd d (split LF s) = firstLine s.
Proof.
  induction s as [|c s IH]; simpl; [reflexivity |].
  destruct (code_eqb c LF); [reflexivity |].
  destruct (split LF s) as [|l ls] eqn:E.
  - now destruct (split_not_nil LF s).
  - simpl in *. now rewrite IH.
Qed.

End JSFacts.
Import JSFacts.

(** *** Facts about [sort] *)

Module SortFacts.

(** [x] may stand before [y]: the comparator does not put [x] after [y]. *)
Definition cmpLe {A} (comparefn : A -> A -> option Z) (x y : A) : Prop :=
  sortCompare comparefn x y <= 0.

Lemma StronglySorted_lookup {A} (R : A -> A -> Prop) (l : list A) i j x y :
  StronglySorted R l -> (i < j)%nat -> l !! i = Some x -> l !! j = Some y ->
  R x y.
Proof.
  intros Hs. revert i j. induction Hs as [|z l Hs IH Hall]; intros i j Hij Hi Hj.
  - discriminate.
  - destruct j as [|j]; [lia |]. destruct i as [|i]; simpl in *.
    + injection Hi as <-. rewrite List.Forall_forall in Hall.
      apply Hall. apply list_elem_of_In. eapply list_elem_of_lookup_2. exact Hj.
    + apply (IH i j); auto. lia.
Qed.

Section Rearrangement.

Context {A : Type} (comparefn : A -> A -> option Z).

Lemma sortInsert_Permutation x l :
  Permutation (sortInsert comparefn x l) (x :: l).
Proof.
  induction l as [|y l IH]; simpl; [reflexivity |].
  destruct (0 <? sortCompare comparefn x y); [| reflexivity].
  rewrite IH. apply perm_swap.
Qed.

Lemma sort_Permutation l : Permutation (sort comparefn l) l.
Proof.
  induction l as [|x l IH]; simpl; [reflexivity |].
  rewrite sortInsert_Permutation. now constructor.
Qed.

Lemma sort_length l : length (sort comparefn l) = length l.
Proof. apply Permutation_length, sort_Permutation. Qed.

(** An element only moves past elements the comparator puts strictly
    before it, so the elements of a class that the comparator does not
    separate keep their order. *)
Lemma sortInsert_filter (P : A -> bool) x l :
  (forall y, In y l -> P x = true -> P y = true -> cmpLe comparefn x y) ->
  List.filter P (sortInsert comparefn x l) = List.filter P (x :: l).
Proof.
  induction l as [|y l IH]; intros Hle; [reflexivity |].
  cbn [sortInsert].
  destruct (0 <? sortCompare comparefn x y) eqn:Hgt; [| reflexivity].
  apply Z.ltb_lt in Hgt.
  cbn [List.filter]. rewrite IH by (intros z Hz; apply Hle; now right).
  cbn [List.filter].
  destruct (P x) eqn:Px, (P y) eqn:Py; try reflexivity.
  specialize (Hle y (or_introl eq_refl) eq_refl Py). unfold cmpLe in Hle. lia.
Qed.

Lemma sort_stable (P : A -> bool) l :
  (forall x y, In x l -> In y l -> P x = true -> P y = true ->
     cmpLe comparefn x y) ->
  List.filter P (sort comparefn l) = List.filter P l.
Proof.
  induction l as [|x l IH]; intros Hle; [reflexivity |].
  cbn [sort]. rewrite sortInsert_filter.
  - cbn [List.filter]. rewrite IH; [reflexivity |].
    intros y z Hy Hz. apply Hle; now right.
  - intros y Hy. apply Hle; [now left | right].
    eapply Permutation_in; [apply sort_Permutation | exact Hy].
Qed.

End Rearrangement.

Section Consistent.

Context {A : Type} (comparefn : A -> A -> option Z) (ok : A -> Prop).
Hypothesis cmpLe_total :
  forall x y, ok x -> ok y -> cmpLe comparefn x y \/ cmpLe comparefn y x.
Hypothesis cmpLe_trans :
  forall x y z, ok x -> ok y -> ok z ->
    cmpLe comparefn x y -> cmpLe comparefn y z -> cmpLe comparefn x z.

Lemma sortInsert_sorted x l :
  ok x -> Forall ok l ->
  StronglySorted (cmpLe comparefn) l ->
  StronglySorted (cmpLe comparefn) (sortInsert comparefn x l).
Proof.
  intros Hx. induction l as [|y l IH]; intros Hok Hsorted.
  - repeat constructor.
  - apply Forall_cons in Hok as [Hy Hok].
    apply StronglySorted_inv in Hsorted as [Hsorted Hall].
    cbn [sortInsert].
    destruct (0 <? sortCompare comparefn x y) eqn:Hgt.
    + apply Z.ltb_lt in Hgt.
      assert (cmpLe comparefn y x) as Hyx.
      { destruct (cmpLe_total x y Hx Hy) as [H | H]; [| exact H].
        unfold cmpLe in H. lia. }
      constructor; [now apply IH |].
      apply List.Forall_forall. intros z Hz.
      apply (Permutation_in _ (sortInsert_Permutation comparefn x l)) in Hz.
      destruct Hz as [<- | Hz]; [exact Hyx |].
      rewrite List.Forall_forall in Hall. now apply Hall.
    + apply Z.ltb_ge in Hgt.
      constructor; [now constructor |].
      constructor; [exact Hgt |].
      rewrite List.Forall_forall in Hall, Hok |- *. intros z Hz.
      apply (cmpLe_trans x y z); auto.
Qed.

Lemma sort_sorted l :
  Forall ok l -> StronglySorted (cmpLe comparefn) (sort comparefn l).
Proof.
  induction l as [|x l IH]; intros Hok; [constructor |].
  apply Forall_cons in Hok as [Hx Hok]. cbn [sort].
  apply sortInsert_sorted; auto.
  rewrite List.Forall_forall in Hok |- *. intros y Hy. apply Hok.
  eapply Permutation_in; [apply sort_Permutation | exact Hy].
Qed.

(** Two elements the comparator does not separate. *)
Definition sameClass (x y : A) : bool :=
  (sortCompare comparefn x y <=? 0) && (sortCompare comparefn y x <=? 0).

Lemma sameClass_true x y :
  sameClass x y = true <-> cmpLe comparefn x y /\ cmpLe comparefn y x.
Proof.
  unfold sameClass, cmpLe. now rewrite andb_true_iff, !Z.leb_le.
Qed.

Lemma sameClass_refl x : ok x -> sameClass x x = true.
Proof.
  intros Hx. apply sameClass_true. destruct (cmpLe_total x x Hx Hx); auto.
Qed.

Lemma sorted_head_le x l y :
  ok x -> StronglySorted (cmpLe comparefn) (x :: l) -> In y (x :: l) ->
  cmpLe comparefn x y.
Proof.
  intros Hx Hs [<- | Hy].
  - destruct (cmpLe_total x x Hx Hx); auto.
  - apply StronglySorted_inv in Hs as [_ Hall].
    rewrite List.Forall_forall in Hall. now apply Hall.
Qed.

(** An ordered list is determined by the order of the elements inside
    each class. *)
Lemma sorted_unique l1 l2 :
  Forall ok l1 -> Forall ok l2 ->
  StronglySorted (cmpLe comparefn) l1 ->
  StronglySorted (cmpLe comparefn) l2 ->
  (forall x, ok x ->
     List.filter (sameClass x) l1 = List.filter (sameClass x) l2) ->
  l1 = l2.
Proof.
  revert l2. induction l1 as [|x t1 IH]; intros [|y t2] Hok1 Hok2 Hs1 Hs2 Hcls.
  - reflexivity.
  - apply Forall_cons in Hok2 as [Hy _]. specialize (Hcls y Hy).
    cbn in Hcls. rewrite (sameClass_refl y Hy) in Hcls. discriminate.
  - apply Forall_cons in Hok1 as [Hx _]. specialize (Hcls x Hx).
    cbn in Hcls. rewrite (sameClass_refl x Hx) in Hcls. discriminate.
  - apply Forall_cons in Hok1 as [Hx Hok1].
    apply Forall_cons in Hok2 as [Hy Hok2].
    assert (In x (y :: t2)) as Hx2.
    { pose proof (Hcls x Hx) as H. cbn [List.filter] in H.
      rewrite (sameClass_refl x Hx) in H.
      assert (In x (List.filter (sameClass x) (y :: t2))) as Hin
        by (cbn [List.filter]; rewrite <- H; now left).
      now apply List.filter_In in Hin. }
    assert (In y (x :: t1)) as Hy1.
    { pose proof (Hcls y Hy) as H. cbn [List.filter] in H.
      rewrite (sameClass_refl y Hy) in H.
      assert (In y (List.filter (sameClass y) (x :: t1))) as Hin
        by (cbn [List.filter]; rewrite H; now left).
      now apply List.filter_In in Hin. }
    assert (sameClass x y = true) as Hxy.
    { apply sameClass_true. split.
      - now apply (sorted_head_le x t1).
      - now apply (sorted_head_le y t2). }
    assert (x = y) as <-.
    { pose proof (Hcls x Hx) as H. cbn [List.filter] in H.
      rewrite (sameClass_refl x Hx), Hxy in H. now injection H. }
    f_equal. apply IH; auto.
    + now apply StronglySorted_inv in Hs1.
    + now apply StronglySorted_inv in Hs2.
    + intros z Hz. specialize (Hcls z Hz). cbn [List.filter] in Hcls.
      destruct (sameClass z x); [now injection Hcls | exact Hcls].
Qed.

(** [sort] returns the one stable ordered rearrangement: whatever
    algorithm the engine runs, a result that is ordered and keeps the
    order inside each class is the result of [sort]. *)
Theorem sort_unique l l' :
  Forall ok l -> Forall ok l' ->
  StronglySorted (cmpLe comparefn) l' ->
  (forall x, ok x ->
     List.filter (sameClass x) l' = List.filter (sameClass x) l) ->
  l' = sort comparefn l.
Proof.
  intros Hok Hok' Hs Hcls.
  assert (Forall ok (sort comparefn l)) as Hoks.
  { rewrite List.Forall_forall in Hok |- *. intros y Hy. apply Hok.
    eapply Permutation_in; [apply sort_Permutation | exact Hy]. }
  apply sorted_unique; auto using sort_sorted.
  intros x Hx. rewrite (Hcls x Hx). symmetry. apply sort_stable.
  intros y z Hy Hz Py Pz.
  apply sameClass_true in Py as [_ Hyx]. apply sameClass_true in Pz as [Hxz _].
  rewrite List.Forall_forall in Hok.
  apply (cmpLe_trans y x z); auto.
Qed.

End Consistent.

End SortFacts.
Import SortFacts.

(** ** Computations over an abstract world that may throw *)

Module Eff.

Definition M (W A : Type) : Type := W -> (Thrown + A) * W.

Definition ret {W A} (a : A) : M W A := fun w => (inr a, w).
Definition throw {W A} (e : Thrown) : M W A := fun w => (inl e, w).
Definition bind {W A B} (c : M W A) (k : A -> M W B) : M W B :=
  fun w =>
    match c w with
    | (inr a, w') => k a w'
    | (inl e, w') => (inl e, w')
    end.
(** [try { c } catch (err) { h err }] *)
Definition tryCatch {W A} (c : M W A) (h : Thrown -> M W A) : M W A :=
  fun w =>
    match c w with
    | (inr a, w') => (inr a, w')
    | (inl e, w') => h e w'
    end.

(** [await Promise.all(l.map(f))]: the results, by position. The calls
    are embedded in the order of the list. *)
Fixpoint forEach {W A B} (f : A -> M W B) (l : list A) : M W (list B) :=
  match l with
  | [] => ret []
  | x :: l' =>
      bind (f x) (fun y => bind (forEach f l') (fun ys => ret (y :: ys)))
  end.

(** A call that reads the world and cannot throw. *)
Definition infallible {W A} (c : W -> A * W) : M W A :=
  fun w => let '(a, w') := c w in (inr a, w').

Lemma forEach_app {W A B} (f : A -> M W B) l1 l2 w :
  forEach f (l1 ++ l2) w =
    bind (forEach f l1)
      (fun r1 => bind (forEach f l2) (fun r2 => ret (r1 ++ r2))) w.
Proof.
  revert w. induction l1 as [|x l1 IH]; intros w; cbn [forEach app].
  - unfold bind, ret. destruct (forEach f l2 w) as [[e | r2] w']; reflexivity.
  - unfold bind, ret in *. destruct (f x w) as [[e | y] w1]; [reflexivity |].
    rewrite IH. destruct (forEach f l1 w1) as [[e | r1] w2]; [reflexivity |].
    destruct (forEach f l2 w2) as [[e | r2] w3]; reflexivity.
Qed.

(** When no call throws, [forEach] returns one result for each element. *)
Lemma forEach_returns {W A B} (f : A -> M W B) l w :
  (forall x w, exists y w', f x w = (inr y, w')) ->
  exists ys w', forEach f l w = (inr ys, w') /\ length ys = length l.
Proof.
  intros Hf. revert w. induction l as [|x l IH]; intros w; cbn [forEach].
  - exists [], w. split; reflexivity.
  - unfold bind, ret. destruct (Hf x w) as [y [w1 ->]].
    destruct (IH w1) as [ys [w2 [-> Hlen]]].
    exists (y :: ys), w2. split; [reflexivity | simpl; now rewrite Hlen].
Qed.

(** The result at a position is the result of the call on the element
    at that position. *)
Lemma forEach_lookup {W A B} (f : A -> M W B) l w ys w' i y :
  forEach f l w = (inr ys, w') ->
  ys !! i = Some y ->
  exists x wi wi', l !! i = Some x /\ f x wi = (inr y, wi').
Proof.
  revert w ys i. induction l as [|x l IH]; intros w ys i; cbn [forEach].
  - unfold ret. intros [= <- <-]. discriminate.
  - unfold bind, ret. destruct (f x w) as [[e | y0] w1] eqn:Hx; [discriminate |].
    destruct (forEach f l w1) as [[e | ys0] w2] eqn:Hl; [discriminate |].
    intros [= <- <-]. destruct i as [|i]; simpl.
    + intros [= <-]. eauto.
    + intros Hi. destruct (IH w1 ys0 i Hl Hi) as [x' [wi [wi' [Hx' Hf]]]]. eauto.
Qed.

End Eff.
Import Eff.

Notation "'let*' x ':=' c 'in' k" := (bind c (fun x => k))
  (at level 10, x pattern, c at level 100, k at level 200).

(** ** services/updater.ts *)

Module Updater.

(** The two sections of [package.json] the services read. A section is
    a JSON object from package name to version range, modelled by its
    own keys; what it inherits from [Object.prototype] is listed in
    [objectPrototypeKeys]. *)
Record PackageJson := {
  dependencies : option (gmap jsstring jsstring);
  devDependencies : option (gmap jsstring jsstring)
}.

Record UpdateResult := {
  name : jsstring;
  previousVersion : jsstring;
  newVersion : jsstring;
  success : bool;
  error : option jsstring
}.

Record UpdateOptions := {
  exact : bool;
  force : bool
}.

(** The properties of [Object.prototype] (ECMA-262, sections 20.1.3 and
    B.2.2): the names every object answers to under [in]. *)
Definition objectPrototypeKeys : list jsstring :=
  [lit "constructor"; lit "hasOwnProperty"; lit "isPrototypeOf";
   lit "propertyIsEnumerable"; lit "toLocaleString"; lit "toString";
   lit "valueOf"; lit "__proto__"; lit "__defineGetter__";
   lit "__defineSetter__"; lit "__lookupGetter__"; lit "__lookupSetter__"].

(** [key in obj] for an object parsed from JSON: an own key, or a
    property of [Object.prototype]. *)
Definition hasProperty (m : gmap jsstring jsstring) (key : jsstring) : bool :=
  bool_decide (is_Some (m !! key)) || bool_decide (key ∈ objectPrototypeKeys).

(** [obj?.[key]] on an own key *)
Definition optLookup (o : option (gmap jsstring jsstring)) (key : jsstring)
  : option jsstring :=
  match o with
  | Some m => m !! key
  | None => None
  end.

(** The regular expression [/npm (ERR!|error)\s*/] tried at the start
    of a string. *)
Definition npmPrefixAt (s : jsstring) : option jsstring :=
  if startsWith (lit "npm ERR!") s
  then Some (dropWhile isWhiteSpace (drop 8 s))
  else if startsWith (lit "npm error") s
  then Some (dropWhile isWhiteSpace (drop 9 s))
  else None.

Definition isErrLine (line : jsstring) : bool :=
  includes line (lit "npm ERR!") || includes line (lit "npm error").

Definition extractErrorReason (stderr : jsstring) : jsstring :=
  if includes stderr (lit "ERESOLVE")
  then lit "Peer dependency conflict (use --force to bypass)"
  else if includes stderr (lit "404") || includes stderr (lit "Not Found")
  then lit "Package not found in registry"
  else if includes stderr (lit "EACCES")
  then lit "Permission denied"
  else if includes stderr (lit "ETIMEDOUT") || includes stderr (lit "ENOTFOUND")
  then lit "Network error"
  else
    match List.find isErrLine (split LF stderr) with
    | Some errLine => trim (removeFirst npmPrefixAt errLine)
    | None => lit "Unknown error"
    end.

(** The classification as the specification words it. A known
    error-log prefix is one of the two words npm starts its error lines
    with. *)
Definition logPrefix (p : jsstring) : Prop :=
  p = lit "npm ERR!" \/ p = lit "npm error".

Definition hasLogPrefix (line : jsstring) : Prop :=
  exists p, logPrefix p /\ contains line p.

(** [Stripped line out]: [out] is [line] without its leftmost log
    prefix and without the white space that follows the prefix. *)
Inductive Stripped : jsstring -> jsstring -> Prop :=
| Stripped_at before p ws rest :
    logPrefix p ->
    (forall i q, (i < length before)%nat -> logPrefix q ->
       startsWith q (drop i (before ++ p ++ ws ++ rest)) = false) ->
    Forall (fun c => isWhiteSpace c = true) ws ->
    match rest with c :: _ => isWhiteSpace c = false | [] => True end ->
    Stripped (before ++ p ++ ws ++ rest) (before ++ rest).

Definition noMarker (text : jsstring) : Prop :=
  ~ contains text (lit "ERESOLVE")
  /\ ~ contains text (lit "404") /\ ~ contains text (lit "Not Found")
  /\ ~ contains text (lit "EACCES")
  /\ ~ contains text (lit "ETIMEDOUT") /\ ~ contains text (lit "ENOTFOUND").

Inductive Classified (text : jsstring) : jsstring -> Prop :=
| Classified_peer :
    contains text (lit "ERESOLVE") ->
    Classified text (lit "Peer dependency conflict (use --force to bypass)")
| Classified_not_found :
    ~ contains text (lit "ERESOLVE") ->
    contains text (lit "404") \/ contains text (lit "Not Found") ->
    Classified text (lit "Package not found in registry")
| Classified_permission :
    ~ contains text (lit "ERESOLVE") ->
    ~ contains text (lit "404") -> ~ contains text (lit "Not Found") ->
    contains text (lit "EACCES") ->
    Classified text (lit "Permission denied")
| Classified_network :
    ~ contains text (lit "ERESOLVE") ->
    ~ contains text (lit "404") -> ~ contains text (lit "Not Found") ->
    ~ contains text (lit "EACCES") ->
    contains text (lit "ETIMEDOUT") \/ contains text (lit "ENOTFOUND") ->
    Classified text (lit "Network error")
| Classified_line pre line post stripped :
    noMarker text ->
    split LF text = pre ++ line :: post ->
    Forall (fun l => ~ hasLogPrefix l) pre ->
    hasLogPrefix line ->
    Stripped line stripped ->
    Classified text (trim stripped)
| Classified_unknown :
    noMarker text ->
    Forall (fun l => ~ hasLogPrefix l) (split LF text) ->
    Classified text (lit "Unknown error").

Lemma isErrLine_true line : isErrLine line = true <-> hasLogPrefix line.
Proof.
  unfold isErrLine, hasLogPrefix, logPrefix.
  rewrite orb_true_iff, !includes_contains. split.
  - intros [H | H]; eauto.
  - intros [p [[-> | ->] H]]; auto.
Qed.

Lemma isErrLine_false line : isErrLine line = false <-> ~ hasLogPrefix line.
Proof.
  rewrite <- isErrLine_true. destruct (isErrLine line); split; congruence.
Qed.

Lemma npmPrefixAt_None s :
  npmPrefixAt s = None <-> forall q, logPrefix q -> startsWith q s = false.
Proof.
  unfold npmPrefixAt, logPrefix. split.
  - intros H q [-> | ->];
      destruct (startsWith (lit "npm ERR!") s) eqn:E1; try discriminate;
      destruct (startsWith (lit "npm error") s) eqn:E2; try discriminate;
      reflexivity.
  - intros H. rewrite (H (lit "npm ERR!")), (H (lit "npm error")); auto.
Qed.

Lemma npmPrefixAt_Some s out :
  npmPrefixAt s = Some out ->
  exists p ws, logPrefix p /\ s = p ++ ws ++ out
    /\ Forall (fun c => isWhiteSpace c = true) ws
    /\ match out with c :: _ => isWhiteSpace c = false | [] => True end.
Proof.
  unfold npmPrefixAt, logPrefix.
  destruct (startsWith (lit "npm ERR!") s) eqn:E1;
    [| destruct (startsWith (lit "npm error") s) eqn:E2; [| discriminate]];
    intros [= <-].
  - apply startsWith_drop in E1.
    destruct (dropWhile_split isWhiteSpace (drop 8 s)) as [ws [Hd Hws]].
    exists (lit "npm ERR!"), ws. repeat split; auto.
    + rewrite <- Hd. exact E1.
    + apply dropWhile_head.
  - apply startsWith_drop in E2.
    destruct (dropWhile_split isWhiteSpace (drop 9 s)) as [ws [Hd Hws]].
    exists (lit "npm error"), ws. repeat split; auto.
    + rewrite <- Hd. exact E2.
    + apply dropWhile_head.
Qed.

Lemma hasLogPrefix_cons c s :
  hasLogPrefix (c :: s) -> npmPrefixAt (c :: s) = None -> hasLogPrefix s.
Proof.
  intros [p [Hp [[|d before] [after H]]]] Hnone.
  - rewrite npmPrefixAt_None in Hnone. specialize (Hnone p Hp).
    assert (startsWith p (c :: s) = true) as Ht
      by (apply startsWith_true; now exists after).
    congruence.
  - injection H as -> ->. exists p. split; [exact Hp | now exists before, after].
Qed.

(** The replacement of the source removes exactly what [Stripped]
    describes, on every line that has a log prefix. *)
Lemma removeFirst_Stripped line :
  hasLogPrefix line -> Stripped line (removeFirst npmPrefixAt line).
Proof.
  induction line as [|c s IH]; intros Hhas.
  - destruct Hhas as [p [[-> | ->] [[|? ?] [? H]]]]; discriminate.
  - cbn [removeFirst]. destruct (npmPrefixAt (c :: s)) as [out|] eqn:E.
    + destruct (npmPrefixAt_Some _ _ E) as [p [ws [Hp [Hs [Hws Hout]]]]].
      rewrite Hs. apply (Stripped_at [] p ws out); auto.
      intros i q Hi. simpl in Hi. lia.
    + specialize (IH (hasLogPrefix_cons _ _ Hhas E)).
      inversion IH as [before p ws rest Hp Hleft Hws Hrest Hin Hout].
      apply (Stripped_at (c :: before) p ws rest); auto.
      intros [|i] q Hi Hq.
      * simpl. rewrite Hin. rewrite npmPrefixAt_None in E. now apply E.
      * simpl. apply Hleft; [simpl in Hi; lia | exact Hq].
Qed.

Lemma extractErrorReason_Classified stderr :
  Classified stderr (extractErrorReason stderr).
Proof.
  unfold extractErrorReason.
  destruct (includes stderr (lit "ERESOLVE")) eqn:E1.
  { apply Classified_peer. now apply includes_contains. }
  apply includes_false in E1.
  destruct (includes stderr (lit "404")) eqn:E2.
  { apply Classified_not_found; [exact E1 | left; now apply includes_contains]. }
  destruct (includes stderr (lit "Not Found")) eqn:E3.
  { apply Classified_not_found; [exact E1 | right; now apply includes_contains]. }
  apply includes_false in E2, E3. cbn [orb].
  destruct (includes stderr (lit "EACCES")) eqn:E4.
  { apply Classified_permission; auto. now apply includes_contains. }
  apply includes_false in E4.
  destruct (includes stderr (lit "ETIMEDOUT")) eqn:E5.
  { apply Classified_network; auto. left; now apply includes_contains. }
  destruct (includes stderr (lit "ENOTFOUND")) eqn:E6.
  { apply Classified_network; auto. right; now apply includes_contains. }
  apply includes_false in E5, E6. cbn [orb].
  assert (noMarker stderr) as Hno by (unfold noMarker; auto 10).
  destruct (List.find isErrLine (split LF stderr)) as [errLine|] eqn:Ef.
  - destruct (find_first _ _ _ Ef) as [pre [post [Hsplit [Hpre Hline]]]].
    apply isErrLine_true in Hline.
    apply (Classified_line stderr pre errLine post); auto.
    + eapply List.Forall_impl; [| exact Hpre]. intros l. apply isErrLine_false.
    + now apply removeFirst_Stripped.
  - apply Classified_unknown; [exact Hno |].
    eapply List.Forall_impl; [| exact (find_nothing _ _ Ef)].
    intros l. apply isErrLine_false.
Qed.

(** The classification leaves no choice: [extractErrorReason] computes
    the one reason it allows. *)
Lemma span_unique (P : N -> bool) ws1 rest1 ws2 rest2 :
  ws1 ++ rest1 = ws2 ++ rest2 ->
  Forall (fun c => P c = true) ws1 -> Forall (fun c => P c = true) ws2 ->
  match rest1 with c :: _ => P c = false | [] => True end ->
  match rest2 with c :: _ => P c = false | [] => True end ->
  ws1 = ws2 /\ rest1 = rest2.
Proof.
  revert ws2. induction ws1 as [|c ws1 IH]; intros [|d ws2] Heq H1 H2 Hr1 Hr2.
  - auto.
  - cbn in Heq. subst rest1. apply Forall_cons in H2 as [Hd _]. congruence.
  - cbn in Heq. subst rest2. apply Forall_cons in H1 as [Hc _]. congruence.
  - injection Heq as <- Heq.
    apply Forall_cons in H1 as [_ H1]. apply Forall_cons in H2 as [_ H2].
    destruct (IH ws2 Heq H1 H2 Hr1 Hr2) as [-> ->]. auto.
Qed.

Lemma logPrefix_apart a b :
  lit "npm ERR!" ++ a <> lit "npm error" ++ b.
Proof.
  intros H. apply (f_equal (fun l => nth 4 l 0%N)) in H.
  vm_compute in H. discriminate.
Qed.

Lemma logPrefix_same p1 p2 a b :
  logPrefix p1 -> logPrefix p2 -> p1 ++ a = p2 ++ b -> p1 = p2 /\ a = b.
Proof.
  intros [-> | ->] [-> | ->] H.
  - split; [reflexivity | now apply app_inv_head in H].
  - now apply logPrefix_apart in H.
  - symmetry in H. now apply logPrefix_apart in H.
  - split; [reflexivity | now apply app_inv_head in H].
Qed.

Lemma Stripped_leftmost before p ws rest before' p' tail :
  logPrefix p ->
  (forall i q, (i < length before)%nat -> logPrefix q ->
     startsWith q (drop i (before ++ p ++ ws ++ rest)) = false) ->
  logPrefix p' ->
  before ++ p ++ ws ++ rest = before' ++ p' ++ tail ->
  (length before <= length before')%nat.
Proof.
  intros Hp Hleft Hp' Heq.
  destruct (Nat.le_gt_cases (length before) (length before')) as [| Hlt];
    [assumption |].
  specialize (Hleft (length before') p' Hlt Hp').
  rewrite Heq, drop_app_length in Hleft.
  assert (startsWith p' (p' ++ tail) = true) as Ht
    by (apply startsWith_true; now exists tail).
  congruence.
Qed.

Lemma Stripped_unique line a b : Stripped line a -> Stripped line b -> a = b.
Proof.
  intros Ha Hb.
  inversion Ha as [b1 p1 ws1 r1 Hp1 Hl1 Hws1 Hr1 Hline1 Hout1].
  inversion Hb as [b2 p2 ws2 r2 Hp2 Hl2 Hws2 Hr2 Hline2 Hout2].
  assert (b1 ++ p1 ++ ws1 ++ r1 = b2 ++ p2 ++ ws2 ++ r2) as Heq by congruence.
  assert (length b1 = length b2) as Hlen.
  { apply Nat.le_antisymm.
    - now apply (Stripped_leftmost b1 p1 ws1 r1 b2 p2 (ws2 ++ r2)).
    - now apply (Stripped_leftmost b2 p2 ws2 r2 b1 p1 (ws1 ++ r1)). }
  apply app_inj_1 in Heq as [-> Heq]; [| exact Hlen].
  apply logPrefix_same in Heq as [-> Heq]; auto.
  destruct (span_unique isWhiteSpace ws1 r1 ws2 r2 Heq Hws1 Hws2 Hr1 Hr2)
    as [_ ->].
  reflexivity.
Qed.

Lemma first_unique {A} (P : A -> Prop) pre1 x1 post1 pre2 x2 post2 :
  pre1 ++ x1 :: post1 = pre2 ++ x2 :: post2 ->
  Forall (fun y => ~ P y) pre1 -> P x1 ->
  Forall (fun y => ~ P y) pre2 -> P x2 ->
  x1 = x2.
Proof.
  revert pre2. induction pre1 as [|y pre1 IH]; intros [|z pre2] Heq H1 Hx1 H2 Hx2.
  - now injection Heq.
  - injection Heq as <- _. apply Forall_cons in H2 as [Hz _]. contradiction.
  - injection Heq as -> _. apply Forall_cons in H1 as [Hy _]. contradiction.
  - injection Heq as _ Heq.
    apply Forall_cons in H1 as [_ H1]. apply Forall_cons in H2 as [_ H2].
    now apply (IH pre2).
Qed.

Lemma Forall_not_first {A} (P : A -> Prop) pre x post :
  Forall (fun y => ~ P y) (pre ++ x :: post) -> P x -> False.
Proof.
  intros H Hx. apply Forall_app in H as [_ H].
  apply Forall_cons in H as [H _]. contradiction.
Qed.

Theorem Classified_unique text r1 r2 :
  Classified text r1 -> Classified text r2 -> r1 = r2.
Proof.
  intros H1 H2.
  destruct H1 as [| | | | pre1 l1 post1 s1 ? Hsplit1 Hpre1 Hl1 Hs1 | ? Hall1];
    destruct H2 as [| | | | pre2 l2 post2 s2 ? Hsplit2 Hpre2 Hl2 Hs2 | ? Hall2];
    try reflexivity; unfold noMarker in *; try tauto.
  - assert (l1 = l2) as <-.
    { rewrite Hsplit1 in Hsplit2.
      exact (first_unique hasLogPrefix _ _ _ _ _ _ Hsplit2 Hpre1 Hl1 Hpre2 Hl2). }
    now rewrite (Stripped_unique l1 s1 s2 Hs1 Hs2).
  - rewrite Hsplit1 in Hall2. now destruct (Forall_not_first _ _ _ _ Hall2 Hl1).
  - rewrite Hsplit2 in Hall1. now destruct (Forall_not_first _ _ _ _ Hall1 Hl2).
Qed.

Corollary Classified_extractErrorReason text reason :
  Classified text reason <-> reason = extractErrorReason text.
Proof.
  split.
  - intros H. exact (Classified_unique _ _ _ H (extractErrorReason_Classified text)).
  - intros ->. apply extractErrorReason_Classified.
Qed.

Section WithWorld.

Context {World : Type}.
(** [JSON.parse(readFileSync(pkgPath, "utf-8"))] *)
Variable readPackageJson : M World PackageJson.
(** [execSync(cmd, ...)]: the captured standard output, or the error
    of the failed process. *)
Variable execSync : jsstring -> M World jsstring.

(** [pkg.dependencies?.[name] ?? pkg.devDependencies?.[name] ?? "unknown"]
    for the name of a package; for a name that is a property of
    [Object.prototype] the source would read the inherited member, which
    is no version string. *)
Definition getCurrentVersion (name : jsstring) : M World jsstring :=
  let* pkg := readPackageJson in
  ret (match optLookup (dependencies pkg) name with
       | Some v => v
       | None =>
           match optLookup (devDependencies pkg) name with
           | Some v => v
           | None => lit "unknown"
           end
       end).

(** [name in (pkg.devDependencies ?? {})] *)
Definition isDevDep (name : jsstring) : M World bool :=
  let* pkg := readPackageJson in
  ret (hasProperty (default ∅ (devDependencies pkg)) name).

Definition installCommand (name : jsstring) (dev : bool)
    (options : UpdateOptions) : jsstring :=
  let saveFlag := if dev then lit "--save-dev" else lit "--save" in
  let exactFlag := if exact options then lit "--save-exact" else [] in
  let forceFlag := if force options then lit "--legacy-peer-deps" else [] in
  trim (lit "npm install " ++ name ++ lit "@latest " ++ saveFlag
          ++ lit " " ++ exactFlag ++ lit " " ++ forceFlag).

(** The body of the [try] block of [updatePackage], up to the value
    of [newVersion]. *)
Definition installLatest (name : jsstring) (options : UpdateOptions)
  : M World jsstring :=
  let* dev := isDevDep name in
  let* _ := execSync (installCommand name dev options) in
  getCurrentVersion name.

(** The [reason] computed by the [catch] clause of [updatePackage]. *)
Definition failureReason (execErr : Thrown) : jsstring :=
  if truthy (thrown_stderr execErr)
  then extractErrorReason (default [] (thrown_stderr execErr))
  else match thrown_message execErr with
       | Some m => hd (lit "Unknown error") (split LF m)
       | None => lit "Unknown error"
       end.

Definition updatePackage (name : jsstring) (options : UpdateOptions)
  : M World UpdateResult :=
  let* previousVersion := getCurrentVersion name in
  tryCatch
    (let* newVersion := installLatest name options in
     ret {| name := name;
            previousVersion := previousVersion;
            newVersion := newVersion;
            success := true;
            error := None |})
    (fun err =>
       ret {| name := name;
              previousVersion := previousVersion;
              newVersion := previousVersion;
              success := false;
              error := Some (failureReason err) |}).

(** The loop of [updateMultiplePackages], from index [i] on. *)
Fixpoint updateFrom (names : list jsstring) (options : UpdateOptions)
    (onProgress : option (UpdateResult -> nat -> nat -> M World unit))
    (i total : nat) : M World (list UpdateResult) :=
  match names with
  | [] => ret []
  | n :: rest =>
      let* result := updatePackage n options in
      let* _ := match onProgress with
                | Some f => f result i total
                | None => ret tt
                end in
      let* results := updateFrom rest options onProgress (S i) total in
      ret (result :: results)
  end.

Definition updateMultiplePackages (names : list jsstring)
    (options : UpdateOptions)
    (onProgress : option (UpdateResult -> nat -> nat -> M World unit))
  : M World (list UpdateResult) :=
  updateFrom names options onProgress 0 (length names).

(** Whenever the [try] block throws, the [catch] clause turns the error
    into a failed result that leaves the version as it was. *)
Lemma updatePackage_catches name options w pkg w1 err w2 :
  readPackageJson w = (inr pkg, w1) ->
  installLatest name options w1 = (inl err, w2) ->
  exists prev,
    updatePackage name options w =
      (inr {| name := name; previousVersion := prev; newVersion := prev;
              success := false; error := Some (failureReason err) |}, w2).
Proof.
  intros Hread Hinstall.
  unfold updatePackage, getCurrentVersion, bind, tryCatch, ret.
  rewrite Hread, Hinstall. eexists. reflexivity.
Qed.

(** Every failed result comes out of the [catch] clause. *)
Lemma updatePackage_failed_inv name options w r w' :
  updatePackage name options w = (inr r, w') ->
  success r = false ->
  exists pkg w1 err,
    readPackageJson w = (inr pkg, w1)
    /\ installLatest name options w1 = (inl err, w')
    /\ newVersion r = previousVersion r
    /\ error r = Some (failureReason err).
Proof.
  unfold updatePackage, getCurrentVersion, bind, tryCatch, ret.
  destruct (readPackageJson w) as [[e | pkg] w1] eqn:Hread; [discriminate |].
  destruct (installLatest name options w1) as [[err | v] w2] eqn:Hinstall.
  - intros [= <- <-] _. exists pkg, w1, err. auto.
  - intros [= <- <-]. discriminate.
Qed.

Lemma failureReason_stderr err stderr :
  thrown_stderr err = Some stderr -> stderr <> [] ->
  failureReason err = extractErrorReason stderr.
Proof.
  intros H Hne. unfold failureReason. rewrite H.
  destruct stderr; [contradiction | reflexivity].
Qed.

Lemma failureReason_message err :
  thrown_stderr err = None \/ thrown_stderr err = Some [] ->
  failureReason err =
    match thrown_message err with
    | Some m => firstLine m
    | None => lit "Unknown error"
    end.
Proof.
  unfold failureReason.
  intros [-> | ->]; simpl; destruct (thrown_message err);
    auto using hd_split_LF.
Qed.

(** C1 (amended). When the install of a single package fails, that is
    when the [try] block of [updatePackage] throws [err] after the
    previous version was read, [updatePackage] returns a result with
    [success = false] and [newVersion = previousVersion]. Its error
    reason is the classification of the captured standard error, in the
    priority order ERESOLVE, 404 / Not Found, EACCES, ETIMEDOUT /
    ENOTFOUND, first line with a log prefix (stripped and trimmed),
    "Unknown error", whenever a non-empty standard error was captured;
    when none was captured, the reason is the first line of the error's
    message, or "Unknown error" if the error has no message. *)
Theorem updatePackage_failure name options w pkg w1 err w2 :
  readPackageJson w = (inr pkg, w1) ->
  installLatest name options w1 = (inl err, w2) ->
  exists r reason,
    updatePackage name options w = (inr r, w2)
    /\ success r = false
    /\ newVersion r = previousVersion r
    /\ error r = Some reason
    /\ (forall stderr, thrown_stderr err = Some stderr -> stderr <> [] ->
          Classified stderr reason)
    /\ (thrown_stderr err = None \/ thrown_stderr err = Some [] ->
          reason = match thrown_message err with
                   | Some m => firstLine m
                   | None => lit "Unknown error"
                   end).
Proof.
  intros Hread Hinstall.
  destruct (updatePackage_catches name options w pkg w1 err w2 Hread Hinstall)
    as [prev Hrun].
  eexists. exists (failureReason err). split; [exact Hrun |].
  cbn [success newVersion previousVersion error].
  repeat split.
  - intros stderr Hs Hne. rewrite (failureReason_stderr err stderr Hs Hne).
    apply extractErrorReason_Classified.
  - apply failureReason_message.
Qed.

End WithWorld.

(** *** The runs of the unit tests *)

(** [{ dependencies: { express: "4.18.0" }, devDependencies: { vitest: "1.0.0" } }] *)
Definition pkgJsonBefore : PackageJson :=
  {| dependencies := Some {[ lit "express" := lit "4.18.0" ]};
     devDependencies := Some {[ lit "vitest" := lit "1.0.0" ]} |}.

Definition emptyPkgJson : PackageJson :=
  {| dependencies := Some ∅; devDependencies := Some ∅ |}.

(** An install that fails on a peer-dependency conflict. *)
Definition eresolveError : Thrown :=
  {| thrown_stdout := None;
     thrown_stderr := Some (lit "npm error code ERESOLVE" ++ [LF]
                              ++ lit "npm error ERESOLVE could not resolve");
     thrown_message := Some (lit "install failed") |}.

(** [throw new Error("not found")]: an error without captured output. *)
Definition notFoundError : Thrown :=
  {| thrown_stdout := None;
     thrown_stderr := None;
     thrown_message := Some (lit "not found") |}.

Definition exactOnly : UpdateOptions := {| exact := true; force := false |}.

Example extractErrorReason_tests :
  extractErrorReason (lit "npm error code ERESOLVE" ++ [LF]
                        ++ lit "npm error ERESOLVE could not resolve")
  = lit "Peer dependency conflict (use --force to bypass)"
  /\ extractErrorReason
       (lit "npm error 404 Not Found - GET https://registry.npmjs.org/foo")
     = lit "Package not found in registry"
  /\ extractErrorReason (lit "npm error Error: EACCES: permission denied")
     = lit "Permission denied"
  /\ extractErrorReason (lit "npm error ETIMEDOUT") = lit "Network error"
  /\ extractErrorReason (lit "npm error ENOTFOUND") = lit "Network error"
  /\ extractErrorReason (lit "some output" ++ [LF]
                           ++ lit "npm ERR! Could not install package")
     = lit "Could not install package"
  /\ extractErrorReason (lit "some output" ++ [LF]
                           ++ lit "npm error something went wrong")
     = lit "something went wrong"
  /\ extractErrorReason (lit "random garbage") = lit "Unknown error"
  /\ extractErrorReason [] = lit "Unknown error".
Proof. repeat split; vm_compute; reflexivity. Qed.

(** The markers are tried in order: a text with several of them gets
    the reason of the first. *)
Example extractErrorReason_priority :
  extractErrorReason (lit "npm ERR! 404 Not Found, then ERESOLVE, EACCES")
  = lit "Peer dependency conflict (use --force to bypass)"
  /\ extractErrorReason (lit "npm ERR! EACCES ETIMEDOUT")
     = lit "Permission denied".
Proof. split; vm_compute; reflexivity. Qed.

(** The prefix is removed where it stands; what precedes it stays. *)
Example extractErrorReason_inner_prefix :
  extractErrorReason (lit "  [12:00] npm ERR!   disk full  ")
  = lit "[12:00] disk full".
Proof. vm_compute. reflexivity. Qed.

Lemma updatePackage_failure_witness :
  exists r reason,
    updatePackage (World := unit) (ret pkgJsonBefore) (fun _ => throw eresolveError)
      (lit "express") exactOnly tt = (inr r, tt)
    /\ success r = false
    /\ newVersion r = previousVersion r
    /\ error r = Some reason
    /\ (forall stderr, thrown_stderr eresolveError = Some stderr -> stderr <> [] ->
          Classified stderr reason)
    /\ (thrown_stderr eresolveError = None \/ thrown_stderr eresolveError = Some [] ->
          reason = match thrown_message eresolveError with
                   | Some m => firstLine m
                   | None => lit "Unknown error"
                   end).
Proof.
  apply (updatePackage_failure (World := unit) (ret pkgJsonBefore)
           (fun _ => throw eresolveError) (lit "express") exactOnly
           tt pkgJsonBefore tt eresolveError tt); reflexivity.
Defined.

Lemma not_contains_empty (marker : jsstring) :
  marker <> [] -> ~ contains [] marker.
Proof.
  intros Hne [before [after H]]. symmetry in H.
  apply app_eq_nil in H as [_ H]. apply app_eq_nil in H as [H _]. auto.
Qed.

Lemma Classified_empty reason : Classified [] reason -> reason = lit "Unknown error".
Proof.
  assert (forall m, m <> [] -> contains [] m -> False) as Hno
    by exact not_contains_empty.
  intros H. inversion H; subst;
    repeat match goal with
           | Hc : _ \/ _ |- _ => destruct Hc
           | Hc : contains [] _ |- _ => now apply Hno in Hc
           end;
    try reflexivity.
  match goal with Hs : split LF [] = _ |- _ => simpl in Hs; rename Hs into Hsplit end.
  destruct pre as [|? [|? ?]]; try discriminate.
  injection Hsplit as <- _.
  match goal with Hl : hasLogPrefix [] |- _ =>
    destruct Hl as [p [[-> | ->] Hc]]; now apply Hno in Hc end.
Qed.

(** C1 as stated fails: an install that throws without any captured
    standard error (the unit test "should handle unknown package
    version") yields the reason "not found", the first line of the
    error's message, while the classification of the (empty) captured
    error text is "Unknown error". *)
Lemma updatePackage_reason_not_classified :
  exists r,
    updatePackage (World := unit) (ret emptyPkgJson) (fun _ => throw notFoundError)
      (lit "nonexistent") exactOnly tt = (inr r, tt)
    /\ success r = false
    /\ previousVersion r = lit "unknown"
    /\ error r = Some (lit "not found")
    /\ ~ Classified [] (lit "not found")
    /\ extractErrorReason [] = lit "Unknown error".
Proof.
  eexists. split; [reflexivity |]. cbn [success previousVersion error].
  repeat split.
  intros H. apply Classified_empty in H. discriminate.
Qed.

End Updater.

(** ** services/audit.ts *)

Module Audit.

(** One entry of a finding's [via] list: the name of the dependency the
    finding is inherited from, or an advisory object. The title of an
    advisory is [None] when the object has no [title] key, [Some None]
    when the key holds [null] and [Some (Some t)] when it holds the
    string [t]; its url is [None] when the key is missing or holds
    [null]. *)
Inductive ViaItem :=
| ViaName (dependency : jsstring)
| ViaAdvisory (title : option (option jsstring)) (url : option jsstring).

Inductive FixAvailable :=
| FixFlag (available : bool)
| FixTarget (name version : jsstring).

(** A finding as [npm audit --json] reports it: the shape the source
    casts each value of [data.vulnerabilities] to. The severity is
    whatever string the tool printed. *)
Record RawFinding := {
  raw_severity : jsstring;
  raw_via : list ViaItem;
  raw_range : jsstring;
  raw_fixAvailable : FixAvailable
}.

Record Vulnerability := {
  name : jsstring;
  severity : jsstring;
  title : jsstring;
  url : jsstring;
  range : jsstring;
  fixAvailable : FixAvailable
}.

(** [Record<SeverityLevel, number>] *)
Record Summary := {
  critical : nat;
  high : nat;
  moderate : nat;
  low : nat;
  info : nat
}.

Record AuditResult := {
  vulnerabilities : list Vulnerability;
  summary : Summary;
  total : nat
}.

Record AuditFixResult := {
  success : bool;
  added : Z;
  removed : Z;
  changed : Z;
  fixedVulnerabilities : Z;
  remainingVulnerabilities : Z;
  error : option jsstring
}.

Definition emptySummary : Summary :=
  {| critical := 0; high := 0; moderate := 0; low := 0; info := 0 |}.

Definition emptyResult : AuditResult :=
  {| vulnerabilities := []; summary := emptySummary; total := 0 |}.

Definition severityLevels : list jsstring :=
  [lit "critical"; lit "high"; lit "moderate"; lit "low"; lit "info"].

(** [severityLevels.includes(sev)] *)
Definition isSeverityLevel (sev : jsstring) : bool :=
  bool_decide (sev ∈ severityLevels).

(** [summary[sev]++] for one of the five keys. *)
Definition increment (sev : jsstring) (s : Summary) : Summary :=
  if bool_decide (sev = lit "critical") then
    {| critical := S (critical s); high := high s; moderate := moderate s;
       low := low s; info := info s |}
  else if bool_decide (sev = lit "high") then
    {| critical := critical s; high := S (high s); moderate := moderate s;
       low := low s; info := info s |}
  else if bool_decide (sev = lit "moderate") then
    {| critical := critical s; high := high s; moderate := S (moderate s);
       low := low s; info := info s |}
  else if bool_decide (sev = lit "low") then
    {| critical := critical s; high := high s; moderate := moderate s;
       low := S (low s); info := info s |}
  else if bool_decide (sev = lit "info") then
    {| critical := critical s; high := high s; moderate := moderate s;
       low := low s; info := S (info s) |}
  else s.

(** [typeof item === "object" && "title" in item] *)
Definition isDirectVia (item : ViaItem) : bool :=
  match item with
  | ViaAdvisory (Some _) _ => true
  | _ => false
  end.

Definition toVulnerability (entry : jsstring * RawFinding) : Vulnerability :=
  let '(name, v) := entry in
  let directVia := List.find isDirectVia (raw_via v) in
  {| name := name;
     severity := raw_severity v;
     title := match directVia with
              | Some (ViaAdvisory (Some (Some t)) _) => t
              | _ => lit "Transitive vulnerability"
              end;
     url := match directVia with
            | Some (ViaAdvisory _ (Some u)) => u
            | _ => []
            end;
     range := raw_range v;
     fixAvailable := raw_fixAvailable v |}.

(** The [for] loop over [Object.entries(data.vulnerabilities)]. *)
Fixpoint collect (entries : list (jsstring * RawFinding))
    (vulnerabilities : list Vulnerability) (summary : Summary)
  : list Vulnerability * Summary :=
  match entries with
  | [] => (vulnerabilities, summary)
  | entry :: rest =>
      let v := snd entry in
      collect rest (vulnerabilities ++ [toVulnerability entry])
        (if isSeverityLevel (raw_severity v)
         then increment (raw_severity v) summary
         else summary)
  end.

(** [severityOrder[sev]]; [None] is [undefined]. *)
Definition severityOrder (sev : jsstring) : option Z :=
  if bool_decide (sev = lit "critical") then Some 0
  else if bool_decide (sev = lit "high") then Some 1
  else if bool_decide (sev = lit "moderate") then Some 2
  else if bool_decide (sev = lit "low") then Some 3
  else if bool_decide (sev = lit "info") then Some 4
  else None.

(** [(a, b) => severityOrder[a.severity] - severityOrder[b.severity]];
    a subtraction with [undefined] is [NaN]. *)
Definition bySeverity (a b : Vulnerability) : option Z :=
  match severityOrder (severity a), severityOrder (severity b) with
  | Some ra, Some rb => Some (ra - rb)
  | _, _ => None
  end.

(** What [runAudit] makes of the findings of a report. *)
Definition normalize (entries : list (jsstring * RawFinding)) : AuditResult :=
  let '(vulnerabilities, summary) := collect entries [] emptySummary in
  let sorted := sort bySeverity vulnerabilities in
  {| vulnerabilities := sorted;
     summary := summary;
     total := length sorted |}.

(** [/word\s+(\d+)/] tried at the start of a string. *)
Definition countAt (word s : jsstring) : option jsstring :=
  if startsWith word s then
    let afterWord := drop (length word) s in
    let afterSpace := dropWhile isWhiteSpace afterWord in
    if (length afterSpace <? length afterWord)%nat then
      match takeWhile isDigit afterSpace with
      | [] => None
      | digits => Some digits
      end
    else None
  else None.

(** [m ? parseInt(m[1], 10) : 0] for [m = stdout.match(/word\s+(\d+)/)]. *)
Definition parseCount (word stdout : jsstring) : Z :=
  match firstMatch (countAt word) stdout with
  | Some digits => parseInt10 digits
  | None => 0
  end.

(** *** The result of [normalize] *)

Definition hasSeverity (sev : jsstring) (v : Vulnerability) : bool :=
  bool_decide (severity v = sev).

Definition recognized (v : Vulnerability) : bool :=
  isSeverityLevel (severity v).

Definition summaryTotal (s : Summary) : nat :=
  critical s + high s + moderate s + low s + info s.

(** [summary[sev]] for one of the five keys. *)
Definition countOf (sev : jsstring) (s : Summary) : nat :=
  if bool_decide (sev = lit "critical") then critical s
  else if bool_decide (sev = lit "high") then high s
  else if bool_decide (sev = lit "moderate") then moderate s
  else if bool_decide (sev = lit "low") then low s
  else if bool_decide (sev = lit "info") then info s
  else 0%nat.


Lemma collect_spec entries vs s :
  collect entries vs s =
    (vs ++ List.map toVulnerability entries,
     fold_left (fun acc e =>
                  if isSeverityLevel (raw_severity (snd e))
                  then increment (raw_severity (snd e)) acc else acc)
       entries s).
Proof.
  revert vs s. induction entries as [|e entries IH]; intros vs s; simpl.
  - now rewrite app_nil_r.
  - rewrite IH, <- app_assoc. reflexivity.
Qed.

Lemma severity_toVulnerability e : severity (toVulnerability e) = raw_severity (snd e).
Proof. now destruct e. Qed.

Lemma name_toVulnerability e : name (toVulnerability e) = fst e.
Proof. now destruct e. Qed.

Lemma isSeverityLevel_cases sev :
  isSeverityLevel sev = true ->
  sev = lit "critical" \/ sev = lit "high" \/ sev = lit "moderate"
  \/ sev = lit "low" \/ sev = lit "info".
Proof.
  unfold isSeverityLevel, severityLevels. intros H.
  apply bool_decide_eq_true in H.
  rewrite !elem_of_cons, elem_of_nil in H. tauto.
Qed.


(** Adding one finding to the tally moves exactly the counter of its
    severity, if it has one. *)
Lemma tally_step sev s :
  summaryTotal (if isSeverityLevel sev then increment sev s else s) =
    (summaryTotal s + (if isSeverityLevel sev then 1 else 0))%nat.
Proof.
  destruct (isSeverityLevel sev) eqn:H; [| lia].
  destruct (isSeverityLevel_cases sev H) as [-> | [-> | [-> | [-> | ->]]]];
    unfold summaryTotal, increment;
    repeat case_bool_decide; try discriminate; try congruence; cbn; lia.
Qed.

Lemma tally_total entries s :
  summaryTotal
    (fold_left (fun acc e =>
                  if isSeverityLevel (raw_severity (snd e))
                  then increment (raw_severity (snd e)) acc else acc)
       entries s) =
    (summaryTotal s
     + length (List.filter recognized (List.map toVulnerability entries)))%nat.
Proof.
  revert s. induction entries as [|e entries IH]; intros s; simpl; [lia |].
  rewrite IH, tally_step. unfold recognized at 2.
  rewrite severity_toVulnerability.
  destruct (isSeverityLevel (raw_severity (snd e))); simpl; lia.
Qed.

Lemma countOf_step sev k s :
  isSeverityLevel sev = true ->
  countOf sev (if isSeverityLevel k then increment k s else s) =
    (countOf sev s + (if bool_decide (k = sev) then 1 else 0))%nat.
Proof.
  intros Hsev.
  destruct (isSeverityLevel k) eqn:Hk.
  - destruct (isSeverityLevel_cases sev Hsev) as [-> | [-> | [-> | [-> | ->]]]];
      destruct (isSeverityLevel_cases k Hk) as [-> | [-> | [-> | [-> | ->]]]];
      unfold countOf, increment;
      repeat case_bool_decide; try discriminate; try congruence; cbn; lia.
  - case_bool_decide; [congruence | lia].
Qed.

Lemma tally_counts entries s sev :
  isSeverityLevel sev = true ->
  countOf sev
    (fold_left (fun acc e =>
                  if isSeverityLevel (raw_severity (snd e))
                  then increment (raw_severity (snd e)) acc else acc)
       entries s) =
    (countOf sev s
     + length (List.filter (hasSeverity sev) (List.map toVulnerability entries)))%nat.
Proof.
  intros Hsev. revert s. induction entries as [|e entries IH]; intros s; simpl; [lia |].
  rewrite IH, countOf_step by exact Hsev. unfold hasSeverity at 2.
  rewrite severity_toVulnerability.
  destruct (bool_decide (raw_severity (snd e) = sev)); simpl; lia.
Qed.

Lemma filter_Permutation_length {A} (P : A -> bool) (l l' : list A) :
  Permutation l l' -> length (List.filter P l) = length (List.filter P l').
Proof.
  induction 1 as [| x l l' _ IH | x y l | l l' l'' _ IH1 _ IH2]; simpl.
  - reflexivity.
  - destruct (P x); simpl; congruence.
  - destruct (P x), (P y); reflexivity.
  - congruence.
Qed.

Lemma filter_split_length {A} (P : A -> bool) (l : list A) :
  (length (List.filter P l) + length (List.filter (fun x => negb (P x)) l))%nat
  = length l.
Proof.
  induction l as [|x l IH]; simpl; [reflexivity |].
  destruct (P x); simpl; lia.
Qed.


Lemma normalize_invariant entries :
  let r := normalize entries in
  total r = length (vulnerabilities r)
  /\ summaryTotal (summary r) = length (List.filter recognized (vulnerabilities r))
  /\ (forall sev, isSeverityLevel sev = true ->
        countOf sev (summary r)
        = length (List.filter (hasSeverity sev) (vulnerabilities r)))
  /\ Permutation (vulnerabilities r) (List.map toVulnerability entries).
Proof.
  unfold normalize. rewrite collect_spec. cbn [app vulnerabilities summary total].
  split; [reflexivity |].
  pose proof (sort_Permutation bySeverity (List.map toVulnerability entries)) as Hperm.
  split; [| split; [| exact Hperm]].
  - rewrite tally_total. cbn.
    apply filter_Permutation_length. now symmetry.
  - intros sev Hsev. rewrite tally_counts by exact Hsev.
    rewrite (filter_Permutation_length _ _ _ Hperm).
    destruct (isSeverityLevel_cases sev Hsev) as [-> | [-> | [-> | [-> | ->]]]];
      reflexivity.
Qed.



Section WithWorld.

Context {World : Type}.
(** [execSync(cmd, ...)] *)
Variable execSync : jsstring -> M World jsstring.
(** [JSON.parse(stdout)] read at [data.vulnerabilities]: [None] when
    parsing throws, [Some None] when the report has no findings field,
    [Some (Some entries)] with the entries of the field otherwise. *)
Variable parseReport : jsstring -> option (option (list (jsstring * RawFinding))).

(** The inner [try]: the standard output of the command, also when it
    exits with a non-zero status; [None] when nothing was captured. *)
Definition captureStdout (cmd : jsstring) : M World (option jsstring) :=
  tryCatch
    (let* stdout := execSync cmd in ret (Some stdout))
    (fun execErr =>
       ret (if truthy (thrown_stdout execErr)
            then thrown_stdout execErr
            else None)).

Definition runAudit : M World AuditResult :=
  let* captured := captureStdout (lit "npm audit --json") in
  match captured with
  | None => ret emptyResult
  | Some stdout =>
      match parseReport stdout with
      | None => ret emptyResult
      | Some None => ret emptyResult
      | Some (Some entries) => ret (normalize entries)
      end
  end.

Definition fixFailed (before : AuditResult) (execErr : Thrown) : AuditFixResult :=
  let stderr := default [] (thrown_stderr execErr) in
  {| success := false;
     added := 0;
     removed := 0;
     changed := 0;
     fixedVulnerabilities := 0;
     remainingVulnerabilities := Z.of_nat (total before);
     error := Some (if includes stderr (lit "ERESOLVE")
                    then lit "Could not resolve dependencies. Try with --force."
                    else lit "npm audit fix failed") |}.

Definition fixCommand (force : bool) : jsstring :=
  lit "npm audit fix" ++ (if force then lit " --force" else []).

Definition runAuditFix (force : bool) : M World AuditFixResult :=
  tryCatch
    (let* before := runAudit in
     let* outcome :=
       tryCatch
         (let* stdout := execSync (fixCommand force) in ret (inr stdout))
         (fun execErr =>
            ret (match thrown_stdout execErr with
                 | Some (c :: out) => inr (c :: out)
                 | _ => inl (fixFailed before execErr)
                 end)) in
     match outcome with
     | inl failure => ret failure
     | inr stdout =>
         let added := parseCount (lit "added") stdout in
         let removed := parseCount (lit "removed") stdout in
         let changed := parseCount (lit "changed") stdout in
         let* after := runAudit in
         ret {| success := true;
                added := added;
                removed := removed;
                changed := changed;
                fixedVulnerabilities :=
                  Z.max 0 (Z.of_nat (total before) - Z.of_nat (total after));
                remainingVulnerabilities := Z.of_nat (total after);
                error := None |}
     end)
    (fun _ =>
       ret {| success := false;
              added := 0;
              removed := 0;
              changed := 0;
              fixedVulnerabilities := 0;
              remainingVulnerabilities := 0;
              error := Some (lit "Unexpected error running npm audit fix") |}).

(** *** Properties of [runAudit] and [runAuditFix] *)

Lemma captureStdout_returns cmd w :
  exists captured w', captureStdout cmd w = (inr captured, w').
Proof.
  unfold captureStdout, tryCatch, bind, ret.
  destruct (execSync cmd w) as [[e | out] w']; eauto.
Qed.

(** [runAudit] never throws: it returns the empty result or the
    normalized findings of the report it could read. *)
Lemma runAudit_cases w :
  exists r w',
    runAudit w = (inr r, w')
    /\ (r = emptyResult
        \/ exists stdout entries,
             captureStdout (lit "npm audit --json") w = (inr (Some stdout), w')
             /\ parseReport stdout = Some (Some entries)
             /\ r = normalize entries).
Proof.
  unfold runAudit, bind.
  destruct (captureStdout_returns (lit "npm audit --json") w)
    as [[stdout|] [w' Hc]]; rewrite Hc.
  - destruct (parseReport stdout) as [[entries|]|] eqn:Hp; unfold ret;
      eauto 10.
  - unfold ret. eauto.
Qed.


Lemma filter_map_length {A B} (g : A -> B) (f : B -> bool) (l : list A) :
  length (List.filter f (List.map g l))
  = length (List.filter (fun a => f (g a)) l).
Proof.
  induction l as [|a l IH]; cbn; [reflexivity |].
  destruct (f (g a)); cbn; now rewrite IH.
Qed.

(** The report of a run: what the command printed, whether it
    returned or failed, read as the findings of the report. *)
Lemma runAudit_captured w stdout entries w' :
  (execSync (lit "npm audit --json") w = (inr stdout, w')
   \/ exists execErr,
        execSync (lit "npm audit --json") w = (inl execErr, w')
        /\ thrown_stdout execErr = Some stdout /\ stdout <> []) ->
  parseReport stdout = Some (Some entries) ->
  runAudit w = (inr (normalize entries), w').
Proof.
  intros Hexec Hparse.
  unfold runAudit, captureStdout, tryCatch, bind, ret.
  destruct Hexec as [-> | [execErr [-> [Hout Hne]]]].
  - now rewrite Hparse.
  - rewrite Hout. destruct stdout as [|c out]; [contradiction |].
    cbn [truthy]. now rewrite Hparse.
Qed.

(** C6. Every result of [runAudit] has [total] equal to the length of
    its list; its summary counts, level by level, exactly the findings
    of the list whose severity is one of the five levels, so the counts
    add up to at most [total], and to [total] less the number of
    findings of unrecognized severity; the list holds every finding of
    the report, whatever its severity: when the output of the command
    of this run, printed on return or on failure, parses to a report,
    the list is a rearrangement of the findings of that report, each
    under its name and with the severity, the range and the fix the
    report gives it, [total]
    is their number, and each count of the summary is the number of
    findings the report gives that level. *)
Theorem runAudit_invariant w r w' :
  runAudit w = (inr r, w') ->
  total r = length (vulnerabilities r)
  /\ (forall sev, isSeverityLevel sev = true ->
        countOf sev (summary r)
        = length (List.filter (hasSeverity sev) (vulnerabilities r)))
  /\ summaryTotal (summary r)
     = length (List.filter recognized (vulnerabilities r))
  /\ (summaryTotal (summary r) <= total r)%nat
  /\ (summaryTotal (summary r)
      + length (List.filter (fun v => negb (recognized v)) (vulnerabilities r))
      = total r)%nat
  /\ (r = emptyResult
      \/ exists stdout entries,
           parseReport stdout = Some (Some entries)
           /\ Permutation (vulnerabilities r) (List.map toVulnerability entries))
  /\ (forall stdout entries,
        (execSync (lit "npm audit --json") w = (inr stdout, w')
         \/ exists execErr,
              execSync (lit "npm audit --json") w = (inl execErr, w')
              /\ thrown_stdout execErr = Some stdout /\ stdout <> []) ->
        parseReport stdout = Some (Some entries) ->
        Permutation (vulnerabilities r) (List.map toVulnerability entries)
        /\ Permutation
             (List.map (fun v => (name v, severity v, range v, fixAvailable v))
                (vulnerabilities r))
             (List.map (fun e => (fst e, raw_severity (snd e), raw_range (snd e),
                                  raw_fixAvailable (snd e))) entries)
        /\ total r = length entries
        /\ (forall sev, isSeverityLevel sev = true ->
              countOf sev (summary r)
              = length (List.filter
                          (fun e => bool_decide (raw_severity (snd e) = sev))
                          entries))
        /\ (summaryTotal (summary r)
            + length (List.filter
                        (fun e => negb (isSeverityLevel (raw_severity (snd e))))
                        entries)
            = total r)%nat).
Proof.
  intros Hrun.
  destruct (runAudit_cases w) as [r0 [w0 [Hrun0 Hcases]]].
  rewrite Hrun in Hrun0. injection Hrun0 as <- <-.
  assert (total r = length (vulnerabilities r)
          /\ summaryTotal (summary r)
             = length (List.filter recognized (vulnerabilities r))
          /\ (forall sev, isSeverityLevel sev = true ->
                countOf sev (summary r)
                = length (List.filter (hasSeverity sev) (vulnerabilities r))))
    as [Ht [Hs Hc]].
  { destruct Hcases as [-> | [stdout [entries [_ [_ ->]]]]].
    - repeat split. intros sev Hsev.
      destruct (isSeverityLevel_cases sev Hsev) as [-> | [-> | [-> | [-> | ->]]]];
        reflexivity.
    - destruct (normalize_invariant entries) as [H1 [H2 [H3 _]]]. auto. }
  pose proof (filter_split_length recognized (vulnerabilities r)) as Hsplit.
  split; [exact Ht |]. split; [exact Hc |]. split; [exact Hs |].
  split; [lia |]. split; [lia |]. split.
  { destruct Hcases as [-> | [stdout [entries [_ [Hp ->]]]]]; [now left | right].
    exists stdout, entries. split; [exact Hp |].
    apply (normalize_invariant entries). }
  intros stdout entries Hexec Hparse.
  pose proof (runAudit_captured w stdout entries w' Hexec Hparse) as Hreport.
  rewrite Hrun in Hreport. injection Hreport as ->.
  destruct (normalize_invariant entries) as [_ [_ [_ Hperm]]].
  cbn zeta in Hperm.
  assert (total (normalize entries) = length entries) as Hlen.
  { rewrite Ht, (Permutation_length Hperm). apply length_map. }
  split; [exact Hperm |]. split; [| split; [exact Hlen |]; split].
  - apply (Permutation_map
             (fun v => (name v, severity v, range v, fixAvailable v))) in Hperm.
    rewrite List.map_map in Hperm.
    rewrite (List.map_ext _
               (fun e : jsstring * RawFinding =>
                  (fst e, raw_severity (snd e), raw_range (snd e),
                   raw_fixAvailable (snd e))))
      in Hperm; [exact Hperm |].
    now intros [n v].
  - intros sev Hsev. rewrite (Hc sev Hsev).
    rewrite (filter_Permutation_length _ _ _ Hperm), filter_map_length.
    f_equal. apply List.filter_ext. intros e. unfold hasSeverity.
    now rewrite severity_toVulnerability.
  - assert (length (List.filter (fun v => negb (recognized v))
                      (vulnerabilities (normalize entries)))
            = length (List.filter
                        (fun e => negb (isSeverityLevel (raw_severity (snd e))))
                        entries)) as Hother.
    { rewrite (filter_Permutation_length _ _ _ Hperm), filter_map_length.
      f_equal. apply List.filter_ext. intros e. unfold recognized.
      now rewrite severity_toVulnerability. }
    lia.
Qed.


(** C4. On the success path of [runAuditFix], that is when the fix
    command returns or fails with some captured output, the result
    reports [max(0, before.total - after.total)] fixed vulnerabilities,
    never a negative number, and [after.total] remaining ones. *)
Theorem runAuditFix_counts force w before w1 stdout w2 after w3 :
  runAudit w = (inr before, w1) ->
  (execSync (fixCommand force) w1 = (inr stdout, w2)
   \/ exists execErr,
        execSync (fixCommand force) w1 = (inl execErr, w2)
        /\ thrown_stdout execErr = Some stdout /\ stdout <> []) ->
  runAudit w2 = (inr after, w3) ->
  exists r,
    runAuditFix force w = (inr r, w3)
    /\ success r = true
    /\ fixedVulnerabilities r
       = Z.max 0 (Z.of_nat (total before) - Z.of_nat (total after))
    /\ 0 <= fixedVulnerabilities r
    /\ ((total before < total after)%nat -> fixedVulnerabilities r = 0)
    /\ remainingVulnerabilities r = Z.of_nat (total after).
Proof.
  intros Hbefore Hfix Hafter.
  eexists. split.
  - unfold runAuditFix, tryCatch at 1, bind. rewrite Hbefore.
    unfold tryCatch, bind, ret.
    destruct Hfix as [Hfix | [execErr [Hfix [Hout Hne]]]]; rewrite Hfix.
    + rewrite Hafter. reflexivity.
    + rewrite Hout. destruct stdout as [|c out]; [contradiction |].
      rewrite Hafter. reflexivity.
  - cbn [success fixedVulnerabilities remainingVulnerabilities].
    repeat split; lia.
Qed.

(** C3. When the fix command fails without any captured output,
    [runAuditFix] reports a failure with the total of the audit run
    before it as the remaining count, and an error message; the message
    suggests a retry with [--force] exactly when the captured standard
    error contains ERESOLVE. *)
Theorem runAuditFix_failure force w before w1 execErr w2 :
  runAudit w = (inr before, w1) ->
  execSync (fixCommand force) w1 = (inl execErr, w2) ->
  truthy (thrown_stdout execErr) = false ->
  exists r message,
    runAuditFix force w = (inr r, w2)
    /\ success r = false
    /\ remainingVulnerabilities r = Z.of_nat (total before)
    /\ fixedVulnerabilities r = 0
    /\ error r = Some message
    /\ (contains message (lit "--force")
        <-> contains (default [] (thrown_stderr execErr)) (lit "ERESOLVE")).
Proof.
  intros Hbefore Hfix Hout.
  exists (fixFailed before execErr). eexists. split.
  - unfold runAuditFix, tryCatch at 1, bind. rewrite Hbefore.
    unfold tryCatch, bind, ret. rewrite Hfix.
    destruct (thrown_stdout execErr) as [[|c out]|]; try discriminate;
      reflexivity.
  - cbn [fixFailed success remainingVulnerabilities fixedVulnerabilities error].
    repeat split; try reflexivity.
    + destruct (includes _ (lit "ERESOLVE")) eqn:E.
      * intros _. now apply includes_contains.
      * intros H. apply includes_contains in H. vm_compute in H. discriminate.
    + intros H. apply includes_contains in H. rewrite H.
      apply includes_contains. reflexivity.
Qed.

End WithWorld.

(** *** The runs of the unit tests

    The world of the tests is the number of audits run so far. Report
    texts are abbreviated; [readReport] stands for [JSON.parse] on
    them. *)

Definition finding (sev titleText : string) (fixable : bool) : RawFinding :=
  {| raw_severity := lit sev;
     raw_via := [ViaAdvisory (Some (Some (lit titleText))) None];
     raw_range := lit "*";
     raw_fixAvailable := FixFlag fixable |}.

Definition reportOne : jsstring := lit "{vulnerabilities:{pkg}}".
Definition reportNone : jsstring := lit "{vulnerabilities:{}}".
Definition reportThree : jsstring :=
  lit "{vulnerabilities:{low_pkg,critical_pkg,high_pkg}}".
Definition reportDrift : jsstring :=
  lit "{vulnerabilities:{left-pad,mystery,core}}".

Definition threeFindings : list (jsstring * RawFinding) :=
  [(lit "low_pkg", finding "low" "Low issue" false);
   (lit "critical_pkg", finding "critical" "Critical issue" true);
   (lit "high_pkg", finding "high" "High issue" false)].

(** A report of a later version of the tool, with a severity the
    source does not know. *)
Definition driftFindings : list (jsstring * RawFinding) :=
  [(lit "left-pad", finding "low" "Low issue" false);
   (lit "mystery", finding "unrated" "Unrated issue" false);
   (lit "core", finding "critical" "Critical issue" true)].

Definition readReport (stdout : jsstring)
  : option (option (list (jsstring * RawFinding))) :=
  if bool_decide (stdout = reportOne)
  then Some (Some [(lit "pkg", finding "low" "Issue" true)])
  else if bool_decide (stdout = reportNone) then Some (Some [])
  else if bool_decide (stdout = reportThree) then Some (Some threeFindings)
  else if bool_decide (stdout = reportDrift) then Some (Some driftFindings)
  else None.

(** The mock of "should run npm audit fix and return results", with
    the outcome of the fix command and the two reports as parameters. *)
Definition mockExecSync (fixOutcome : Thrown + jsstring)
    (first later : jsstring) (cmd : jsstring) : M nat jsstring :=
  fun callCount =>
    if includes cmd (lit "npm audit fix") then (fixOutcome, callCount)
    else (inr (if Nat.eqb callCount 0 then first else later), S callCount).

Definition fixOutput : jsstring := lit "added 1, removed 0, changed 2 packages".

Definition eresolveFixError : Thrown :=
  {| thrown_stdout := None;
     thrown_stderr := Some (lit "npm ERR! ERESOLVE could not resolve");
     thrown_message := Some (lit "failed") |}.

Example runAuditFix_test :
  runAuditFix (mockExecSync (inr fixOutput) reportOne reportNone) readReport false 0%nat
  = (inr {| success := true; added := 1; removed := 0; changed := 2;
            fixedVulnerabilities := 1; remainingVulnerabilities := 0;
            error := None |}, 2%nat).
Proof. vm_compute. reflexivity. Qed.

Example parseCount_test :
  parseCount (lit "added") (lit "added 2, removed 1, changed 5") = 2
  /\ parseCount (lit "removed") (lit "added 2, removed 1, changed 5") = 1
  /\ parseCount (lit "changed") (lit "added 2, removed 1, changed 5") = 5
  /\ parseCount (lit "changed") (lit "up to date") = 0.
Proof. repeat split; vm_compute; reflexivity. Qed.

(** A fix that leaves more findings than it found reports none fixed. *)
Example runAuditFix_more_after :
  runAuditFix (mockExecSync (inr fixOutput) reportOne reportThree) readReport true 0%nat
  = (inr {| success := true; added := 1; removed := 0; changed := 2;
            fixedVulnerabilities := 0; remainingVulnerabilities := 3;
            error := None |}, 2%nat).
Proof. vm_compute. reflexivity. Qed.

Lemma runAudit_invariant_witness :
  total (normalize threeFindings)
  = length (vulnerabilities (normalize threeFindings))
  /\ (forall sev, isSeverityLevel sev = true ->
        countOf sev (summary (normalize threeFindings))
        = length (List.filter (hasSeverity sev)
                    (vulnerabilities (normalize threeFindings))))
  /\ summaryTotal (summary (normalize threeFindings))
     = length (List.filter recognized (vulnerabilities (normalize threeFindings)))
  /\ (summaryTotal (summary (normalize threeFindings))
      <= total (normalize threeFindings))%nat
  /\ (summaryTotal (summary (normalize threeFindings))
      + length (List.filter (fun v => negb (recognized v))
                  (vulnerabilities (normalize threeFindings)))
      = total (normalize threeFindings))%nat
  /\ (normalize threeFindings = emptyResult
      \/ exists stdout entries,
           readReport stdout = Some (Some entries)
           /\ Permutation (vulnerabilities (normalize threeFindings))
                (List.map toVulnerability entries))
  /\ (forall stdout entries,
        (mockExecSync (inr fixOutput) reportThree reportNone
           (lit "npm audit --json") 0%nat = (inr stdout, 1%nat)
         \/ exists execErr,
              mockExecSync (inr fixOutput) reportThree reportNone
                (lit "npm audit --json") 0%nat = (inl execErr, 1%nat)
              /\ thrown_stdout execErr = Some stdout /\ stdout <> []) ->
        readReport stdout = Some (Some entries) ->
        Permutation (vulnerabilities (normalize threeFindings))
          (List.map toVulnerability entries)
        /\ Permutation
             (List.map (fun v => (name v, severity v, range v, fixAvailable v))
                (vulnerabilities (normalize threeFindings)))
             (List.map (fun e => (fst e, raw_severity (snd e), raw_range (snd e),
                                  raw_fixAvailable (snd e))) entries)
        /\ total (normalize threeFindings) = length entries
        /\ (forall sev, isSeverityLevel sev = true ->
              countOf sev (summary (normalize threeFindings))
              = length (List.filter
                          (fun e => bool_decide (raw_severity (snd e) = sev))
                          entries))
        /\ (summaryTotal (summary (normalize threeFindings))
            + length (List.filter
                        (fun e => negb (isSeverityLevel (raw_severity (snd e))))
                        entries)
            = total (normalize threeFindings))%nat).
Proof.
  apply (runAudit_invariant (mockExecSync (inr fixOutput) reportThree reportNone)
           readReport 0%nat (normalize threeFindings) 1%nat).
  reflexivity.
Defined.

(** The run of the witness does capture the report of three findings,
    so the list holds all three. *)
Example runAudit_three_kept :
  mockExecSync (inr fixOutput) reportThree reportNone
    (lit "npm audit --json") 0%nat = (inr reportThree, 1%nat)
  /\ readReport reportThree = Some (Some threeFindings)
  /\ List.map name (vulnerabilities (normalize threeFindings))
     = [lit "critical_pkg"; lit "high_pkg"; lit "low_pkg"].
Proof. repeat split; vm_compute; reflexivity. Qed.

(** A finding of unrecognized severity is kept in the list and left
    out of the summary. *)
Example runAudit_drift :
  total (normalize driftFindings) = 3%nat
  /\ summary (normalize driftFindings)
     = {| critical := 1; high := 0; moderate := 0; low := 1; info := 0 |}
  /\ List.map name (vulnerabilities (normalize driftFindings))
     = [lit "left-pad"; lit "mystery"; lit "core"].
Proof. repeat split; vm_compute; reflexivity. Qed.


Lemma runAuditFix_counts_witness :
  exists r,
    runAuditFix (mockExecSync (inr fixOutput) reportOne reportThree) readReport true 0%nat
    = (inr r, 2%nat)
    /\ success r = true
    /\ fixedVulnerabilities r = Z.max 0 (1 - 3)
    /\ 0 <= fixedVulnerabilities r
    /\ ((1 < 3)%nat -> fixedVulnerabilities r = 0)
    /\ remainingVulnerabilities r = 3.
Proof.
  apply (runAuditFix_counts (mockExecSync (inr fixOutput) reportOne reportThree)
           readReport true 0%nat
           (normalize [(lit "pkg", finding "low" "Issue" true)]) 1%nat
           fixOutput 1%nat (normalize threeFindings) 2%nat).
  - reflexivity.
  - left. reflexivity.
  - reflexivity.
Defined.

Lemma runAuditFix_failure_witness :
  exists r message,
    runAuditFix (mockExecSync (inl eresolveFixError) reportOne reportNone)
      readReport false 0%nat = (inr r, 1%nat)
    /\ success r = false
    /\ remainingVulnerabilities r = 1
    /\ fixedVulnerabilities r = 0
    /\ error r = Some message
    /\ (contains message (lit "--force")
        <-> contains (lit "npm ERR! ERESOLVE could not resolve") (lit "ERESOLVE")).
Proof.
  apply (runAuditFix_failure (mockExecSync (inl eresolveFixError) reportOne reportNone)
           readReport false 0%nat
           (normalize [(lit "pkg", finding "low" "Issue" true)]) 1%nat
           eresolveFixError 1%nat); reflexivity.
Defined.


End Audit.

(** ** services/outdated.ts *)

Module Outdated.

(** ["dependencies" | "devDependencies"] *)
Inductive DependencyType := dependencies | devDependencies.

#[global] Instance DependencyType_eq_dec : EqDecision DependencyType.
Proof. solve_decision. Defined.

Record OutdatedPackage := {
  name : jsstring;
  current : jsstring;
  wanted : jsstring;
  latest : jsstring;
  location : jsstring;
  type : DependencyType
}.

Record OutdatedResult := {
  packages : list OutdatedPackage;
  total : nat
}.

(** An entry of [npm outdated --json]: the shape the source casts each
    value of the report to. *)
Record RawOutdated := {
  raw_current : option jsstring;
  raw_wanted : jsstring;
  raw_latest : jsstring;
  raw_location : option jsstring
}.

Definition emptyResult : OutdatedResult := {| packages := []; total := 0 |}.

(** [new Set(Object.keys(pkgJson.devDependencies ?? {}))] *)
Definition devDepsOf (pkgJson : Updater.PackageJson) : gset jsstring :=
  match Updater.devDependencies pkgJson with
  | Some m => dom m
  | None => ∅
  end.

Definition toPackage (devDeps : gset jsstring) (entry : jsstring * RawOutdated)
  : OutdatedPackage :=
  let '(name, pkg) := entry in
  {| name := name;
     current := default (lit "MISSING") (raw_current pkg);
     wanted := raw_wanted pkg;
     latest := raw_latest pkg;
     location := default [] (raw_location pkg);
     type := if bool_decide (name ∈ devDeps) then devDependencies else dependencies |}.

Section WithWorld.

Context {World : Type}.
(** [JSON.parse(readFileSync(pkgPath, "utf-8"))] *)
Variable readPackageJson : M World Updater.PackageJson.
(** [execSync(cmd, ...)] *)
Variable execSync : jsstring -> M World jsstring.
(** [JSON.parse(stdout)] read through [Object.entries]: [None] when
    parsing throws; no entries when the report is empty or falsy. *)
Variable parseReport : jsstring -> option (list (jsstring * RawOutdated)).
(** [a.localeCompare(b)]: negative, zero or positive, as the collation
    of the host's locale orders the two names. *)
Variable localeCompare : jsstring -> jsstring -> Z.

(** The comparator handed to [packages.sort]. *)
Definition byTypeThenName (a b : OutdatedPackage) : option Z :=
  if bool_decide (type a <> type b)
  then Some (if bool_decide (type a = dependencies) then -1 else 1)
  else Some (localeCompare (name a) (name b)).

(** The inner [try]: the standard output of the command, also when it
    exits with a non-zero status; [None] when nothing was captured. *)
Definition captureStdout (cmd : jsstring) : M World (option jsstring) :=
  tryCatch
    (let* stdout := execSync cmd in ret (Some stdout))
    (fun execErr =>
       ret (if truthy (thrown_stdout execErr)
            then thrown_stdout execErr
            else None)).

Definition syntaxError : Thrown :=
  {| thrown_stdout := None; thrown_stderr := None;
     thrown_message := Some (lit "Unexpected token") |}.

(** What [getOutdated] makes of a non-empty report. *)
Definition normalize (devDeps : gset jsstring)
    (entries : list (jsstring * RawOutdated)) : OutdatedResult :=
  let sorted := sort byTypeThenName (List.map (toPackage devDeps) entries) in
  {| packages := sorted; total := length sorted |}.

Definition getOutdated : M World OutdatedResult :=
  tryCatch
    (let* pkgJson := readPackageJson in
     let devDeps := devDepsOf pkgJson in
     let* captured := captureStdout (lit "npm outdated --json") in
     match captured with
     | None => ret emptyResult
     | Some stdout =>
         match parseReport stdout with
         | None => throw syntaxError
         | Some [] => ret emptyResult
         | Some entries => ret (normalize devDeps entries)
         end
     end)
    (fun _ => ret emptyResult).

(** *** The order of the result *)

(** [localeCompare] is a consistent comparator (ECMA-262,
    String.prototype.localeCompare). *)
Hypothesis localeCompare_total :
  forall a b, localeCompare a b <= 0 \/ localeCompare b a <= 0.
Hypothesis localeCompare_trans :
  forall a b c, localeCompare a b <= 0 -> localeCompare b c <= 0 ->
    localeCompare a c <= 0.

Lemma byTypeThenName_le a b :
  cmpLe byTypeThenName a b <->
  (type a = dependencies /\ type b = devDependencies)
  \/ (type a = type b /\ localeCompare (name a) (name b) <= 0).
Proof.
  unfold cmpLe, sortCompare, byTypeThenName.
  destruct (type a), (type b); repeat case_bool_decide; cbn;
    try congruence; intuition (try congruence; try lia).
Qed.

Lemma byTypeThenName_total a b :
  cmpLe byTypeThenName a b \/ cmpLe byTypeThenName b a.
Proof.
  rewrite !byTypeThenName_le.
  destruct (localeCompare_total (name a) (name b));
    destruct (type a), (type b); auto.
Qed.

Lemma byTypeThenName_trans a b c :
  cmpLe byTypeThenName a b -> cmpLe byTypeThenName b c ->
  cmpLe byTypeThenName a c.
Proof.
  rewrite !byTypeThenName_le.
  intros [[Ha Hb] | [Hab Hl1]] [[Hb' Hc] | [Hbc Hl2]]; try congruence.
  - left. split; congruence.
  - left. split; congruence.
  - right. split; [congruence |]. eauto.
Qed.

Lemma normalize_ordered devDeps entries :
  StronglySorted (cmpLe byTypeThenName) (packages (normalize devDeps entries)).
Proof.
  unfold normalize. cbn [packages].
  apply (sort_sorted byTypeThenName (fun _ => True)).
  - intros x y _ _. apply byTypeThenName_total.
  - intros x y z _ _ _. apply byTypeThenName_trans.
  - apply List.Forall_forall. auto.
Qed.

Lemma normalize_type devDeps entries p :
  In p (packages (normalize devDeps entries)) ->
  (type p = devDependencies <-> name p ∈ devDeps)
  /\ exists raw, In (name p, raw) entries.
Proof.
  unfold normalize. cbn [packages]. intros Hp.
  apply (Permutation_in _ (sort_Permutation _ _)) in Hp.
  apply List.in_map_iff in Hp as [[n raw] [<- Hin]].
  cbn. split; [| now exists raw].
  case_bool_decide; split; intros; try discriminate; tauto.
Qed.

(** Every run returns; the result is empty or the sorted report, with
    the kinds read from the manifest the run started with. *)
Lemma getOutdated_cases w :
  exists r w',
    getOutdated w = (inr r, w')
    /\ (r = emptyResult
        \/ exists pkgJson w1 entries,
             readPackageJson w = (inr pkgJson, w1)
             /\ r = normalize (devDepsOf pkgJson) entries).
Proof.
  unfold getOutdated, tryCatch at 1, bind.
  destruct (readPackageJson w) as [[e | pkgJson] w1] eqn:Hread.
  { unfold ret. eauto. }
  unfold captureStdout, tryCatch, bind, ret.
  destruct (execSync (lit "npm outdated --json") w1) as [[e | stdout] w2].
  - destruct (truthy (thrown_stdout e)); [| eauto].
    destruct (thrown_stdout e) as [stdout|]; [| eauto].
    destruct (parseReport stdout) as [[|entry entries]|]; unfold throw; eauto 10.
  - destruct (parseReport stdout) as [[|entry entries]|]; unfold throw; eauto 10.
Qed.

(** The set the kinds are read from holds exactly the keys of the
    [devDependencies] of the manifest. *)
Lemma devDepsOf_keys pkgJson key :
  key ∈ devDepsOf pkgJson
  <-> exists m, Updater.devDependencies pkgJson = Some m /\ is_Some (m !! key).
Proof.
  unfold devDepsOf. destruct (Updater.devDependencies pkgJson) as [m|].
  - rewrite elem_of_dom. split.
    + intros H. exists m. auto.
    + intros [m' [[= <-] H]]. exact H.
  - split; [intros H; now apply elem_of_empty in H |].
    intros [m [H _]]. discriminate.
Qed.

(** C7. In every result of [getOutdated], the entries of type
    [dependencies] stand before the entries of type [devDependencies],
    the entries of one type are in the order of [localeCompare] on their
    names, and an entry has type [devDependencies] exactly when its name
    is a key of the [devDependencies] of the manifest the run read, and
    type [dependencies] otherwise, whatever the report says of it. *)
Theorem getOutdated_order w r w' :
  getOutdated w = (inr r, w') ->
  (forall i j a b,
     (i < j)%nat -> packages r !! i = Some a -> packages r !! j = Some b ->
     (type a = devDependencies -> type b = devDependencies)
     /\ (type a = type b -> localeCompare (name a) (name b) <= 0))
  /\ total r = length (packages r)
  /\ (r = emptyResult
      \/ exists pkgJson w1,
           readPackageJson w = (inr pkgJson, w1)
           /\ (forall p, In p (packages r) ->
                 (type p = devDependencies <-> name p ∈ devDepsOf pkgJson))
           /\ (forall p, In p (packages r) ->
                 (type p = devDependencies
                  <-> exists m, Updater.devDependencies pkgJson = Some m
                                /\ is_Some (m !! name p))
                 /\ (type p = dependencies
                     <-> ~ exists m, Updater.devDependencies pkgJson = Some m
                                     /\ is_Some (m !! name p)))).
Proof.
  intros Hrun.
  destruct (getOutdated_cases w) as [r0 [w0 [Hrun0 Hcases]]].
  rewrite Hrun in Hrun0. injection Hrun0 as <- <-.
  assert (StronglySorted (cmpLe byTypeThenName) (packages r)) as Hsorted.
  { destruct Hcases as [-> | [pkgJson [w1 [entries [_ ->]]]]];
      [constructor | apply normalize_ordered]. }
  split; [| split].
  - intros i j a b Hij Hi Hj.
    pose proof (StronglySorted_lookup _ _ i j a b Hsorted Hij Hi Hj) as Hle.
    apply byTypeThenName_le in Hle.
    destruct Hle as [[Ha Hb] | [Hab Hl]]; split; intros; congruence || auto.
  - destruct Hcases as [-> | [pkgJson [w1 [entries [_ ->]]]]]; reflexivity.
  - destruct Hcases as [-> | [pkgJson [w1 [entries [Hread ->]]]]]; [now left |].
    right. exists pkgJson, w1. split; [exact Hread |].
    assert (forall p, In p (packages (normalize (devDepsOf pkgJson) entries)) ->
              (type p = devDependencies <-> name p ∈ devDepsOf pkgJson)) as Hkind.
    { intros p Hp. now apply (normalize_type _ entries). }
    split; [exact Hkind |].
    intros p Hp. specialize (Hkind p Hp). rewrite <- devDepsOf_keys. split.
    + exact Hkind.
    + rewrite <- Hkind. destruct (type p); split; congruence.
Qed.

End WithWorld.

(** *** The runs of the unit tests *)

(** A collation that orders names by their code units; on the
    lower-case names of the tests it is the order of every locale. *)
Fixpoint codeUnitCompare (a b : jsstring) : Z :=
  match a, b with
  | [], [] => 0
  | [], _ :: _ => -1
  | _ :: _, [] => 1
  | c :: a', d :: b' =>
      if (c <? d)%N then -1
      else if (d <? c)%N then 1
      else codeUnitCompare a' b'
  end.

Lemma codeUnitCompare_total a b :
  codeUnitCompare a b <= 0 \/ codeUnitCompare b a <= 0.
Proof.
  revert b. induction a as [|c a IH]; intros [|d b]; simpl; try lia.
  destruct (N.ltb_spec c d), (N.ltb_spec d c); try lia. apply IH.
Qed.

Lemma codeUnitCompare_trans a b c :
  codeUnitCompare a b <= 0 -> codeUnitCompare b c <= 0 ->
  codeUnitCompare a c <= 0.
Proof.
  revert b c. induction a as [|x a IH]; intros [|y b] [|z c]; simpl; try lia.
  destruct (N.ltb_spec x y), (N.ltb_spec y x), (N.ltb_spec y z),
    (N.ltb_spec z y), (N.ltb_spec x z), (N.ltb_spec z x); try lia.
  apply IH.
Qed.

(** [{ dependencies: { express, lodash }, devDependencies: { typescript, vitest } }] *)
Definition basePkgJson : Updater.PackageJson :=
  {| Updater.dependencies :=
       Some {[ lit "express" := lit "^4.18.0"; lit "lodash" := lit "^4.17.0" ]};
     Updater.devDependencies :=
       Some {[ lit "typescript" := lit "^5.0.0"; lit "vitest" := lit "^1.0.0" ]} |}.

Definition outdatedEntry (name current wanted latest : string)
  : jsstring * RawOutdated :=
  (lit name,
   {| raw_current := Some (lit current); raw_wanted := lit wanted;
      raw_latest := lit latest; raw_location := None |}).

Definition outdatedEntries : list (jsstring * RawOutdated) :=
  [outdatedEntry "vitest" "1.0.0" "1.1.0" "2.0.0";
   outdatedEntry "lodash" "4.17.0" "4.17.21" "4.17.21";
   outdatedEntry "typescript" "5.0.0" "5.3.0" "5.7.0";
   outdatedEntry "express" "4.18.0" "4.19.0" "5.0.0"].

Definition outdatedReport : jsstring := lit "{vitest,lodash,typescript,express}".

Definition readOutdated (stdout : jsstring)
  : option (list (jsstring * RawOutdated)) :=
  if bool_decide (stdout = outdatedReport) then Some outdatedEntries
  else if bool_decide (stdout = lit "{}") then Some []
  else None.

(** [npm outdated] exits with status 1 when it has something to report. *)
Definition outdatedExit1 : Thrown :=
  {| thrown_stdout := Some outdatedReport; thrown_stderr := Some [];
     thrown_message := Some (lit "npm outdated") |}.

Definition testRun : (Thrown + OutdatedResult) * unit :=
  getOutdated (ret basePkgJson) (fun _ => throw outdatedExit1) readOutdated
    codeUnitCompare tt.

Definition testResult : OutdatedResult :=
  normalize codeUnitCompare (devDepsOf basePkgJson) outdatedEntries.

Example getOutdated_test :
  testRun = (inr testResult, tt)
  /\ List.map (fun p => (name p, type p)) (packages testResult)
     = [(lit "express", dependencies); (lit "lodash", dependencies);
        (lit "typescript", devDependencies); (lit "vitest", devDependencies)].
Proof. split; vm_compute; reflexivity. Qed.

Lemma getOutdated_order_witness :
  (forall i j a b,
     (i < j)%nat -> packages testResult !! i = Some a ->
     packages testResult !! j = Some b ->
     (type a = devDependencies -> type b = devDependencies)
     /\ (type a = type b -> codeUnitCompare (name a) (name b) <= 0))
  /\ total testResult = length (packages testResult)
  /\ (testResult = emptyResult
      \/ exists pkgJson w1,
           ret (W := unit) basePkgJson tt = (inr pkgJson, w1)
           /\ (forall p, In p (packages testResult) ->
                 (type p = devDependencies <-> name p ∈ devDepsOf pkgJson))
           /\ (forall p, In p (packages testResult) ->
                 (type p = devDependencies
                  <-> exists m, Updater.devDependencies pkgJson = Some m
                                /\ is_Some (m !! name p))
                 /\ (type p = dependencies
                     <-> ~ exists m, Updater.devDependencies pkgJson = Some m
                                     /\ is_Some (m !! name p)))).
Proof.
  apply (getOutdated_order (ret basePkgJson) (fun _ => throw outdatedExit1)
           readOutdated codeUnitCompare
           codeUnitCompare_total codeUnitCompare_trans tt testResult tt).
  vm_compute. reflexivity.
Defined.

End Outdated.

(** ** services/registry.ts *)

Module Registry.

Record RegistryMetadata := {
  name : jsstring;
  deprecated : option jsstring;
  lastPublishDate : jsstring;
  lastPublishAge : jsstring;
  isStale : bool
}.

(** The value of an entry of [versions]. *)
Record VersionInfo := {
  version_deprecated : option jsstring
}.

(** The registry document, as the source casts [response.json()]. *)
Record PackageDocument := {
  doc_latest : option jsstring;
  doc_time : option (gmap jsstring jsstring);
  doc_versions : option (gmap jsstring VersionInfo)
}.

(** The response of [fetch]; [body] is [None] when [response.json()]
    rejects. *)
Record Response := {
  ok : bool;
  body : option PackageDocument
}.

Definition DAY_MS : Z := 1000 * 60 * 60 * 24.

Definition STALE_THRESHOLD_MS : Z := 2 * 365 * 24 * 60 * 60 * 1000.

(** The body of [formatAge] after [diffMs] is known. *)
Definition ageOf (diffMs : number) : jsstring :=
  let days := numFloorDiv diffMs DAY_MS in
  if numLt days 30 then numToString days ++ lit " days ago"
  else
    let months := numFloorDiv days 30 in
    if numLt months 12
    then numToString months ++ lit " month"
           ++ (if numGt months 1 then lit "s" else []) ++ lit " ago"
    else
      let years := numFloorDiv months 12 in
      let remainingMonths := numRem months 12 in
      if numEq remainingMonths 0
      then numToString years ++ lit " year"
             ++ (if numGt years 1 then lit "s" else []) ++ lit " ago"
      else numToString years ++ lit "y " ++ numToString remainingMonths
             ++ lit "m ago".

Definition batchSize : nat := 10.

(** The age label as the specification words it, for an elapsed time
    of [d] milliseconds, a month being 30 days and a year 12 months. *)
Definition ageLabel (d : Z) : jsstring :=
  let months := d / (30 * DAY_MS) in
  let years := d / (360 * DAY_MS) in
  if d <? 30 * DAY_MS then
    numberToString (d / DAY_MS) ++ lit " days ago"
  else if d <? 360 * DAY_MS then
    numberToString months
      ++ (if months =? 1 then lit " month ago" else lit " months ago")
  else if months mod 12 =? 0 then
    numberToString years
      ++ (if years =? 1 then lit " year ago" else lit " years ago")
  else
    numberToString years ++ lit "y " ++ numberToString (months mod 12)
      ++ lit "m ago".

Lemma ageOf_ageLabel d : ageOf (Some d) = ageLabel d.
Proof.
  unfold ageOf, ageLabel, numFloorDiv, numLt, numGt, numEq, numRem, numToString.
  assert (d / DAY_MS / 30 = d / (30 * DAY_MS)) as Hm.
  { rewrite Z.div_div by (unfold DAY_MS; lia). f_equal; lia. }
  assert (d / DAY_MS / 30 / 12 = d / (360 * DAY_MS)) as Hy.
  { rewrite Hm, Z.div_div by (unfold DAY_MS; lia). f_equal; lia. }
  rewrite Hy, Hm.
  assert (d / DAY_MS < 30 <-> d < 30 * DAY_MS) as Hdays.
  { unfold DAY_MS. split; intros H.
    - destruct (Z.lt_ge_cases d (30 * (1000 * 60 * 60 * 24))) as [| Hge];
        [assumption |].
      assert (30 <= d / (1000 * 60 * 60 * 24))
        by (apply Z.div_le_lower_bound; lia).
      lia.
    - apply Z.div_lt_upper_bound; lia. }
  assert (d / (30 * DAY_MS) < 12 <-> d < 360 * DAY_MS) as Hmonths.
  { unfold DAY_MS. split; intros H.
    - destruct (Z.lt_ge_cases d (360 * (1000 * 60 * 60 * 24))) as [| Hge];
        [assumption |].
      assert (12 <= d / (30 * (1000 * 60 * 60 * 24)))
        by (apply Z.div_le_lower_bound; lia).
      lia.
    - apply Z.div_lt_upper_bound; lia. }
  destruct (Z.ltb_spec (d / DAY_MS) 30) as [H1 | H1],
           (Z.ltb_spec d (30 * DAY_MS)) as [H1' | H1']; try lia;
    [reflexivity |].
  assert (1 <= d / (30 * DAY_MS)) as Hone.
  { apply Z.div_le_lower_bound; unfold DAY_MS in *; lia. }
  destruct (Z.ltb_spec (d / (30 * DAY_MS)) 12) as [H2 | H2],
           (Z.ltb_spec d (360 * DAY_MS)) as [H2' | H2']; try lia.
  - f_equal.
    destruct (Z.ltb_spec 1 (d / (30 * DAY_MS))), (Z.eqb_spec (d / (30 * DAY_MS)) 1);
      try lia; reflexivity.
  - assert (1 <= d / (360 * DAY_MS)) as Hyear.
    { apply Z.div_le_lower_bound; unfold DAY_MS in *; lia. }
    rewrite Z.rem_mod_nonneg by lia.
    destruct (Z.eqb_spec (d / (30 * DAY_MS) mod 12) 0); [| reflexivity].
    f_equal.
    destruct (Z.ltb_spec 1 (d / (360 * DAY_MS))), (Z.eqb_spec (d / (360 * DAY_MS)) 1);
      try lia; reflexivity.
Qed.

Section WithWorld.

Context {World : Type}.
(** [Date.now()]: milliseconds since the epoch. *)
Variable dateNow : World -> Z * World.
(** [new Date(dateStr).getTime()]; [None] is the [NaN] of an invalid
    date. *)
Variable getTime : jsstring -> number.
(** [encodeURIComponent(s)]; [None] when it throws a [URIError]. *)
Variable encodeURIComponent : jsstring -> option jsstring.
(** [fetch(url)] *)
Variable fetch : jsstring -> M World Response.

Definition formatAge (dateStr : jsstring) : M World jsstring :=
  let* now := infallible dateNow in
  let then_ := getTime dateStr in
  let diffMs := numSub (Some now) then_ in
  ret (ageOf diffMs).

Definition uriError : Thrown :=
  {| thrown_stdout := None; thrown_stderr := None;
     thrown_message := Some (lit "URI malformed") |}.

Definition jsonError : Thrown :=
  {| thrown_stdout := None; thrown_stderr := None;
     thrown_message := Some (lit "Unexpected token") |}.

(** [timeMap[key]] for [timeMap = data.time ?? {}] *)
Definition timeOf (doc : PackageDocument) (key : jsstring) : option jsstring :=
  match doc_time doc with
  | Some timeMap => timeMap !! key
  | None => None
  end.

Definition lastPublishDateOf (doc : PackageDocument) : jsstring :=
  let modified := default [] (timeOf doc (lit "modified")) in
  match doc_latest doc with
  | Some (c :: v) =>
      match timeOf doc (c :: v) with
      | Some t => t
      | None => modified
      end
  | _ => modified
  end.

Definition deprecatedOf (doc : PackageDocument) : option jsstring :=
  match doc_latest doc, doc_versions doc with
  | Some (c :: v), Some versions =>
      match versions !! (c :: v) with
      | Some info =>
          if truthy (version_deprecated info) then version_deprecated info
          else None
      | None => None
      end
  | _, _ => None
  end.

Definition getPackageMetadata (packageName : jsstring)
  : M World (option RegistryMetadata) :=
  tryCatch
    (let* encoded := match encodeURIComponent packageName with
                     | Some e => ret e
                     | None => throw uriError
                     end in
     let* response := fetch (lit "https://registry.npmjs.org/" ++ encoded) in
     if negb (ok response) then ret None
     else
       let* data := match body response with
                    | Some d => ret d
                    | None => throw jsonError
                    end in
       let lastPublishDate := lastPublishDateOf data in
       let* isStale :=
         match lastPublishDate with
         | [] => ret false
         | _ :: _ =>
             let* now := infallible dateNow in
             ret (numGt (numSub (Some now) (getTime lastPublishDate))
                    STALE_THRESHOLD_MS)
         end in
       let deprecated := deprecatedOf data in
       let* lastPublishAge :=
         match lastPublishDate with
         | [] => ret (lit "unknown")
         | _ :: _ => formatAge lastPublishDate
         end in
       ret (Some {| name := packageName;
                    deprecated := deprecated;
                    lastPublishDate := lastPublishDate;
                    lastPublishAge := lastPublishAge;
                    isStale := isStale |}))
    (fun _ => ret None).

(** [packageNames.slice(i, i + batchSize)] *)
Definition slice {A} (l : list A) (i j : nat) : list A := take (j - i) (drop i l).

(** [results.filter((r) => r !== null)] *)
Definition nonNull {A} (l : list (option A)) : list A := omap id l.

(** The [for] loop of [getMultiplePackageMetadata], from index [i] on. *)
Equations? fetchFrom (packageNames : list jsstring) (i : nat)
    (results : list RegistryMetadata) : M World (list RegistryMetadata)
    by wf (length packageNames - i)%nat lt :=
  fetchFrom packageNames i results with lt_dec i (length packageNames) => {
    | left _ =>
        let batch := slice packageNames i (i + batchSize) in
        bind (forEach getPackageMetadata batch)
          (fun batchResults =>
             fetchFrom packageNames (i + batchSize)
               (results ++ nonNull batchResults));
    | right _ => ret results }.
Proof. unfold batchSize. lia. Qed.

Definition getMultiplePackageMetadata (packageNames : list jsstring)
  : M World (list RegistryMetadata) :=
  fetchFrom packageNames 0 [].

(** *** Age and staleness *)

(** C9. For every elapsed time [d = now - then], [formatAge] returns
    the label of the bucket of [d]: "N days ago" below 30 days,
    "N month(s) ago" from 30 days to below 360 days, and from 360 days
    on "Y year(s) ago" when no month remains and "Yy Mm ago" otherwise;
    "month" and "year" are singular exactly when the count is 1. *)
Theorem formatAge_buckets dateStr w now w' t :
  dateNow w = (now, w') ->
  getTime dateStr = Some t ->
  formatAge dateStr w = (inr (ageLabel (now - t)), w').
Proof.
  intros Hnow Ht. unfold formatAge, bind, infallible, ret.
  rewrite Hnow, Ht. cbn [numSub]. now rewrite ageOf_ageLabel.
Qed.

Lemma formatAge_returns dateStr w :
  exists label w', formatAge dateStr w = (inr label, w').
Proof.
  unfold formatAge, bind, infallible, ret.
  destruct (dateNow w) as [now w']. eauto.
Qed.

(** The staleness test of the source on a clock reading. *)
Lemma stale_iff now date :
  numGt (numSub (Some now) (getTime date)) STALE_THRESHOLD_MS = true
  <-> exists t, getTime date = Some t /\ now - t > 730 * DAY_MS.
Proof.
  unfold numGt, numSub, STALE_THRESHOLD_MS, DAY_MS.
  destruct (getTime date) as [t|].
  - rewrite Z.ltb_lt. split.
    + intros H. exists t. split; [reflexivity | lia].
    + intros [t' [[= <-] H]]. lia.
  - split; [discriminate | intros [t [H _]]; discriminate].
Qed.

(** C8. In every record [getPackageMetadata] produces, [isStale] is
    true exactly when [lastPublishDate] is not empty and the time from
    it to the clock reading of the check is more than 730 days of
    milliseconds; at exactly 730 days the record is not stale; an empty
    [lastPublishDate] gives the age label "unknown" and
    [isStale = false]. *)
Theorem getPackageMetadata_stale packageName w m w' :
  getPackageMetadata packageName w = (inr (Some m), w') ->
  (lastPublishDate m = [] ->
     isStale m = false /\ lastPublishAge m = lit "unknown")
  /\ (lastPublishDate m <> [] ->
       exists w1 now w2,
         dateNow w1 = (now, w2)
         /\ (isStale m = true
             <-> exists t, getTime (lastPublishDate m) = Some t
                   /\ now - t > 730 * DAY_MS)
         /\ (forall t, getTime (lastPublishDate m) = Some t ->
               now - t = 730 * DAY_MS -> isStale m = false)).
Proof.
  unfold getPackageMetadata, tryCatch, bind, ret, throw.
  destruct (encodeURIComponent packageName) as [encoded|]; [| discriminate].
  destruct (fetch _ w) as [[e | response] w1]; [discriminate |].
  destruct (ok response); cbn [negb]; [| discriminate].
  destruct (body response) as [data|]; [| discriminate].
  destruct (lastPublishDateOf data) as [|c date] eqn:Hdate.
  - intros [= <- <-]. cbn [lastPublishDate isStale lastPublishAge].
    split; [auto | congruence].
  - unfold infallible at 1.
    destruct (dateNow w1) as [now w2] eqn:Hnow.
    destruct (formatAge_returns (c :: date) w2) as [label [w3 Hage]].
    rewrite Hage. intros [= <- <-].
    cbn [lastPublishDate isStale lastPublishAge].
    split; [discriminate |]. intros _.
    exists w1, now, w2. split; [exact Hnow |].
    split; [apply stale_iff |].
    intros t Ht Heq.
    destruct (numGt _ _) eqn:Hs; [| reflexivity].
    apply stale_iff in Hs as [t' [Ht' Hgt]].
    rewrite Ht in Ht'. injection Ht' as <-. lia.
Qed.

(** [getPackageMetadata] never throws. *)
Lemma getPackageMetadata_returns packageName w :
  exists outcome w', getPackageMetadata packageName w = (inr outcome, w').
Proof.
  unfold getPackageMetadata, tryCatch.
  match goal with |- context [match ?c w with _ => _ end] =>
    destruct (c w) as [[e | outcome] w'] end; unfold ret; eauto.
Qed.

(** A record carries the name it was asked for. *)
Lemma getPackageMetadata_name packageName w m w' :
  getPackageMetadata packageName w = (inr (Some m), w') ->
  name m = packageName.
Proof.
  unfold getPackageMetadata, tryCatch, bind, ret, throw.
  destruct (encodeURIComponent packageName) as [encoded|]; [| discriminate].
  destruct (fetch _ w) as [[e | response] w1]; [discriminate |].
  destruct (ok response); cbn [negb]; [| discriminate].
  destruct (body response) as [data|]; [| discriminate].
  destruct (lastPublishDateOf data) as [|c date].
  - now intros [= <- <-].
  - unfold infallible at 1. destruct (dateNow w1) as [now w2].
    destruct (formatAge_returns (c :: date) w2) as [label [w3 Hage]].
    rewrite Hage. now intros [= <- <-].
Qed.

(** *** The batches *)

(** The loop over batches of ten returns what one pass over the names
    returns. *)
Lemma fetchFrom_spec packageNames i results w :
  fetchFrom packageNames i results w =
    bind (forEach getPackageMetadata (drop i packageNames))
      (fun outcomes => ret (results ++ nonNull outcomes)) w.
Proof.
  revert w. funelim (fetchFrom packageNames i results); intros w.
  - match goal with
    | IH : forall batchResults, World -> forall w, _ |- _ => rename IH into Hrec
    end.
    assert (drop i packageNames
            = slice packageNames i (i + batchSize)
                ++ drop (i + batchSize) packageNames) as Hsplit.
    { unfold slice. replace (i + batchSize - i)%nat with batchSize by lia.
      rewrite <- (take_drop batchSize (drop i packageNames)) at 1.
      now rewrite drop_drop. }
    unfold bind. rewrite Hsplit, forEach_app. unfold bind.
    destruct (forEach getPackageMetadata (slice packageNames i (i + batchSize)) w)
      as [[e | batchResults] w1]; [reflexivity |].
    rewrite (Hrec batchResults w w1). unfold bind, ret.
    destruct (forEach getPackageMetadata (drop (i + batchSize) packageNames) w1)
      as [[e | outcomes] w2]; [reflexivity |].
    unfold nonNull. now rewrite omap_app, app_assoc.
  - rewrite drop_ge by lia. cbn. unfold bind, ret. now rewrite app_nil_r.
Qed.

Lemma nonNull_sublist (l : list jsstring) (outcomes : list (option RegistryMetadata)) :
  length outcomes = length l ->
  (forall i m, outcomes !! i = Some (Some m) -> l !! i = Some (name m)) ->
  sublist (List.map name (nonNull outcomes)) l.
Proof.
  revert outcomes. induction l as [|x l IH]; intros [|o outcomes] Hlen Hname;
    try discriminate.
  - constructor.
  - assert (sublist (List.map name (nonNull outcomes)) l) as Hrest.
    { apply IH; [simpl in Hlen; lia |].
      intros i m Hi. apply (Hname (S i) m Hi). }
    destruct o as [m|]; cbn.
    + specialize (Hname 0%nat m eq_refl). injection Hname as <-.
      now constructor.
    + now constructor.
Qed.

(** [r !== null] *)
Definition isRecord (o : option RegistryMetadata) : bool :=
  match o with
  | Some _ => true
  | None => false
  end.

Lemma nonNull_records (outcomes : list (option RegistryMetadata)) :
  List.map Some (nonNull outcomes) = List.filter isRecord outcomes.
Proof.
  unfold nonNull. induction outcomes as [|[m|] outcomes IH]; cbn;
    [reflexivity | now rewrite IH | exact IH].
Qed.

Lemma nonNull_In (outcomes : list (option RegistryMetadata)) m :
  In m (nonNull outcomes) <-> exists i, outcomes !! i = Some (Some m).
Proof.
  unfold nonNull. rewrite <- list_elem_of_In, list_elem_of_omap. split.
  - intros [o [Ho Hm]]. cbn in Hm. subst o.
    apply list_elem_of_lookup_1 in Ho. exact Ho.
  - intros [i Hi]. exists (Some m). split; [| reflexivity].
    eapply list_elem_of_lookup_2. exact Hi.
Qed.

(** C10. [getMultiplePackageMetadata] always returns; its result holds
    the records of exactly the lookups that succeeded, one lookup per
    name in the order of the input: every record a lookup gave is in
    the result, the result holds nothing else, and it keeps the records
    in the order of the lookups, so the names of the result are a
    subsequence of the input and the result is never longer than the
    input. *)
Theorem getMultiplePackageMetadata_order packageNames w :
  exists outcomes results w',
    forEach getPackageMetadata packageNames w = (inr outcomes, w')
    /\ getMultiplePackageMetadata packageNames w = (inr results, w')
    /\ results = nonNull outcomes
    /\ length outcomes = length packageNames
    /\ (forall i m, outcomes !! i = Some (Some m) ->
          packageNames !! i = Some (name m))
    /\ sublist (List.map name results) packageNames
    /\ (length results <= length packageNames)%nat
    /\ (forall i o, outcomes !! i = Some o ->
          exists x wi wi',
            packageNames !! i = Some x
            /\ getPackageMetadata x wi = (inr o, wi'))
    /\ (forall i m, outcomes !! i = Some (Some m) -> In m results)
    /\ (forall m, In m results -> exists i, outcomes !! i = Some (Some m))
    /\ List.map Some results = List.filter isRecord outcomes.
Proof.
  destruct (forEach_returns getPackageMetadata packageNames w
              getPackageMetadata_returns) as [outcomes [w' [Hrun Hlen]]].
  exists outcomes, (nonNull outcomes), w'.
  assert (forall i m, outcomes !! i = Some (Some m) ->
            packageNames !! i = Some (name m)) as Hname.
  { intros i m Hi.
    destruct (forEach_lookup _ _ _ _ _ _ _ Hrun Hi) as [x [wi [wi' [Hx Hf]]]].
    now rewrite (getPackageMetadata_name _ _ _ _ Hf). }
  pose proof (nonNull_sublist packageNames outcomes Hlen Hname) as Hsub.
  split; [exact Hrun |]. split.
  { unfold getMultiplePackageMetadata. rewrite fetchFrom_spec, drop_0.
    unfold bind, ret. now rewrite Hrun. }
  split; [reflexivity |]. split; [exact Hlen |]. split; [exact Hname |].
  split; [exact Hsub |]. split.
  { apply sublist_length in Hsub. now rewrite length_map in Hsub. }
  split.
  { intros i o Hi. exact (forEach_lookup _ _ _ _ _ _ _ Hrun Hi). }
  split; [intros i m Hi; apply nonNull_In; eauto |].
  split; [intros m Hm; now apply nonNull_In |].
  apply nonNull_records.
Qed.

End WithWorld.

(** *** The runs of the unit tests

    The clock of the tests stands at 2026-02-15T00:00:00Z. *)

Definition testNow : Z := 1771113600000.

Definition testClock : unit -> Z * unit := fun w => (testNow, w).

(** [new Date(s).getTime()] on the dates of the tests. *)
Definition testGetTime (s : jsstring) : number :=
  if bool_decide (s = lit "2026-02-15T00:00:00Z") then Some 1771113600000
  else if bool_decide (s = lit "2026-02-10T00:00:00Z") then Some 1770681600000
  else if bool_decide (s = lit "2025-11-15T00:00:00Z") then Some 1763164800000
  else if bool_decide (s = lit "2026-01-10T00:00:00Z") then Some 1768003200000
  else if bool_decide (s = lit "2024-02-15T00:00:00Z") then Some 1707955200000
  else if bool_decide (s = lit "2023-08-15T00:00:00Z") then Some 1692057600000
  else if bool_decide (s = lit "2025-02-15T00:00:00Z") then Some 1739577600000
  else if bool_decide (s = lit "2026-01-01T00:00:00Z") then Some 1767225600000
  else if bool_decide (s = lit "2023-01-01T00:00:00Z") then Some 1672531200000
  else if bool_decide (s = lit "2024-02-16T00:00:00Z") then Some 1708041600000
  else None.

Definition testFormatAge (dateStr : string) : (Thrown + jsstring) * unit :=
  formatAge testClock testGetTime (lit dateStr) tt.

Example formatAge_tests :
  testFormatAge "2026-02-10T00:00:00Z" = (inr (lit "5 days ago"), tt)
  /\ testFormatAge "2026-02-15T00:00:00Z" = (inr (lit "0 days ago"), tt)
  /\ testFormatAge "2025-11-15T00:00:00Z" = (inr (lit "3 months ago"), tt)
  /\ testFormatAge "2026-01-10T00:00:00Z" = (inr (lit "1 month ago"), tt)
  /\ testFormatAge "2024-02-15T00:00:00Z" = (inr (lit "2 years ago"), tt)
  /\ testFormatAge "2023-08-15T00:00:00Z" = (inr (lit "2y 6m ago"), tt)
  /\ testFormatAge "2025-02-15T00:00:00Z" = (inr (lit "1 year ago"), tt).
Proof. repeat split; vm_compute; reflexivity. Qed.

(** An invalid date has no bucket. *)
Example formatAge_invalid_date :
  testFormatAge "yesterday" = (inr (lit "NaNy NaNm ago"), tt).
Proof. vm_compute. reflexivity. Qed.

Lemma formatAge_buckets_witness :
  formatAge testClock testGetTime (lit "2023-08-15T00:00:00Z") tt
  = (inr (ageLabel (testNow - 1692057600000)), tt).
Proof.
  apply (formatAge_buckets testClock testGetTime (lit "2023-08-15T00:00:00Z")
           tt testNow tt 1692057600000); reflexivity.
Defined.

(** A registry that answers every request with the same document. *)
Definition mockFetch (doc : PackageDocument) : jsstring -> M unit Response :=
  fun _ => ret {| ok := true; body := Some doc |}.

Definition publishedOn (date : string) : PackageDocument :=
  {| doc_latest := Some (lit "1.0.0");
     doc_time := Some {[ lit "1.0.0" := lit date ]};
     doc_versions := Some {[ lit "1.0.0" := {| version_deprecated := None |} ]} |}.

Definition testMetadata (date : string) (packageName : string)
  : (Thrown + option RegistryMetadata) * unit :=
  getPackageMetadata testClock testGetTime Some (mockFetch (publishedOn date))
    (lit packageName) tt.

Definition stalePkg : RegistryMetadata :=
  {| name := lit "stale-pkg";
     deprecated := None;
     lastPublishDate := lit "2023-01-01T00:00:00Z";
     lastPublishAge := lit "3y 2m ago";
     isStale := true |}.

Example getPackageMetadata_tests :
  testMetadata "2023-01-01T00:00:00Z" "stale-pkg" = (inr (Some stalePkg), tt)
  /\ testMetadata "2026-01-01T00:00:00Z" "test-pkg"
     = (inr (Some {| name := lit "test-pkg";
                     deprecated := None;
                     lastPublishDate := lit "2026-01-01T00:00:00Z";
                     lastPublishAge := lit "1 month ago";
                     isStale := false |}), tt).
Proof. split; vm_compute; reflexivity. Qed.

(** Published exactly 730 days before the clock reading: not stale. *)
Example getPackageMetadata_boundary :
  testNow - 1708041600000 = 730 * DAY_MS
  /\ testMetadata "2024-02-16T00:00:00Z" "edge-pkg"
     = (inr (Some {| name := lit "edge-pkg";
                     deprecated := None;
                     lastPublishDate := lit "2024-02-16T00:00:00Z";
                     lastPublishAge := lit "2 years ago";
                     isStale := false |}), tt).
Proof. split; vm_compute; reflexivity. Qed.

Lemma getPackageMetadata_stale_witness :
  (lastPublishDate stalePkg = [] ->
     isStale stalePkg = false /\ lastPublishAge stalePkg = lit "unknown")
  /\ (lastPublishDate stalePkg <> [] ->
       exists w1 now w2,
         testClock w1 = (now, w2)
         /\ (isStale stalePkg = true
             <-> exists t, testGetTime (lastPublishDate stalePkg) = Some t
                   /\ now - t > 730 * DAY_MS)
         /\ (forall t, testGetTime (lastPublishDate stalePkg) = Some t ->
               now - t = 730 * DAY_MS -> isStale stalePkg = false)).
Proof.
  apply (getPackageMetadata_stale testClock testGetTime Some
           (mockFetch (publishedOn "2023-01-01T00:00:00Z"))
           (lit "stale-pkg") tt stalePkg tt).
  vm_compute. reflexivity.
Defined.

(** The registry of "should filter out null results": every package
    but one is known. *)
Definition registryWithout (missing : string) : jsstring -> M unit Response :=
  fun url => if includes url (lit missing)
             then ret {| ok := false; body := None |}
             else mockFetch (publishedOn "2026-01-01T00:00:00Z") url.

Definition recentPkg (packageName : string) : RegistryMetadata :=
  {| name := lit packageName; deprecated := None;
     lastPublishDate := lit "2026-01-01T00:00:00Z";
     lastPublishAge := lit "1 month ago"; isStale := false |}.

Lemma getMultiplePackageMetadata_order_witness :
  exists outcomes results w',
    forEach (getPackageMetadata testClock testGetTime Some (registryWithout "pkg-b"))
      [lit "pkg-a"; lit "pkg-b"; lit "pkg-c"] tt = (inr outcomes, w')
    /\ getMultiplePackageMetadata testClock testGetTime Some
         (registryWithout "pkg-b") [lit "pkg-a"; lit "pkg-b"; lit "pkg-c"] tt
       = (inr results, w')
    /\ results = nonNull outcomes
    /\ length outcomes = length [lit "pkg-a"; lit "pkg-b"; lit "pkg-c"]
    /\ (forall i m, outcomes !! i = Some (Some m) ->
          [lit "pkg-a"; lit "pkg-b"; lit "pkg-c"] !! i = Some (name m))
    /\ sublist (List.map name results) [lit "pkg-a"; lit "pkg-b"; lit "pkg-c"]
    /\ (length results <= length [lit "pkg-a"; lit "pkg-b"; lit "pkg-c"])%nat
    /\ (forall i o, outcomes !! i = Some o ->
          exists x wi wi',
            [lit "pkg-a"; lit "pkg-b"; lit "pkg-c"] !! i = Some x
            /\ getPackageMetadata testClock testGetTime Some
                 (registryWithout "pkg-b") x wi = (inr o, wi'))
    /\ (forall i m, outcomes !! i = Some (Some m) -> In m results)
    /\ (forall m, In m results -> exists i, outcomes !! i = Some (Some m))
    /\ List.map Some results = List.filter isRecord outcomes.
Proof.
  exact (getMultiplePackageMetadata_order testClock testGetTime Some
           (registryWithout "pkg-b") [lit "pkg-a"; lit "pkg-b"; lit "pkg-c"] tt).
Defined.

(** The lookups of that run and what is kept of them. *)
Example getMultiplePackageMetadata_kept :
  forEach (getPackageMetadata testClock testGetTime Some (registryWithout "pkg-b"))
    [lit "pkg-a"; lit "pkg-b"; lit "pkg-c"] tt
  = (inr [Some (recentPkg "pkg-a"); None; Some (recentPkg "pkg-c")], tt)
  /\ getMultiplePackageMetadata testClock testGetTime Some
       (registryWithout "pkg-b") [lit "pkg-a"; lit "pkg-b"; lit "pkg-c"] tt
     = (inr [recentPkg "pkg-a"; recentPkg "pkg-c"], tt).
Proof. split; vm_compute; reflexivity. Qed.

Example getMultiplePackageMetadata_test :
  getMultiplePackageMetadata testClock testGetTime Some
    (fun url => if includes url (lit "pkg-b")
                then ret {| ok := false; body := None |}
                else mockFetch (publishedOn "2026-01-01T00:00:00Z") url)
    [lit "pkg-a"; lit "pkg-b"; lit "pkg-c"] tt
  = (inr [ {| name := lit "pkg-a"; deprecated := None;
              lastPublishDate := lit "2026-01-01T00:00:00Z";
              lastPublishAge := lit "1 month ago"; isStale := false |};
           {| name := lit "pkg-c"; deprecated := None;
              lastPublishDate := lit "2026-01-01T00:00:00Z";
              lastPublishAge := lit "1 month ago"; isStale := false |} ], tt).
Proof. vm_compute. reflexivity. Qed.

End Registry.

(** ** commands/update.ts: the retry decision of [runUpdates] *)

Module UpdateCommand.

Import Updater.

(** The argument of [confirm]. *)
Record ConfirmConfig := {
  message : jsstring;
  default : bool
}.

(** The calls [runUpdates] makes, in the order it makes them. *)
Inductive Call :=
| CallUpdate (names : list jsstring) (options : UpdateOptions)
| CallDisplay (results : list UpdateResult)
| CallConfirm (config : ConfirmConfig).

(** [!r.success && r.error?.includes("Peer dependency conflict")] *)
Definition isPeerDepFailure (r : UpdateResult) : bool :=
  negb (success r)
  && match error r with
     | Some e => includes e (lit "Peer dependency conflict")
     | None => false
     end.

Definition retryMessage (failures : nat) : jsstring :=
  numberToString (Z.of_nat failures) ++ lit " package"
    ++ (if Nat.eqb failures 1 then [] else lit "s")
    ++ lit " failed due to peer dependency conflicts. Retry with --force (--legacy-peer-deps)?".

Definition retryConfig (failures : nat) : ConfirmConfig :=
  {| message := retryMessage failures; default := true |}.

(** [{ ...options, force: true }] *)
Definition forced (options : UpdateOptions) : UpdateOptions :=
  {| exact := exact options; force := true |}.

Section WithWorld.

Context {World : Type}.
(** [JSON.parse(readFileSync(pkgPath, "utf-8"))] *)
Variable readPackageJson : M World PackageJson.
(** [execSync(cmd, ...)] *)
Variable execSync : jsstring -> M World jsstring.
(** [confirm(config)] of the prompt library: the answer, or the error
    of a cancelled prompt. *)
Variable confirm : ConfirmConfig -> M World bool.
(** [displayUpdateResults(results)] prints the table of results. *)
Variable displayUpdateResults : list UpdateResult -> World -> World.

(** A call, recorded in the log of calls the state carries along. *)
Definition logged {A} (call : Call) (op : M World A) : M (World * list Call) A :=
  fun '(w, log) => let '(outcome, w') := op w in (outcome, (w', log ++ [call])).

(** The progress callback only sets the text of the spinner; the
    spinner itself is presentation and is left out. *)
Definition spinnerText (result : UpdateResult) (index total : nat)
  : M World unit := ret tt.

Definition update (names : list jsstring) (options : UpdateOptions)
  : M (World * list Call) (list UpdateResult) :=
  logged (CallUpdate names options)
    (updateMultiplePackages readPackageJson execSync names options
       (Some spinnerText)).

Definition display (results : list UpdateResult) : M (World * list Call) unit :=
  logged (CallDisplay results)
    (fun w => (inr tt, displayUpdateResults results w)).

Definition runUpdates (names : list jsstring) (options : UpdateOptions)
  : M (World * list Call) unit :=
  let* results := update names options in
  let* _ := display results in
  let peerDepFailures := List.filter isPeerDepFailure results in
  if (0 <? length peerDepFailures)%nat && negb (force options) then
    tryCatch
      (let* retry := logged (CallConfirm (retryConfig (length peerDepFailures)))
                       (confirm (retryConfig (length peerDepFailures))) in
       if retry then
         let retryNames := List.map name peerDepFailures in
         let* retryResults := update retryNames (forced options) in
         display retryResults
       else ret tt)
      (fun _ => ret tt)
  else ret tt.

(** The candidates for the retry are the failed results whose reason
    contains the words "Peer dependency conflict"; the results
    [extractErrorReason] classified as a peer-dependency conflict are
    among them. *)
Lemma isPeerDepFailure_true r :
  isPeerDepFailure r = true <->
  success r = false
  /\ exists e, error r = Some e /\ contains e (lit "Peer dependency conflict").
Proof.
  unfold isPeerDepFailure. rewrite andb_true_iff, negb_true_iff.
  destruct (error r) as [e|].
  - rewrite includes_contains. split.
    + intros [Hs He]. eauto.
    + intros [Hs [e' [[= <-] He]]]. auto.
  - split; [intros [_ H]; discriminate | intros [_ [e [H _]]]; discriminate].
Qed.

Lemma classified_peer_is_candidate r :
  success r = false ->
  error r = Some (lit "Peer dependency conflict (use --force to bypass)") ->
  isPeerDepFailure r = true.
Proof.
  intros Hs He. unfold isPeerDepFailure. now rewrite Hs, He.
Qed.

(** C2 (amended). After the batch update, the candidates for a retry
    are exactly the failed results whose reason contains the words
    "Peer dependency conflict". If there is none, or if force was
    requested, nothing more is called: no confirmation, no retry.
    Otherwise a confirmation that defaults to yes is asked once; when it
    is accepted the update is called a second time, on the names of the
    candidates and with [force = true], and its results are displayed;
    when it is declined or cancelled nothing more is called. In every
    case [runUpdates] returns without an error. *)
Theorem runUpdates_retry names options w results w1 :
  updateMultiplePackages readPackageJson execSync names options
    (Some spinnerText) w = (inr results, w1) ->
  let candidates := List.filter isPeerDepFailure results in
  let w2 := displayUpdateResults results w1 in
  let first := [CallUpdate names options; CallDisplay results] in
  let ask := CallConfirm (retryConfig (length candidates)) in
  (forall r, In r candidates <->
     In r results /\ success r = false
     /\ exists e, error r = Some e
          /\ contains e (lit "Peer dependency conflict"))
  /\ exists w' log,
       runUpdates names options (w, []) = (inr tt, (w', log))
       /\ (candidates = [] \/ force options = true -> log = first /\ w' = w2)
       /\ (candidates <> [] -> force options = false ->
            default (retryConfig (length candidates)) = true
            /\ match confirm (retryConfig (length candidates)) w2 with
               | (inr true, w3) =>
                   exists rest,
                     log = first
                           ++ [ask; CallUpdate (List.map name candidates)
                                      (forced options)]
                           ++ rest
                     /\ force (forced options) = true
                     /\ match updateMultiplePackages readPackageJson execSync
                                (List.map name candidates) (forced options)
                                (Some spinnerText) w3 with
                        | (inr retryResults, w4) =>
                            rest = [CallDisplay retryResults]
                            /\ w' = displayUpdateResults retryResults w4
                        | (inl _, w4) => rest = [] /\ w' = w4
                        end
               | (_, w3) => log = first ++ [ask] /\ w' = w3
               end).
Proof.
  intros Hfirst candidates w2 first ask. split.
  { intros r. unfold candidates. rewrite List.filter_In, isPeerDepFailure_true.
    tauto. }
  unfold runUpdates, bind, update, display, logged, tryCatch, ret.
  rewrite Hfirst. fold candidates. fold w2. cbn [app].
  destruct candidates as [|c cs] eqn:Hc.
  - cbn. exists w2, first. split; [reflexivity |].
    split; [auto | congruence].
  - change (0 <? length (c :: cs))%nat with true. cbn [andb].
    destruct (force options) eqn:Hforce; cbn [negb].
    + exists w2, first. split; [reflexivity |].
      split; [auto | congruence].
    + destruct (confirm (retryConfig (length (c :: cs))) w2)
        as [[e | [|]] w3] eqn:Hconfirm.
      * exists w3, (first ++ [ask]). split; [reflexivity |].
        split; [intros [? | ?]; congruence |].
        intros _ _. split; [reflexivity |]. auto.
      * destruct (updateMultiplePackages readPackageJson execSync
                    (List.map name (c :: cs)) (forced options)
                    (Some spinnerText) w3) as [[e | retryResults] w4] eqn:Hretry.
        -- exists w4. eexists. split; [reflexivity |].
           split; [intros [? | ?]; congruence |].
           intros _ _. split; [reflexivity |].
           exists []. repeat split.
        -- eexists. eexists. split; [reflexivity |].
           split; [intros [? | ?]; congruence |].
           intros _ _. split; [reflexivity |].
           exists [CallDisplay retryResults]. repeat split.
      * exists w3, (first ++ [ask]). split; [reflexivity |].
        split; [intros [? | ?]; congruence |].
        intros _ _. split; [reflexivity |]. auto.
Qed.

End WithWorld.

(** *** The runs of the unit tests

    The world of the tests is the version of storybook the manifest
    declares. An install without [--legacy-peer-deps] fails and prints
    [stderr]; an install with it succeeds. *)

Definition manifestOf (version : jsstring) : PackageJson :=
  {| dependencies := Some {[ lit "storybook" := version ]};
     devDependencies := None |}.

Definition installFailure (stderr : jsstring) : Thrown :=
  {| thrown_stdout := Some [];
     thrown_stderr := Some stderr;
     thrown_message := Some (lit "Command failed: npm install") |}.

Definition mockExecSync (stderr : jsstring) (cmd : jsstring) : M jsstring jsstring :=
  fun version =>
    if includes cmd (lit "--legacy-peer-deps") then (inr [], lit "10.1.0")
    else (inl (installFailure stderr), version).

Definition promptCancelled : Thrown :=
  {| thrown_stdout := None; thrown_stderr := None;
     thrown_message := Some (lit "User force closed the prompt") |}.

Definition testRunUpdates (stderr : jsstring) (answer : Thrown + bool)
    (options : UpdateOptions) : (Thrown + unit) * (jsstring * list Call) :=
  runUpdates (fun version => (inr (manifestOf version), version))
    (mockExecSync stderr) (fun _ version => (answer, version))
    (fun _ version => version)
    [lit "storybook"] options (lit "10.0.0", []).

Definition eresolveText : jsstring := lit "npm error code ERESOLVE".

Definition failedWith (reason : string) : UpdateResult :=
  {| name := lit "storybook"; previousVersion := lit "10.0.0";
     newVersion := lit "10.0.0"; success := false;
     error := Some (lit reason) |}.

Definition upgraded : UpdateResult :=
  {| name := lit "storybook"; previousVersion := lit "10.0.0";
     newVersion := lit "10.1.0"; success := true; error := None |}.

Definition askOne : Call :=
  CallConfirm
    {| message := lit "1 package failed due to peer dependency conflicts. Retry with --force (--legacy-peer-deps)?";
       default := true |}.

Definition conflict : UpdateResult :=
  failedWith "Peer dependency conflict (use --force to bypass)".

(** "should offer retry with --force on peer dep failures" *)
Example runUpdates_offers_retry :
  testRunUpdates eresolveText (inr true) {| exact := true; force := false |}
  = (inr tt,
     (lit "10.1.0",
      [CallUpdate [lit "storybook"] {| exact := true; force := false |};
       CallDisplay [conflict];
       askOne;
       CallUpdate [lit "storybook"] {| exact := true; force := true |};
       CallDisplay [upgraded]])).
Proof. vm_compute. reflexivity. Qed.

(** "should not offer retry when --force is already set" (here the
    forced install succeeds at once). *)
Example runUpdates_forced :
  testRunUpdates eresolveText (inr true) {| exact := true; force := true |}
  = (inr tt,
     (lit "10.1.0",
      [CallUpdate [lit "storybook"] {| exact := true; force := true |};
       CallDisplay [upgraded]])).
Proof. vm_compute. reflexivity. Qed.

(** A cancelled prompt ends the run without a retry and without an
    error. *)
Example runUpdates_cancelled :
  testRunUpdates eresolveText (inl promptCancelled) {| exact := true; force := false |}
  = (inr tt,
     (lit "10.0.0",
      [CallUpdate [lit "storybook"] {| exact := true; force := false |};
       CallDisplay [conflict];
       askOne])).
Proof. vm_compute. reflexivity. Qed.

Lemma runUpdates_retry_witness :
  (forall r, In r (List.filter isPeerDepFailure [conflict]) <->
     In r [conflict] /\ success r = false
     /\ exists e, error r = Some e
          /\ contains e (lit "Peer dependency conflict"))
  /\ exists w' log,
       testRunUpdates eresolveText (inr true) {| exact := true; force := false |}
       = (inr tt, (w', log))
       /\ (List.filter isPeerDepFailure [conflict] = [] \/ false = true ->
           log = [CallUpdate [lit "storybook"] {| exact := true; force := false |};
                  CallDisplay [conflict]]
           /\ w' = lit "10.0.0")
       /\ (List.filter isPeerDepFailure [conflict] <> [] -> false = false ->
            true = true
            /\ exists rest,
                 log = [CallUpdate [lit "storybook"] {| exact := true; force := false |};
                        CallDisplay [conflict]]
                       ++ [askOne;
                           CallUpdate [lit "storybook"] {| exact := true; force := true |}]
                       ++ rest
                 /\ true = true
                 /\ rest = [CallDisplay [upgraded]] /\ w' = lit "10.1.0").
Proof.
  apply (runUpdates_retry (fun version => (inr (manifestOf version), version))
           (mockExecSync eresolveText) (fun _ version => (inr true, version))
           (fun _ version => version)
           [lit "storybook"] {| exact := true; force := false |}
           (lit "10.0.0") [conflict] (lit "10.0.0")).
  vm_compute. reflexivity.
Defined.

(** C2 as stated fails: an install whose standard error has a log line
    with the words "Peer dependency conflict" but no ERESOLVE marker
    fails with a reason that is not the peer-dependency-conflict
    classification, and is offered the retry and retried with
    [force = true] all the same. *)
Lemma runUpdates_retries_unclassified :
  extractErrorReason (lit "npm ERR! Peer dependency conflict detected")
  = lit "Peer dependency conflict detected"
  /\ error (failedWith "Peer dependency conflict detected")
     <> Some (lit "Peer dependency conflict (use --force to bypass)")
  /\ testRunUpdates (lit "npm ERR! Peer dependency conflict detected")
       (inr true) {| exact := true; force := false |}
     = (inr tt,
        (lit "10.1.0",
         [CallUpdate [lit "storybook"] {| exact := true; force := false |};
          CallDisplay [failedWith "Peer dependency conflict detected"];
          askOne;
          CallUpdate [lit "storybook"] {| exact := true; force := true |};
          CallDisplay [upgraded]])).
Proof.
  split; [vm_compute; reflexivity |].
  split; [discriminate | vm_compute; reflexivity].
Qed.

End UpdateCommand.

(** ** More facts about the string built-ins *)

Module TextFacts.

(** *** Decimal digits *)

Definition digitValue (acc : Z) (c : N) : Z := 10 * acc + (Z.of_N c - 48).

Lemma lit_String c s : lit (String c s) = N_of_ascii c :: lit s.
Proof. reflexivity. Qed.

Lemma parse_digits_acc d acc :
  fold_left digitValue (lit (NilEmpty.string_of_uint d)) (Zpos acc)
  = Zpos (Pos.of_uint_acc d acc).
Proof.
  revert acc. induction d; intros acc; cbn [NilEmpty.string_of_uint];
    [reflexivity | rewrite lit_String; cbn [fold_left Pos.of_uint_acc];
                   rewrite <- IHd; f_equal; unfold digitValue; cbn; lia ..].
Qed.

Lemma parse_digits d :
  parseInt10 (lit (NilEmpty.string_of_uint d)) = Z.of_N (Pos.of_uint d).
Proof.
  unfold parseInt10. fold digitValue.
  induction d; cbn [NilEmpty.string_of_uint];
    [reflexivity | rewrite lit_String; cbn [fold_left Pos.of_uint] ..];
    [exact IHd | apply parse_digits_acc ..].
Qed.

(** Reading back what [String(n)] prints. *)
Lemma parseInt10_digitsOf n : parseInt10 (digitsOf n) = Z.of_N n.
Proof.
  unfold digitsOf. rewrite parse_digits.
  change (Pos.of_uint (N.to_uint n)) with (N.of_uint (N.to_uint n)).
  now rewrite DecimalN.Unsigned.of_to.
Qed.

Lemma parseInt10_numberToString z :
  0 <= z -> parseInt10 (numberToString z) = z.
Proof.
  destruct z as [|p|p]; intros Hz; [reflexivity | | lia].
  cbn [numberToString]. now rewrite parseInt10_digitsOf.
Qed.

Lemma digits_of_uint d :
  Forall (fun c => isDigit c = true) (lit (NilEmpty.string_of_uint d)).
Proof.
  induction d; cbn [NilEmpty.string_of_uint];
    [constructor | rewrite lit_String; constructor; [reflexivity | exact IHd] ..].
Qed.

Lemma string_of_uint_nonnil d :
  d <> Decimal.Nil -> lit (NilEmpty.string_of_uint d) <> [].
Proof. destruct d; intros H; [contradiction | discriminate ..]. Qed.

Lemma numberToString_digits z :
  0 <= z ->
  numberToString z <> []
  /\ Forall (fun c => isDigit c = true) (numberToString z).
Proof.
  destruct z as [|p|p]; intros Hz; [| | lia].
  - split; [discriminate | repeat constructor].
  - cbn [numberToString]. unfold digitsOf. split.
    + apply string_of_uint_nonnil. apply DecimalPos.Unsigned.to_uint_nonnil.
    + apply digits_of_uint.
Qed.

(** *** Prefixes selected by a predicate *)

Lemma takeWhile_app f ds rest :
  Forall (fun c => f c = true) ds ->
  match rest with c :: _ => f c = false | [] => True end ->
  takeWhile f (ds ++ rest) = ds.
Proof.
  induction 1 as [|c ds Hc _ IH]; intros Hrest; cbn.
  - destruct rest as [|c rest]; [reflexivity | cbn; now rewrite Hrest].
  - now rewrite Hc, IH.
Qed.

Lemma dropWhile_app f ws rest :
  Forall (fun c => f c = true) ws ->
  match rest with c :: _ => f c = false | [] => True end ->
  dropWhile f (ws ++ rest) = rest.
Proof.
  induction 1 as [|c ws Hc _ IH]; intros Hrest; cbn.
  - destruct rest as [|c rest]; [reflexivity | cbn; now rewrite Hrest].
  - now rewrite Hc, IH.
Qed.

Lemma dropWhile_In f s c : In c (dropWhile f s) -> In c s.
Proof.
  induction s as [|d s IH]; cbn; [auto |].
  destruct (f d); [intros H; right; auto | auto].
Qed.

(** *** [trim] *)

Definition startsClean (s : jsstring) : Prop :=
  match s with c :: _ => isWhiteSpace c = false | [] => True end.

(** No white space at either end. *)
Definition trimmed (s : jsstring) : Prop := startsClean s /\ startsClean (rev s).

Lemma trimEnd_prefix s :
  exists ws, s = trimEnd s ++ ws /\ Forall (fun c => isWhiteSpace c = true) ws.
Proof.
  unfold trimEnd.
  destruct (dropWhile_split isWhiteSpace (rev s)) as [ws [Hs Hws]].
  exists (rev ws). split.
  - rewrite <- (rev_involutive s) at 1. rewrite Hs at 1.
    now rewrite rev_app_distr.
  - now apply Forall_rev.
Qed.

Lemma trimEnd_clean s : startsClean s -> startsClean (trimEnd s).
Proof.
  intros Hs. destruct (trimEnd_prefix s) as [ws [Heq Hws]].
  destruct (trimEnd s) as [|c t] eqn:E; [exact I |].
  rewrite Heq in Hs. exact Hs.
Qed.

Lemma trim_trimmed s : trimmed (trim s).
Proof.
  unfold trimmed, trim. split.
  - apply trimEnd_clean. apply dropWhile_head.
  - unfold trimEnd. rewrite rev_involutive. apply dropWhile_head.
Qed.

Lemma trim_In s c : In c (trim s) -> In c s.
Proof.
  unfold trim, trimEnd, trimStart. intros H.
  apply in_rev, dropWhile_In in H. apply in_rev, dropWhile_In in H. exact H.
Qed.

(** A string that starts and ends clean is left as it is. *)
Lemma trim_id s : trimmed s -> trim s = s.
Proof.
  intros [Hstart Hend]. unfold trim, trimStart, trimEnd.
  assert (dropWhile isWhiteSpace s = s) as ->.
  { destruct s as [|c s]; [reflexivity |]. cbn in *. now rewrite Hstart. }
  assert (dropWhile isWhiteSpace (rev s) = rev s) as ->.
  { destruct (rev s) as [|c t]; [reflexivity |]. cbn in *. now rewrite Hend. }
  apply rev_involutive.
Qed.

(** *** Lines *)

Lemma split_no_sep sep s : Forall (fun l => ~ In sep l) (split sep s).
Proof.
  induction s as [|c s IH]; cbn.
  - repeat constructor. auto.
  - unfold code_eqb. destruct (N.eqb_spec c sep) as [-> | Hne].
    + constructor; auto.
    + destruct (split sep s) as [|l ls]; [repeat constructor; cbn; tauto |].
      apply Forall_cons in IH as [Hl Hls]. constructor; [| exact Hls].
      cbn. tauto.
Qed.

Lemma firstLine_no_LF s : ~ In LF (firstLine s).
Proof.
  induction s as [|c s IH]; cbn; [auto |].
  unfold code_eqb. destruct (N.eqb_spec c LF); cbn; [auto | tauto].
Qed.

Lemma removeFirst_In (matchAt : jsstring -> option jsstring) s c :
  (forall t r, matchAt t = Some r -> forall d, In d r -> In d t) ->
  In c (removeFirst matchAt s) -> In c s.
Proof.
  intros Hsub. induction s as [|d s IH]; cbn.
  - destruct (matchAt []) as [r|] eqn:E; [apply (Hsub _ _ E) | auto].
  - destruct (matchAt (d :: s)) as [r|] eqn:E; [apply (Hsub _ _ E) |].
    cbn. tauto.
Qed.

End TextFacts.
Import TextFacts.

(** ** services/updater.ts: further properties *)

Module UpdaterProperties.

Import Updater.

(** The flags that follow the save flag in the install command. *)
Definition flagSuffix (options : UpdateOptions) : jsstring :=
  match exact options, force options with
  | true, true => lit " --save-exact --legacy-peer-deps"
  | true, false => lit " --save-exact"
  | false, true => lit "  --legacy-peer-deps"
  | false, false => []
  end.

Lemma trimEnd_tail s tail kept :
  trimEnd tail = kept -> kept <> [] -> trimEnd (s ++ tail) = s ++ kept.
Proof.
  unfold trimEnd. intros Hk Hne. rewrite rev_app_distr.
  assert (dropWhile isWhiteSpace (rev tail) = rev kept) as Hd.
  { rewrite <- Hk. now rewrite rev_involutive. }
  assert (dropWhile isWhiteSpace (rev tail ++ rev s) = rev kept ++ rev s) as ->.
  { revert Hd. generalize (rev tail). intros l. induction l as [|c l IH]; cbn.
    - intros H. destruct kept; [contradiction |].
      symmetry in H. apply app_eq_nil in H as [_ H]. discriminate.
    - destruct (isWhiteSpace c); [exact IH | now intros <-]. }
  now rewrite rev_app_distr, !rev_involutive.
Qed.

(** The command line of an install: the name goes in as it is, the
    save flag follows, then the flags of the options; the blanks the
    template leaves at the end for absent flags are trimmed away, the
    two blanks it leaves between the save flag and
    [--legacy-peer-deps] stay. *)
Lemma installCommand_shape name dev options :
  installCommand name dev options
  = lit "npm install " ++ name ++ lit "@latest "
      ++ (if dev then lit "--save-dev" else lit "--save")
      ++ flagSuffix options.
Proof.
  unfold installCommand, trim, trimStart.
  change (dropWhile isWhiteSpace (lit "npm install " ++ ?x))
    with (lit "npm install " ++ x).
  rewrite !app_assoc. rewrite <- !app_assoc.
  set (head := lit "npm install " ++ name).
  replace (lit "npm install " ++ name ++ lit "@latest "
             ++ (if dev then lit "--save-dev" else lit "--save")
             ++ flagSuffix options)
    with (head ++ lit "@latest "
            ++ (if dev then lit "--save-dev" else lit "--save")
            ++ flagSuffix options)
    by (unfold head; now rewrite <- app_assoc).
  replace (lit "npm install " ++ name ++ lit "@latest "
             ++ (if dev then lit "--save-dev" else lit "--save")
             ++ lit " " ++ (if exact options then lit "--save-exact" else [])
             ++ lit " " ++ (if force options then lit "--legacy-peer-deps" else []))
    with (head ++ lit "@latest "
            ++ (if dev then lit "--save-dev" else lit "--save")
            ++ lit " " ++ (if exact options then lit "--save-exact" else [])
            ++ lit " " ++ (if force options then lit "--legacy-peer-deps" else []))
    by (unfold head; now rewrite <- app_assoc).
  unfold flagSuffix.
  destruct dev, (exact options), (force options);
    (apply trimEnd_tail; [vm_compute; reflexivity | discriminate]).
Qed.

Lemma literal_no_LF (s : jsstring) :
  forallb (fun c => negb (N.eqb c LF)) s = true -> ~ In LF s.
Proof.
  induction s as [|c s IH]; cbn; [auto |].
  rewrite andb_true_iff, negb_true_iff, N.eqb_neq.
  intros [Hc Hs] [H | H]; [congruence | now apply IH].
Qed.

Lemma npmPrefixAt_In t r d : npmPrefixAt t = Some r -> In d r -> In d t.
Proof.
  unfold npmPrefixAt.
  destruct (startsWith (lit "npm ERR!") t);
    [| destruct (startsWith (lit "npm error") t); [| discriminate]];
    intros [= <-] H; apply dropWhile_In in H;
    apply list_elem_of_In in H; apply list_elem_of_In;
    eapply subseteq_drop; exact H.
Qed.

Lemma extractErrorReason_line stderr :
  ~ In LF (extractErrorReason stderr) /\ trimmed (extractErrorReason stderr).
Proof.
  unfold extractErrorReason.
  repeat match goal with
         | |- context [if ?b then _ else _] =>
             destruct b;
             [split; [apply literal_no_LF; reflexivity
                     | split; vm_compute; reflexivity] |]
         end.
  destruct (List.find isErrLine (split LF stderr)) as [errLine|] eqn:Ef.
  - split; [| apply trim_trimmed].
    intros H. apply trim_In in H.
    apply (removeFirst_In npmPrefixAt) in H;
      [| intros t r Ht d Hd; exact (npmPrefixAt_In t r d Ht Hd)].
    apply List.find_some in Ef as [Hin _].
    pose proof (split_no_sep LF stderr) as Hall.
    rewrite List.Forall_forall in Hall. exact (Hall errLine Hin H).
  - split; [apply literal_no_LF; reflexivity | split; vm_compute; reflexivity].
Qed.

(** The reason [extractErrorReason] returns is one line of text with
    no white space at either end, whatever the standard error holds;
    it is never empty unless the line of the error holds nothing but
    its prefix. *)
Theorem extractErrorReason_one_line stderr :
  ~ In LF (extractErrorReason stderr)
  /\ trimmed (extractErrorReason stderr)
  /\ (extractErrorReason stderr = [] ->
      exists errLine,
        List.find isErrLine (split LF stderr) = Some errLine
        /\ trim (removeFirst npmPrefixAt errLine) = []).
Proof.
  destruct (extractErrorReason_line stderr) as [Hline Htrim].
  split; [exact Hline |]. split; [exact Htrim |].
  unfold extractErrorReason.
  repeat match goal with
         | |- context [if ?b then _ else _] =>
             destruct b; [vm_compute; discriminate |]
         end.
  destruct (List.find isErrLine (split LF stderr)) as [errLine|].
  - intros H. exists errLine. auto.
  - vm_compute. discriminate.
Qed.

Lemma failureReason_one_line err : ~ In LF (failureReason err).
Proof.
  unfold failureReason. destruct (truthy (thrown_stderr err)).
  - apply extractErrorReason_line.
  - destruct (thrown_message err) as [m|].
    + rewrite hd_split_LF. apply firstLine_no_LF.
    + apply literal_no_LF. reflexivity.
Qed.

Section WithWorld.

Context {World : Type}.
Variable readPackageJson : M World PackageJson.
Variable execSync : jsstring -> M World jsstring.

Lemma updatePackage_throws_read name options w e w' :
  updatePackage readPackageJson execSync name options w = (inl e, w') ->
  readPackageJson w = (inl e, w').
Proof.
  unfold updatePackage, getCurrentVersion, bind, tryCatch, ret.
  destruct (readPackageJson w) as [[e0 | pkg] w1]; [now intros [= <- <-] |].
  destruct (installLatest readPackageJson execSync name options w1)
    as [[err | v] w2]; discriminate.
Qed.

(** [updatePackage] throws exactly when the manifest cannot be read
    before the install; once the previous version is known, every
    failure comes back as a result. *)
Theorem updatePackage_throws name options w e w' :
  updatePackage readPackageJson execSync name options w = (inl e, w')
  <-> readPackageJson w = (inl e, w').
Proof.
  unfold updatePackage, getCurrentVersion, bind, tryCatch, ret.
  destruct (readPackageJson w) as [[e0 | pkg] w1].
  - split; intros [= <- <-]; reflexivity.
  - destruct (installLatest readPackageJson execSync name options w1)
      as [[err | v] w2]; split; discriminate.
Qed.

Lemma updatePackage_result name options w r w' :
  updatePackage readPackageJson execSync name options w = (inr r, w') ->
  Updater.name r = name
  /\ (success r = true <-> error r = None)
  /\ (forall reason, error r = Some reason ->
        exists err, reason = failureReason err).
Proof.
  unfold updatePackage, getCurrentVersion, bind, tryCatch, ret.
  destruct (readPackageJson w) as [[e0 | pkg] w1]; [discriminate |].
  destruct (installLatest readPackageJson execSync name options w1)
    as [[err | v] w2]; intros [= <- <-]; cbn.
  - repeat split; try discriminate. intros reason [= <-]. eauto.
  - repeat split; discriminate.
Qed.

(** A result of [updatePackage] carries the name it was asked for; it
    has an error reason exactly when it failed, and the reason is one
    line, whether it was read from the standard error or from the
    message of the error. *)
Theorem updatePackage_reason name options w r w' :
  updatePackage readPackageJson execSync name options w = (inr r, w') ->
  Updater.name r = name
  /\ (success r = true <-> error r = None)
  /\ (forall reason, error r = Some reason -> ~ In LF reason).
Proof.
  intros Hrun.
  destruct (updatePackage_result name options w r w' Hrun) as [Hn [Hs Hr]].
  repeat split; try apply Hs; auto.
  intros reason He. destruct (Hr reason He) as [err ->].
  apply failureReason_one_line.
Qed.

Lemma updateFrom_names names options onProgress i total w results w' :
  updateFrom readPackageJson execSync names options onProgress i total w
  = (inr results, w') ->
  List.map Updater.name results = names.
Proof.
  revert i w results. induction names as [|n names IH]; intros i w results;
    cbn [updateFrom].
  - unfold ret. now intros [= <- <-].
  - unfold bind, ret.
    destruct (updatePackage readPackageJson execSync n options w)
      as [[e | r] w1] eqn:Hr; [discriminate |].
    destruct (match onProgress with
              | Some f => f r i total
              | None => fun w0 => (inr tt, w0)
              end w1) as [[e | []] w2]; [discriminate |].
    destruct (updateFrom readPackageJson execSync names options onProgress
                (S i) total w2) as [[e | rs] w3] eqn:Hrs; [discriminate |].
    intros [= <- <-]. cbn [List.map]. f_equal.
    + now apply (updatePackage_result n options w r w1).
    + now apply (IH (S i) w2).
Qed.

(** The results of a batch are those of its packages, one for each
    name and in the order of the names. *)
Theorem updateMultiplePackages_names names options onProgress w results w' :
  updateMultiplePackages readPackageJson execSync names options onProgress w
  = (inr results, w') ->
  List.map Updater.name results = names
  /\ length results = length names.
Proof.
  intros Hrun. apply updateFrom_names in Hrun.
  split; [exact Hrun |]. now rewrite <- Hrun, length_map.
Qed.

(** A failing install never stops a batch: as long as the manifest can
    be read and the progress callback returns, every package is tried
    and the batch returns, however many installs fail. *)
Theorem updateMultiplePackages_returns names options onProgress w :
  (forall w0, exists pkg w1, readPackageJson w0 = (inr pkg, w1)) ->
  (forall f r i total w0, onProgress = Some f ->
     exists w1, f r i total w0 = (inr tt, w1)) ->
  exists results w',
    updateMultiplePackages readPackageJson execSync names options onProgress w
    = (inr results, w')
    /\ length results = length names.
Proof.
  intros Hread Hprogress. unfold updateMultiplePackages.
  generalize (length names) at 1 as total. generalize 0%nat as i.
  revert w. induction names as [|n names IH]; intros w i total; cbn [updateFrom].
  - exists [], w. split; reflexivity.
  - unfold bind, ret.
    destruct (updatePackage readPackageJson execSync n options w)
      as [[e | r] w1] eqn:Hr.
    { apply updatePackage_throws_read in Hr.
      destruct (Hread w) as [pkg [w0 Hw]]. congruence. }
    destruct onProgress as [f|].
    + destruct (Hprogress f r i total w1 eq_refl) as [w2 ->].
      destruct (IH w2 (S i) total) as [rs [w3 [-> Hlen]]].
      exists (r :: rs), w3. split; [reflexivity | cbn; now rewrite Hlen].
    + destruct (IH w1 (S i) total) as [rs [w3 [-> Hlen]]].
      exists (r :: rs), w3. split; [reflexivity | cbn; now rewrite Hlen].
Qed.

End WithWorld.

(** *** The progress callback *)

(** *** The command of an install *)

Section Commands.

Context {World : Type}.
Variable readPackageJson : M World PackageJson.
Variable execSync : jsstring -> M World jsstring.

(** A computation of the services, run in a world that also carries
    the command lines handed to [execSync] so far. *)
Definition quiet {A} (c : M World A) : M (World * list jsstring) A :=
  fun '(w, cmds) => let '(outcome, w') := c w in (outcome, (w', cmds)).

(** [execSync], writing down its command line. *)
Definition recordedExec (cmd : jsstring) : M (World * list jsstring) jsstring :=
  fun '(w, cmds) =>
    let '(outcome, w') := execSync cmd w in (outcome, (w', cmds ++ [cmd])).

(** When the manifest can be read, [updatePackage] runs one command,
    whether the install succeeds or not: [npm install <name>@latest],
    then [--save-dev] when the name is a key of the [devDependencies]
    of the manifest as it is read just before the install, or a name
    every object answers to under [in], and [--save] otherwise, then
    the flags of the options. *)
Theorem updatePackage_command name options w pkg0 w1 pkg w2 :
  readPackageJson w = (inr pkg0, w1) ->
  readPackageJson w1 = (inr pkg, w2) ->
  exists r w' cmd,
    updatePackage (quiet readPackageJson) recordedExec name options (w, [])
    = (inr r, (w', [cmd]))
    /\ let dev :=
         (exists m, devDependencies pkg = Some m /\ is_Some (m !! name))
         \/ name ∈ objectPrototypeKeys in
       (dev ->
        cmd = lit "npm install " ++ name ++ lit "@latest " ++ lit "--save-dev"
                ++ flagSuffix options)
       /\ (~ dev ->
           cmd = lit "npm install " ++ name ++ lit "@latest " ++ lit "--save"
                   ++ flagSuffix options).
Proof.
  intros Hread0 Hread.
  assert (exists r w',
            updatePackage (quiet readPackageJson) recordedExec name options
              (w, [])
            = (inr r, (w', [installCommand name
                              (hasProperty (default ∅ (devDependencies pkg)) name)
                              options]))) as [r [w' Hrun]].
  { unfold updatePackage, installLatest, isDevDep, getCurrentVersion, quiet,
      recordedExec, bind, tryCatch, ret.
    rewrite Hread0, Hread.
    destruct (execSync _ w2) as [[e | out] w3]; [eauto |].
    destruct (readPackageJson w3) as [[e | pkg3] w4]; eauto. }
  exists r, w'. eexists. split; [exact Hrun |].
  cbn zeta. rewrite installCommand_shape. unfold hasProperty.
  split.
  - intros [[m [Hm Hkey]] | Hin].
    + rewrite Hm. cbn [default]. now rewrite bool_decide_eq_true_2.
    + rewrite (bool_decide_eq_true_2 (name ∈ objectPrototypeKeys)) by exact Hin.
      now rewrite orb_true_r.
  - intros Hno.
    rewrite (bool_decide_eq_false_2 (name ∈ objectPrototypeKeys)) by tauto.
    rewrite orb_false_r.
    destruct (devDependencies pkg) as [m|] eqn:Hm; cbn [default].
    + rewrite bool_decide_eq_false_2; [reflexivity |].
      intros Hkey. apply Hno. left. eauto.
    + rewrite bool_decide_eq_false_2; [reflexivity |].
      rewrite lookup_empty. intros [v Hv]. discriminate.
Qed.

End Commands.

(** One call of the callback: [(result, index, total)]. *)
Definition Progress : Type := UpdateResult * nat * nat.

Section Recorded.

Context {World : Type}.
Variable readPackageJson : M World PackageJson.
Variable execSync : jsstring -> M World jsstring.

(** A computation of the services, run in a world that also carries
    the calls of the callback so far. *)
Definition aside {A} (c : M World A) : M (World * list Progress) A :=
  fun '(w, calls) => let '(outcome, w') := c w in (outcome, (w', calls)).

(** A callback that writes down its arguments. *)
Definition recordProgress (result : UpdateResult) (index total : nat)
  : M (World * list Progress) unit :=
  fun '(w, calls) => (inr tt, (w, calls ++ [(result, index, total)])).

Lemma updatePackage_aside name options w calls :
  updatePackage (aside readPackageJson) (fun cmd => aside (execSync cmd))
    name options (w, calls)
  = aside (updatePackage readPackageJson execSync name options) (w, calls).
Proof.
  unfold updatePackage, installLatest, isDevDep, getCurrentVersion, aside,
    bind, tryCatch, ret.
  destruct (readPackageJson w) as [[e | pkg] w1]; [reflexivity |].
  destruct (readPackageJson w1) as [[e | pkg1] w2]; [reflexivity |].
  destruct (execSync _ w2) as [[e | out] w3]; [reflexivity |].
  destruct (readPackageJson w3) as [[e | pkg3] w4]; reflexivity.
Qed.

Lemma updateFrom_recorded names options i total w calls results w' calls' :
  updateFrom (aside readPackageJson) (fun cmd => aside (execSync cmd))
    names options (Some recordProgress) i total (w, calls)
  = (inr results, (w', calls')) ->
  calls' = calls ++ imap (fun j r => (r, (i + j)%nat, total)) results
  /\ updateFrom readPackageJson execSync names options None i total w
     = (inr results, w').
Proof.
  revert i w calls results. induction names as [|n names IH];
    intros i w calls results; cbn [updateFrom].
  - unfold ret. intros [= <- <- <-]. cbn. now rewrite app_nil_r.
  - intros Hrun. unfold bind in Hrun. rewrite updatePackage_aside in Hrun.
    unfold aside at 1 in Hrun.
    destruct (updatePackage readPackageJson execSync n options w)
      as [[e | r] w1] eqn:Hr; [discriminate |].
    unfold recordProgress at 1, ret in Hrun.
    destruct (updateFrom (aside readPackageJson) (fun cmd => aside (execSync cmd))
                names options (Some recordProgress) (S i) total
                (w1, calls ++ [(r, i, total)]))
      as [[e | rs] [w2 calls2]] eqn:Hrest; [discriminate |].
    injection Hrun as <- <- <-.
    destruct (IH (S i) w1 _ rs Hrest) as [-> Hplain].
    split.
    + cbn [imap]. rewrite <- app_assoc. cbn [app]. rewrite Nat.add_0_r.
      do 2 f_equal. apply imap_ext. intros j x _. cbn. repeat f_equal. lia.
    + unfold bind, ret. now rewrite Hr, Hplain.
Qed.

(** The callback is called once for each package, after the package
    was tried and before the next one is, with the result, the position
    of the package and the size of the batch; it does not change what
    the batch returns. *)
Theorem updateMultiplePackages_progress names options w results w' calls :
  updateMultiplePackages (aside readPackageJson) (fun cmd => aside (execSync cmd))
    names options (Some recordProgress) (w, [])
  = (inr results, (w', calls)) ->
  calls = imap (fun j r => (r, j, length names)) results
  /\ updateMultiplePackages readPackageJson execSync names options None w
     = (inr results, w').
Proof.
  unfold updateMultiplePackages. intros Hrun.
  apply updateFrom_recorded in Hrun as [-> Hplain]. split; [| exact Hplain].
  reflexivity.
Qed.

End Recorded.

(** *** A batch of the unit tests

    The world is whether express was upgraded. The install of express
    succeeds; every other install fails on a peer-dependency conflict. *)

Definition manifestAt (upgraded : bool) : PackageJson :=
  {| dependencies :=
       Some {[ lit "express" := if upgraded then lit "5.0.0" else lit "4.18.0" ]};
     devDependencies := Some {[ lit "vitest" := lit "1.0.0" ]} |}.

Definition readManifest : M bool PackageJson :=
  fun upgraded => (inr (manifestAt upgraded), upgraded).

Definition installExpressOnly (cmd : jsstring) : M bool jsstring :=
  fun upgraded =>
    if includes cmd (lit "express@latest") then (inr [], true)
    else (inl eresolveError, upgraded).

Definition expressOk : UpdateResult :=
  {| name := lit "express"; previousVersion := lit "4.18.0";
     newVersion := lit "5.0.0"; success := true; error := None |}.

Definition vitestFailed : UpdateResult :=
  {| name := lit "vitest"; previousVersion := lit "1.0.0";
     newVersion := lit "1.0.0"; success := false;
     error := Some (lit "Peer dependency conflict (use --force to bypass)") |}.

Example updateMultiplePackages_test :
  updateMultiplePackages readManifest installExpressOnly
    [lit "express"; lit "vitest"] exactOnly None false
  = (inr [expressOk; vitestFailed], true).
Proof. vm_compute. reflexivity. Qed.

Example installCommand_tests :
  installCommand (lit "express") false {| exact := true; force := false |}
  = lit "npm install express@latest --save --save-exact"
  /\ installCommand (lit "vitest") true {| exact := false; force := true |}
     = lit "npm install vitest@latest --save-dev  --legacy-peer-deps"
  /\ installCommand (lit "vitest") true {| exact := false; force := false |}
     = lit "npm install vitest@latest --save-dev".
Proof. repeat split; vm_compute; reflexivity. Qed.

(** A name every object answers to under [in] is installed as a dev
    dependency, whatever the manifest holds. *)
Example isDevDep_inherited :
  isDevDep readManifest (lit "constructor") false = (inr true, false)
  /\ isDevDep readManifest (lit "express") false = (inr false, false)
  /\ isDevDep readManifest (lit "vitest") false = (inr true, false).
Proof. repeat split; vm_compute; reflexivity. Qed.

Lemma updatePackage_command_witness :
  exists r w' cmd,
    updatePackage (quiet readManifest) (recordedExec installExpressOnly)
      (lit "vitest") exactOnly (false, [])
    = (inr r, (w', [cmd]))
    /\ (((exists m, devDependencies (manifestAt false) = Some m
                    /\ is_Some (m !! lit "vitest"))
         \/ lit "vitest" ∈ objectPrototypeKeys) ->
        cmd = lit "npm install " ++ lit "vitest" ++ lit "@latest "
                ++ lit "--save-dev" ++ flagSuffix exactOnly)
    /\ (~ ((exists m, devDependencies (manifestAt false) = Some m
                      /\ is_Some (m !! lit "vitest"))
           \/ lit "vitest" ∈ objectPrototypeKeys) ->
        cmd = lit "npm install " ++ lit "vitest" ++ lit "@latest "
                ++ lit "--save" ++ flagSuffix exactOnly).
Proof.
  apply (updatePackage_command readManifest installExpressOnly (lit "vitest")
           exactOnly false (manifestAt false) false (manifestAt false) false);
    reflexivity.
Defined.

Lemma updatePackage_reason_witness :
  Updater.name vitestFailed = lit "vitest"
  /\ (success vitestFailed = true <-> error vitestFailed = None)
  /\ (forall reason, error vitestFailed = Some reason -> ~ In LF reason).
Proof.
  apply (updatePackage_reason readManifest installExpressOnly
           (lit "vitest") exactOnly true vitestFailed true).
  vm_compute. reflexivity.
Defined.

Lemma updateMultiplePackages_names_witness :
  List.map Updater.name [expressOk; vitestFailed] = [lit "express"; lit "vitest"]
  /\ length [expressOk; vitestFailed] = length [lit "express"; lit "vitest"].
Proof.
  apply (updateMultiplePackages_names readManifest installExpressOnly
           [lit "express"; lit "vitest"] exactOnly None false
           [expressOk; vitestFailed] true).
  vm_compute. reflexivity.
Defined.

Lemma updateMultiplePackages_returns_witness :
  exists results w',
    updateMultiplePackages readManifest installExpressOnly
      [lit "vitest"; lit "express"; lit "left-pad"] exactOnly None false
    = (inr results, w')
    /\ length results = length [lit "vitest"; lit "express"; lit "left-pad"].
Proof.
  apply (updateMultiplePackages_returns readManifest installExpressOnly
           [lit "vitest"; lit "express"; lit "left-pad"] exactOnly None false).
  - intros w0. exists (manifestAt w0), w0. reflexivity.
  - intros f r i total w0 H. discriminate H.
Defined.

Lemma updateMultiplePackages_progress_witness :
  [(expressOk, 0%nat, 2%nat); (vitestFailed, 1%nat, 2%nat)]
  = imap (fun j r => (r, j, length [lit "express"; lit "vitest"]))
      [expressOk; vitestFailed]
  /\ updateMultiplePackages readManifest installExpressOnly
       [lit "express"; lit "vitest"] exactOnly None false
     = (inr [expressOk; vitestFailed], true).
Proof.
  apply (updateMultiplePackages_progress readManifest installExpressOnly
           [lit "express"; lit "vitest"] exactOnly false
           [expressOk; vitestFailed] true
           [(expressOk, 0%nat, 2%nat); (vitestFailed, 1%nat, 2%nat)]).
  vm_compute. reflexivity.
Defined.

End UpdaterProperties.

(** ** services/audit.ts: further properties *)

Module AuditProperties.

Import Audit.

(** *** The counts read from the output of the fix command *)

Lemma firstMatch_skip {A} (matchAt : jsstring -> option A) pre s :
  (forall i, (i < length pre)%nat -> matchAt (drop i (pre ++ s)) = None) ->
  firstMatch matchAt (pre ++ s) = firstMatch matchAt s.
Proof.
  induction pre as [|c pre IH]; intros Hnone; [reflexivity |].
  pose proof (Hnone 0%nat ltac:(cbn; lia)) as H0. cbn in H0.
  cbn [app firstMatch]. rewrite H0.
  apply IH. intros i Hi. apply (Hnone (S i)). cbn. lia.
Qed.

Lemma firstMatch_here {A} (matchAt : jsstring -> option A) s x :
  matchAt s = Some x -> firstMatch matchAt s = Some x.
Proof. intros H. destruct s; cbn; now rewrite H. Qed.

Lemma countAt_no_word word s : startsWith word s = false -> countAt word s = None.
Proof. unfold countAt. now intros ->. Qed.

Lemma countAt_number word ws digits rest :
  ws <> [] -> Forall (fun c => isWhiteSpace c = true) ws ->
  digits <> [] -> Forall (fun c => isDigit c = true) digits ->
  match rest with c :: _ => isDigit c = false | [] => True end ->
  countAt word (word ++ ws ++ digits ++ rest) = Some digits.
Proof.
  intros Hws Hall Hd Hdigits Hrest. unfold countAt.
  assert (startsWith word (word ++ ws ++ digits ++ rest) = true) as ->
    by (apply startsWith_true; eauto).
  rewrite drop_app_length.
  assert (dropWhile isWhiteSpace (ws ++ digits ++ rest) = digits ++ rest) as ->.
  { apply dropWhile_app; [exact Hall |].
    destruct digits as [|d ds]; [contradiction |].
    apply Forall_cons in Hdigits as [Hd0 _]. cbn.
    unfold isDigit in Hd0. unfold isWhiteSpace.
    apply andb_true_iff in Hd0 as [H1 H2].
    apply N.leb_le in H1, H2.
    repeat match goal with
           | |- context [(?a <=? ?b)%N] => destruct (N.leb_spec a b); try lia
           | |- context [(?a =? ?b)%N] => destruct (N.eqb_spec a b); try lia
           end; reflexivity. }
  assert ((length (digits ++ rest) <? length (ws ++ digits ++ rest))%nat = true) as ->.
  { apply Nat.ltb_lt. rewrite (length_app ws). destruct ws; [contradiction |].
    cbn. lia. }
  rewrite takeWhile_app by assumption.
  destruct digits; [contradiction | reflexivity].
Qed.

(** When the first place the word stands at in the output is followed
    by white space and the decimal digits of [n], the count read for
    the word is [n]. *)
Lemma parseCount_reads word pre ws n rest :
  (forall i, (i < length pre)%nat ->
     startsWith word (drop i (pre ++ word ++ ws ++ numberToString n ++ rest))
     = false) ->
  ws <> [] -> Forall (fun c => isWhiteSpace c = true) ws ->
  0 <= n ->
  match rest with c :: _ => isDigit c = false | [] => True end ->
  parseCount word (pre ++ word ++ ws ++ numberToString n ++ rest) = n.
Proof.
  intros Hfirst Hws Hall Hn Hrest. unfold parseCount.
  rewrite firstMatch_skip
    by (intros i Hi; apply countAt_no_word; now apply Hfirst).
  destruct (numberToString_digits n Hn) as [Hne Hdigits].
  rewrite (firstMatch_here _ _ (numberToString n))
    by (now apply countAt_number).
  now apply parseInt10_numberToString.
Qed.

Lemma firstMatch_none {A} (matchAt : jsstring -> option A) s :
  (forall i, matchAt (drop i s) = None) -> firstMatch matchAt s = None.
Proof.
  induction s as [|c s IH]; intros Hnone;
    pose proof (Hnone 0%nat) as H0; cbn in H0; cbn; rewrite H0;
    [reflexivity |].
  apply IH. intros i. apply (Hnone (S i)).
Qed.

(** A word the output does not contain counts zero. *)
Theorem parseCount_absent word stdout :
  ~ contains stdout word -> parseCount word stdout = 0.
Proof.
  intros Hno. unfold parseCount. rewrite firstMatch_none; [reflexivity |].
  intros i. apply countAt_no_word.
  destruct (startsWith word (drop i stdout)) eqn:E; [| reflexivity].
  exfalso. apply Hno. apply startsWith_true in E as [rest E].
  exists (take i stdout), rest. rewrite <- E. now rewrite take_drop.
Qed.

Lemma parseInt10_nonneg ds acc :
  0 <= acc -> Forall (fun c => isDigit c = true) ds ->
  0 <= fold_left (fun a c => 10 * a + (Z.of_N c - 48)) ds acc.
Proof.
  intros Hacc Hds. revert acc Hacc.
  induction Hds as [|c ds Hc _ IH]; intros acc Hacc; cbn; [exact Hacc |].
  apply IH. unfold isDigit in Hc. apply andb_true_iff in Hc as [H1 _].
  apply N.leb_le in H1. lia.
Qed.

Lemma takeWhile_all f s : Forall (fun c => f c = true) (takeWhile f s).
Proof.
  induction s as [|c s IH]; cbn; [constructor |].
  destruct (f c) eqn:E; [now constructor | constructor].
Qed.

Lemma firstMatch_some {A} (matchAt : jsstring -> option A) s x :
  firstMatch matchAt s = Some x -> exists t, matchAt t = Some x.
Proof.
  induction s as [|c s IH]; cbn.
  - destruct (matchAt []) eqn:E; [intros [= <-]; eauto | discriminate].
  - destruct (matchAt (c :: s)) eqn:E; [intros [= <-]; eauto | exact IH].
Qed.

Lemma parseCount_nonneg word stdout : 0 <= parseCount word stdout.
Proof.
  unfold parseCount.
  destruct (firstMatch (countAt word) stdout) as [digits|] eqn:E; [| lia].
  apply firstMatch_some in E as [t E]. unfold countAt in E.
  destruct (startsWith word t); [| discriminate].
  destruct (_ <? _)%nat; [| discriminate].
  destruct (takeWhile isDigit _) as [|d ds] eqn:Et; [discriminate |].
  injection E as <-. unfold parseInt10. apply parseInt10_nonneg; [lia |].
  rewrite <- Et. apply takeWhile_all.
Qed.

(** *** The title of a finding *)

(** The title and the link of a finding come from one and the same
    entry of [via], the first object that has a [title] key: the title
    is the string the key holds, and "Transitive vulnerability" when it
    holds [null]; the link is the url of that entry, and empty when it
    has none. A finding without such an entry, one that only names the
    dependencies it is inherited from, is a "Transitive vulnerability"
    without a link. *)
Theorem toVulnerability_via name v :
  (Forall (fun item => match item with
                       | ViaName _ => True
                       | ViaAdvisory held _ => held = None
                       end) (raw_via v) ->
     title (toVulnerability (name, v)) = lit "Transitive vulnerability"
     /\ url (toVulnerability (name, v)) = [])
  /\ (forall pre held u post,
        raw_via v = pre ++ ViaAdvisory (Some held) u :: post ->
        Forall (fun item => match item with
                            | ViaName _ => True
                            | ViaAdvisory other _ => other = None
                            end) pre ->
        title (toVulnerability (name, v))
        = default (lit "Transitive vulnerability") held
        /\ url (toVulnerability (name, v)) = default [] u).
Proof.
  assert (forall l,
            Forall (fun item => match item with
                                | ViaName _ => True
                                | ViaAdvisory held _ => held = None
                                end) l ->
            Forall (fun item => isDirectVia item = false) l) as Hnot.
  { intros l Hl. eapply List.Forall_impl; [| exact Hl].
    intros [dependency | held u] H; [reflexivity | now subst]. }
  cbn [toVulnerability title url]. split.
  - intros Hall. apply Hnot in Hall.
    assert (List.find isDirectVia (raw_via v) = None) as ->; [| now split].
    induction Hall as [|item l Hitem _ IH]; cbn; [reflexivity |].
    now rewrite Hitem.
  - intros pre held u post -> Hpre. apply Hnot in Hpre.
    assert (List.find isDirectVia (pre ++ ViaAdvisory (Some held) u :: post)
            = Some (ViaAdvisory (Some held) u)) as ->.
    { induction Hpre as [|item l Hitem _ IH]; cbn; [reflexivity |].
      now rewrite Hitem. }
    split; [now destruct held | now destruct u].
Qed.

(** An advisory whose title is [null] hides the titled one after it. *)
Example toVulnerability_null_title :
  toVulnerability
    (lit "pkg",
     {| raw_severity := lit "high";
        raw_via := [ViaAdvisory (Some None) (Some (lit "https://a.example"));
                    ViaAdvisory (Some (Some (lit "Real")))
                      (Some (lit "https://b.example"))];
        raw_range := lit "*";
        raw_fixAvailable := FixFlag true |})
  = {| name := lit "pkg"; severity := lit "high";
       title := lit "Transitive vulnerability";
       url := lit "https://a.example";
       range := lit "*"; fixAvailable := FixFlag true |}.
Proof. reflexivity. Qed.

Lemma startsWith_other c word d s :
  c <> d -> startsWith (c :: word) (d :: s) = false.
Proof.
  intros Hne. cbn. unfold code_eqb.
  destruct (N.eqb_spec c d); [contradiction | reflexivity].
Qed.

Lemma startsWith_not_before c word pre s i :
  ~ In c pre -> (i < length pre)%nat ->
  startsWith (c :: word) (drop i (pre ++ s)) = false.
Proof.
  revert i. induction pre as [|d pre IH]; intros i Hno Hi; [cbn in Hi; lia |].
  destruct i as [|i].
  - cbn [drop app]. apply startsWith_other. intros ->. apply Hno. now left.
  - cbn [drop app]. apply IH; [| cbn in Hi; lia].
    intros Hin. apply Hno. now right.
Qed.

Lemma digit_not_letter n c :
  0 <= n -> (57 < c)%N -> ~ In c (numberToString n).
Proof.
  intros Hn Hc Hin. destruct (numberToString_digits n Hn) as [_ Hd].
  rewrite List.Forall_forall in Hd. apply Hd in Hin.
  unfold isDigit in Hin. apply andb_true_iff in Hin as [_ H].
  apply N.leb_le in H. lia.
Qed.

(** The summary line of npm, [added A, removed R, changed C], is read
    back as the three counts [A], [R] and [C], for counts below 2^53,
    where the number type holds every integer. *)
Theorem parseCount_summary_line a r c rest :
  0 <= a < 2 ^ 53 -> 0 <= r < 2 ^ 53 -> 0 <= c < 2 ^ 53 ->
  match rest with d :: _ => isDigit d = false | [] => True end ->
  let line :=
    lit "added " ++ numberToString a ++ lit ", removed " ++ numberToString r
      ++ lit ", changed " ++ numberToString c ++ rest in
  parseCount (lit "added") line = a
  /\ parseCount (lit "removed") line = r
  /\ parseCount (lit "changed") line = c.
Proof.
  intros [Ha _] [Hr _] [Hc _] Hrest line. subst line.
  assert (Forall (fun d => isWhiteSpace d = true) (lit " ")) as Hws
    by (repeat constructor).
  repeat split.
  - apply (parseCount_reads (lit "added") [] (lit " ") a
             (lit ", removed " ++ numberToString r ++ lit ", changed "
                ++ numberToString c ++ rest)); auto.
    + cbn. intros i Hi. lia.
    + reflexivity.
  - replace (lit "added " ++ numberToString a ++ lit ", removed "
               ++ numberToString r ++ lit ", changed " ++ numberToString c
               ++ rest)
      with ((lit "added " ++ numberToString a ++ lit ", ")
              ++ lit "removed" ++ lit " " ++ numberToString r
              ++ lit ", changed " ++ numberToString c ++ rest)
      by (rewrite <- !app_assoc; reflexivity).
    apply parseCount_reads; auto.
    + intros i Hi. apply startsWith_not_before; [| exact Hi].
      rewrite !in_app_iff. intros [H | [H | H]].
      * cbn in H. intuition discriminate.
      * revert H. apply digit_not_letter; [exact Ha | reflexivity].
      * cbn in H. intuition discriminate.
    + reflexivity.
  - replace (lit "added " ++ numberToString a ++ lit ", removed "
               ++ numberToString r ++ lit ", changed " ++ numberToString c
               ++ rest)
      with ((lit "added " ++ numberToString a ++ lit ", removed "
               ++ numberToString r ++ lit ", ")
              ++ lit "changed" ++ lit " " ++ numberToString c ++ rest)
      by (rewrite <- !app_assoc; reflexivity).
    apply parseCount_reads; auto.
    + intros i Hi. apply startsWith_not_before; [| exact Hi].
      rewrite !in_app_iff. intros [H | [H | [H | [H | H]]]].
      * cbn in H. intuition discriminate.
      * revert H. apply digit_not_letter; [exact Ha | reflexivity].
      * cbn in H. intuition discriminate.
      * revert H. apply digit_not_letter; [exact Hr | reflexivity].
      * cbn in H. intuition discriminate.
Qed.

(** *** The runs of the two commands *)

Section WithWorld.

Context {World : Type}.
Variable execSync : jsstring -> M World jsstring.
Variable parseReport : jsstring -> option (option (list (jsstring * RawFinding))).

(** The exit status of [npm audit] does not matter: a run that fails
    with some captured output gives the result of a run that returns
    the same output. *)
Theorem runAudit_exit_status w1 w1' w2 w2' stdout execErr :
  execSync (lit "npm audit --json") w1 = (inr stdout, w1') ->
  execSync (lit "npm audit --json") w2 = (inl execErr, w2') ->
  thrown_stdout execErr = Some stdout ->
  stdout <> [] ->
  fst (runAudit execSync parseReport w1) = fst (runAudit execSync parseReport w2).
Proof.
  intros H1 H2 Hout Hne.
  unfold runAudit, captureStdout, tryCatch, bind, ret.
  rewrite H1, H2, Hout. destruct stdout as [|c out]; [contradiction |].
  cbn [truthy].
  destruct (parseReport (c :: out)) as [[entries|]|]; reflexivity.
Qed.

(** [runAudit] degrades to the empty result, without throwing, when
    the command fails without captured output, when the output cannot
    be parsed, and when the parsed report has no findings field. *)
Theorem runAudit_degrades w outcome w' :
  execSync (lit "npm audit --json") w = (outcome, w') ->
  match outcome with
  | inl execErr =>
      truthy (thrown_stdout execErr) = false
      \/ (exists stdout,
            thrown_stdout execErr = Some stdout
            /\ (parseReport stdout = None \/ parseReport stdout = Some None))
  | inr stdout => parseReport stdout = None \/ parseReport stdout = Some None
  end ->
  runAudit execSync parseReport w = (inr emptyResult, w').
Proof.
  intros Hexec Hout.
  unfold runAudit, captureStdout, tryCatch, bind, ret. rewrite Hexec.
  destruct outcome as [execErr | stdout].
  - destruct Hout as [Hnone | [stdout [Hs Hp]]].
    + now rewrite Hnone.
    + rewrite Hs. destruct stdout as [|c out]; [reflexivity |].
      cbn [truthy]. destruct Hp as [-> | ->]; reflexivity.
  - destruct Hout as [-> | ->]; reflexivity.
Qed.

(** [runAuditFix] never throws, and the guard around its whole body
    never fires: it reports success without an error, or a failure
    with all counts at zero and one of the two messages of the failed
    command. No count is ever negative. *)
Theorem runAuditFix_returns force w :
  exists r w',
    runAuditFix execSync parseReport force w = (inr r, w')
    /\ (success r = true <-> error r = None)
    /\ 0 <= added r /\ 0 <= removed r /\ 0 <= changed r
    /\ 0 <= fixedVulnerabilities r /\ 0 <= remainingVulnerabilities r
    /\ (success r = false ->
        added r = 0 /\ removed r = 0 /\ changed r = 0
        /\ fixedVulnerabilities r = 0
        /\ (error r = Some (lit "Could not resolve dependencies. Try with --force.")
            \/ error r = Some (lit "npm audit fix failed"))).
Proof.
  destruct (runAudit_cases execSync parseReport w) as [before [w1 [Hbefore _]]].
  unfold runAuditFix, tryCatch at 1, bind. rewrite Hbefore.
  unfold tryCatch, bind, ret.
  destruct (execSync (fixCommand force) w1) as [[execErr | stdout] w2];
    [destruct (thrown_stdout execErr) as [[|c out]|] eqn:Hout |];
    try (destruct (runAudit_cases execSync parseReport w2)
           as [after [w3 [Hafter _]]]; rewrite Hafter);
    (eexists; eexists; split; [reflexivity |]);
    cbn [fixFailed success error added removed changed fixedVulnerabilities
         remainingVulnerabilities];
    repeat split; try apply parseCount_nonneg; try lia; try discriminate;
    destruct (includes _ _); auto.
Qed.

End WithWorld.

(** *** Runs of the unit tests *)

(** The mock of "should handle npm audit non-zero exit with valid JSON
    stdout": the world says whether the command exits with a non-zero
    status; the report is on the standard output in both cases. *)
Definition auditExits (report : jsstring) (cmd : jsstring) : M bool jsstring :=
  fun failing =>
    if failing
    then (inl {| thrown_stdout := Some report;
                 thrown_stderr := None;
                 thrown_message := Some (lit "Command failed") |}, failing)
    else (inr report, failing).

(** The mock of "should handle complete failure gracefully". *)
Definition auditFails (cmd : jsstring) : M unit jsstring :=
  fun w => (inl eresolveFixError, w).

Example parseCount_reads_removed :
  parseCount (lit "removed")
    (lit "added 2, " ++ lit "removed" ++ lit " " ++ numberToString 1
       ++ lit ", changed 5") = 1.
Proof.
  apply (parseCount_reads (lit "removed") (lit "added 2, ") (lit " ") 1
           (lit ", changed 5")).
  - intros i Hi. do 9 (destruct i as [|i]; [reflexivity |]).
    vm_compute in Hi. lia.
  - discriminate.
  - repeat constructor.
  - lia.
  - reflexivity.
Qed.

Lemma parseCount_absent_witness :
  parseCount (lit "changed") (lit "up to date, audited 120 packages") = 0.
Proof.
  apply parseCount_absent. intros H. apply includes_contains in H.
  vm_compute in H. discriminate.
Defined.

Lemma parseCount_summary_line_witness :
  parseCount (lit "added")
    (lit "added " ++ numberToString 1 ++ lit ", removed " ++ numberToString 0
       ++ lit ", changed " ++ numberToString 2 ++ lit " packages") = 1
  /\ parseCount (lit "removed")
       (lit "added " ++ numberToString 1 ++ lit ", removed " ++ numberToString 0
          ++ lit ", changed " ++ numberToString 2 ++ lit " packages") = 0
  /\ parseCount (lit "changed")
       (lit "added " ++ numberToString 1 ++ lit ", removed " ++ numberToString 0
          ++ lit ", changed " ++ numberToString 2 ++ lit " packages") = 2.
Proof.
  apply (parseCount_summary_line 1 0 2 (lit " packages")); try lia.
  reflexivity.
Defined.

Lemma runAudit_exit_status_witness :
  fst (runAudit (auditExits reportThree) readReport false)
  = fst (runAudit (auditExits reportThree) readReport true).
Proof.
  apply (runAudit_exit_status (auditExits reportThree) readReport
           false false true true reportThree
           {| thrown_stdout := Some reportThree;
              thrown_stderr := None;
              thrown_message := Some (lit "Command failed") |}).
  - reflexivity.
  - reflexivity.
  - reflexivity.
  - discriminate.
Defined.

Lemma runAudit_degrades_witness :
  runAudit auditFails readReport tt = (inr emptyResult, tt).
Proof.
  apply (runAudit_degrades auditFails readReport tt (inl eresolveFixError) tt).
  - reflexivity.
  - left. reflexivity.
Defined.

End AuditProperties.

(** ** services/outdated.ts: further properties *)

Module OutdatedProperties.

Import Outdated.

Section WithWorld.

Context {World : Type}.
Variable readPackageJson : M World Updater.PackageJson.
Variable execSync : jsstring -> M World jsstring.
Variable parseReport : jsstring -> option (list (jsstring * RawOutdated)).
Variable localeCompare : jsstring -> jsstring -> Z.

(** What was captured of a run of the command: its standard output,
    whether it returned or failed. *)
Definition captured (outcome : Thrown + jsstring) : option jsstring :=
  match outcome with
  | inr stdout => Some stdout
  | inl execErr =>
      if truthy (thrown_stdout execErr) then thrown_stdout execErr else None
  end.

(** Every entry of the report comes back exactly once, whatever the
    collation of names is and whatever the exit status of the command:
    the packages of the result are a rearrangement of the entries, each
    with the wanted and latest versions of the report, and [total]
    counts them. Here [localeCompare] is any function at all. *)
Theorem getOutdated_complete w pkgJson w1 outcome w2 stdout entries :
  readPackageJson w = (inr pkgJson, w1) ->
  execSync (lit "npm outdated --json") w1 = (outcome, w2) ->
  captured outcome = Some stdout ->
  parseReport stdout = Some entries ->
  exists r,
    getOutdated readPackageJson execSync parseReport localeCompare w
    = (inr r, w2)
    /\ Permutation (packages r)
         (List.map (toPackage (devDepsOf pkgJson)) entries)
    /\ Permutation (List.map (fun p => (name p, wanted p, latest p)) (packages r))
         (List.map (fun e => (fst e, raw_wanted (snd e), raw_latest (snd e)))
            entries)
    /\ total r = length entries.
Proof.
  intros Hread Hexec Hcap Hparse.
  assert (getOutdated readPackageJson execSync parseReport localeCompare w
          = (inr (match entries with
                  | [] => emptyResult
                  | _ => normalize localeCompare (devDepsOf pkgJson) entries
                  end), w2)) as ->.
  { unfold getOutdated, tryCatch at 1, bind. rewrite Hread.
    unfold captureStdout, tryCatch, bind, ret. rewrite Hexec.
    destruct outcome as [execErr | out]; cbn [captured] in Hcap.
    - destruct (truthy (thrown_stdout execErr)); [| discriminate].
      rewrite Hcap, Hparse. now destruct entries.
    - injection Hcap as ->. rewrite Hparse. now destruct entries. }
  eexists. split; [reflexivity |].
  assert (Permutation
            (packages (match entries with
                       | [] => emptyResult
                       | _ => normalize localeCompare (devDepsOf pkgJson) entries
                       end))
            (List.map (toPackage (devDepsOf pkgJson)) entries)) as Hperm.
  { destruct entries as [|e es]; [constructor |].
    unfold normalize. cbn [packages]. apply sort_Permutation. }
  split; [exact Hperm |]. split.
  - apply (Permutation_map (fun p => (name p, wanted p, latest p))) in Hperm.
    rewrite List.map_map in Hperm.
    erewrite (List.map_ext _ (fun e => (fst e, raw_wanted (snd e), raw_latest (snd e))))
      in Hperm; [exact Hperm |].
    now intros [n raw].
  - destruct entries as [|e es]; [reflexivity |].
    unfold normalize. cbn [total]. rewrite sort_length. now rewrite length_map.
Qed.

(** [getOutdated] gives the empty result, and never throws, when the
    manifest cannot be read (the command is then not run at all), when
    the command fails without captured output, and when the output
    cannot be parsed. *)
Theorem getOutdated_degrades w :
  (forall e w1,
     readPackageJson w = (inl e, w1) ->
     getOutdated readPackageJson execSync parseReport localeCompare w
     = (inr emptyResult, w1))
  /\ (forall pkgJson w1 outcome w2,
        readPackageJson w = (inr pkgJson, w1) ->
        execSync (lit "npm outdated --json") w1 = (outcome, w2) ->
        match captured outcome with
        | None => True
        | Some stdout => parseReport stdout = None \/ parseReport stdout = Some []
        end ->
        getOutdated readPackageJson execSync parseReport localeCompare w
        = (inr emptyResult, w2)).
Proof.
  split.
  - intros e w1 Hread. unfold getOutdated, tryCatch at 1, bind.
    now rewrite Hread.
  - intros pkgJson w1 outcome w2 Hread Hexec Hcap.
    unfold getOutdated, tryCatch at 1, bind. rewrite Hread.
    unfold captureStdout, tryCatch, bind, ret, throw. rewrite Hexec.
    destruct outcome as [execErr | out]; cbn [captured] in Hcap.
    + destruct (truthy (thrown_stdout execErr)); [| reflexivity].
      destruct (thrown_stdout execErr) as [stdout|]; [| reflexivity].
      destruct Hcap as [-> | ->]; reflexivity.
    + destruct Hcap as [-> | ->]; reflexivity.
Qed.

End WithWorld.

(** A package that is not installed has no current version in the
    report and is listed as MISSING. *)
Example toPackage_missing :
  current (toPackage (devDepsOf basePkgJson)
             (lit "chalk",
              {| raw_current := None; raw_wanted := lit "5.3.0";
                 raw_latest := lit "5.3.0"; raw_location := None |}))
  = lit "MISSING".
Proof. reflexivity. Qed.

Lemma getOutdated_complete_witness :
  exists r,
    getOutdated (ret basePkgJson) (fun _ => throw outdatedExit1) readOutdated
      codeUnitCompare tt = (inr r, tt)
    /\ Permutation (packages r)
         (List.map (toPackage (devDepsOf basePkgJson)) outdatedEntries)
    /\ Permutation (List.map (fun p => (name p, wanted p, latest p)) (packages r))
         (List.map (fun e => (fst e, raw_wanted (snd e), raw_latest (snd e)))
            outdatedEntries)
    /\ total r = length outdatedEntries.
Proof.
  apply (getOutdated_complete (ret basePkgJson) (fun _ => throw outdatedExit1)
           readOutdated codeUnitCompare tt basePkgJson tt
           (inl outdatedExit1) tt outdatedReport outdatedEntries);
    reflexivity.
Defined.

End OutdatedProperties.

(** ** commands/update.ts and utils/display.ts: [isMajorUpdate] *)

Module Versions.

Definition DOT : N := 46.

(** [[^0-9]] *)
Definition notDigit (c : N) : bool := negb (isDigit c).

(** [s.replace(/^[^0-9]*/, "")]: the expression always matches at the
    start of the string, and takes every code unit up to the first
    digit. *)
Definition stripNonDigits (s : jsstring) : jsstring := dropWhile notDigit s.

(** [parseInt(s, 10)]: leading white space is skipped, a sign is read,
    and the digits that follow are the value; [NaN] when there is none.
    (Exact below 2^53, where the number type has every integer.) *)
Definition parseInt (s : jsstring) : number :=
  let body := trimStart s in
  let '(sign, unsigned) :=
    match body with
    | c :: r =>
        if (c =? 45)%N then (-1, r)
        else if (c =? 43)%N then (1, r)
        else (1, body)
    | [] => (1, [])
    end in
  match takeWhile isDigit unsigned with
  | [] => None
  | ds => Some (sign * parseInt10 ds)
  end.

Definition isNaN (a : number) : bool :=
  match a with
  | None => true
  | Some _ => false
  end.

(** [a > b] *)
Definition greater (a b : number) : bool :=
  match a, b with
  | Some x, Some y => y <? x
  | _, _ => false
  end.

(** [parseInt(v.replace(/^[^0-9]*/, "").split(".")[0], 10)] *)
Definition majorOf (v : jsstring) : number :=
  parseInt (hd [] (split DOT (stripNonDigits v))).

Definition isMajorUpdate (current latest : jsstring) : bool :=
  let currentMajor := majorOf current in
  let latestMajor := majorOf latest in
  negb (isNaN currentMajor) && negb (isNaN latestMajor)
  && greater latestMajor currentMajor.

(** *** The major number of a version *)

Lemma hd_split sep s d :
  hd d (split sep s) = takeWhile (fun c => negb (code_eqb c sep)) s.
Proof.
  induction s as [|c s IH]; cbn; [reflexivity |].
  destruct (code_eqb c sep); cbn; [reflexivity |].
  destruct (split sep s) as [|l ls] eqn:E.
  - now destruct (split_not_nil sep s).
  - cbn in *. now rewrite IH.
Qed.

Lemma takeWhile_takeWhile (f g : N -> bool) s :
  (forall c, f c = true -> g c = true) ->
  takeWhile f (takeWhile g s) = takeWhile f s.
Proof.
  intros Hfg. induction s as [|c s IH]; cbn; [reflexivity |].
  destruct (g c) eqn:Hg; cbn.
  - destruct (f c); [now rewrite IH | reflexivity].
  - destruct (f c) eqn:Hf; [| reflexivity].
    apply Hfg in Hf. congruence.
Qed.

Lemma digit_range c : isDigit c = true <-> (48 <= c <= 57)%N.
Proof.
  unfold isDigit. rewrite andb_true_iff, !N.leb_le. tauto.
Qed.

Lemma digit_not_space c : isDigit c = true -> isWhiteSpace c = false.
Proof.
  rewrite digit_range. intros Hc. unfold isWhiteSpace.
  repeat match goal with
         | |- context [(?a <=? ?b)%N] => destruct (N.leb_spec a b); try lia
         | |- context [(?a =? ?b)%N] => destruct (N.eqb_spec a b); try lia
         end; reflexivity.
Qed.

(** The digits a version starts with, once what stands before its
    first digit is set aside. *)
Definition leadingDigits (v : jsstring) : jsstring :=
  takeWhile isDigit (stripNonDigits v).

(** Cutting the version at its first dot changes nothing: the major
    number is the number its leading digits write. *)
Lemma majorOf_digits v :
  majorOf v = match leadingDigits v with
              | [] => None
              | ds => Some (parseInt10 ds)
              end.
Proof.
  unfold majorOf, leadingDigits, stripNonDigits. rewrite hd_split.
  pose proof (dropWhile_head notDigit v) as Hhead.
  destruct (dropWhile notDigit v) as [|d r]; [reflexivity |].
  unfold notDigit in Hhead. apply negb_false_iff in Hhead.
  pose proof (proj1 (digit_range d) Hhead) as Hd.
  cbn [takeWhile]. unfold code_eqb, DOT.
  destruct (N.eqb_spec d 46); [lia |]. cbn [negb].
  unfold parseInt, trimStart. cbn [dropWhile].
  rewrite (digit_not_space d Hhead).
  destruct (N.eqb_spec d 45); [lia |]. destruct (N.eqb_spec d 43); [lia |].
  cbn [takeWhile]. rewrite Hhead.
  rewrite takeWhile_takeWhile.
  - f_equal. lia.
  - intros c Hc. apply digit_range in Hc. unfold code_eqb.
    destruct (N.eqb_spec c 46); [lia | reflexivity].
Qed.

Lemma isMajorUpdate_spec current latest :
  isMajorUpdate current latest = true <->
  exists m n, majorOf current = Some m /\ majorOf latest = Some n /\ m < n.
Proof.
  unfold isMajorUpdate.
  destruct (majorOf current) as [m|], (majorOf latest) as [n|]; cbn.
  - rewrite Z.ltb_lt. split.
    + intros H. exists m, n. auto.
    + intros [m' [n' [[= <-] [[= <-] H]]]]. exact H.
  - split; [discriminate | intros [m' [n' [_ [H _]]]]; discriminate].
  - split; [discriminate | intros [m' [n' [H _]]]; discriminate].
  - split; [discriminate | intros [m' [n' [H _]]]; discriminate].
Qed.

Lemma majorOf_no_digits v :
  Forall (fun c => isDigit c = false) v -> majorOf v = None.
Proof.
  intros Hv. rewrite majorOf_digits. unfold leadingDigits, stripNonDigits.
  assert (dropWhile notDigit v = []) as ->; [| reflexivity].
  induction Hv as [|c v Hc _ IH]; cbn; [reflexivity |].
  unfold notDigit at 1. now rewrite Hc.
Qed.

Lemma majorOf_version prefix m rest :
  Forall (fun c => isDigit c = false) prefix ->
  0 <= m ->
  match rest with c :: _ => isDigit c = false | [] => True end ->
  majorOf (prefix ++ numberToString m ++ rest) = Some m.
Proof.
  intros Hp Hm Hrest. rewrite majorOf_digits.
  destruct (numberToString_digits m Hm) as [Hne Hdigits].
  unfold leadingDigits, stripNonDigits.
  rewrite dropWhile_app.
  - rewrite takeWhile_app by assumption.
    destruct (numberToString m) eqn:E; [contradiction |].
    rewrite <- E. now rewrite parseInt10_numberToString.
  - eapply List.Forall_impl; [| exact Hp].
    intros c Hc. unfold notDigit. now rewrite Hc.
  - destruct (numberToString m) as [|d ds]; [contradiction |].
    apply Forall_cons in Hdigits as [Hd _]. cbn. unfold notDigit.
    now rewrite Hd.
Qed.

(** *** Properties of [isMajorUpdate] *)

(** [isMajorUpdate] is a strict order on version strings: no version
    is a major update of itself, two versions are never major updates
    of each other, and major updates compose. *)
Theorem isMajorUpdate_strict_order :
  (forall v, isMajorUpdate v v = false)
  /\ (forall a b, isMajorUpdate a b = true -> isMajorUpdate b a = false)
  /\ (forall a b c,
        isMajorUpdate a b = true -> isMajorUpdate b c = true ->
        isMajorUpdate a c = true).
Proof.
  repeat split.
  - intros v. destruct (isMajorUpdate v v) eqn:E; [| reflexivity].
    apply isMajorUpdate_spec in E as [m [n [Hm [Hn Hlt]]]].
    rewrite Hm in Hn. injection Hn as <-. lia.
  - intros a b Hab. destruct (isMajorUpdate b a) eqn:E; [| reflexivity].
    apply isMajorUpdate_spec in Hab as [m [n [Hm [Hn Hlt]]]].
    apply isMajorUpdate_spec in E as [n' [m' [Hn' [Hm' Hlt']]]].
    rewrite Hm in Hm'. rewrite Hn in Hn'.
    injection Hm' as <-. injection Hn' as <-. lia.
  - intros a b c Hab Hbc.
    apply isMajorUpdate_spec in Hab as [m [n [Hm [Hn Hlt]]]].
    apply isMajorUpdate_spec in Hbc as [n' [k [Hn' [Hk Hlt']]]].
    rewrite Hn in Hn'. injection Hn' as <-.
    apply isMajorUpdate_spec. exists m, k. repeat split; auto. lia.
Qed.

(** A string without a digit is on neither side of a major update. *)
Theorem isMajorUpdate_no_digits v other :
  Forall (fun c => isDigit c = false) v ->
  isMajorUpdate v other = false /\ isMajorUpdate other v = false.
Proof.
  intros Hv. unfold isMajorUpdate. rewrite (majorOf_no_digits v Hv).
  split; [reflexivity |].
  destruct (majorOf other); reflexivity.
Qed.

(** On versions written as a range prefix without digits, the major
    number, and a rest that starts with a dot or any other non-digit,
    an update is major exactly when the major number grows. (The
    bound is that of the integers the number type holds exactly.) *)
Theorem isMajorUpdate_versions p1 m r1 p2 n r2 :
  Forall (fun c => isDigit c = false) p1 ->
  Forall (fun c => isDigit c = false) p2 ->
  0 <= m < 2 ^ 53 -> 0 <= n < 2 ^ 53 ->
  match r1 with c :: _ => isDigit c = false | [] => True end ->
  match r2 with c :: _ => isDigit c = false | [] => True end ->
  isMajorUpdate (p1 ++ numberToString m ++ r1) (p2 ++ numberToString n ++ r2)
  = (m <? n).
Proof.
  intros Hp1 Hp2 Hm Hn Hr1 Hr2. unfold isMajorUpdate.
  rewrite (majorOf_version p1 m r1), (majorOf_version p2 n r2)
    by (assumption || lia).
  reflexivity.
Qed.

(** A package that is not installed is listed with the current
    version MISSING, which is never the start of a major update,
    whatever the latest version is. *)
Theorem not_installed_never_major devDeps name raw :
  Outdated.raw_current raw = None ->
  Outdated.current (Outdated.toPackage devDeps (name, raw)) = lit "MISSING"
  /\ isMajorUpdate (Outdated.current (Outdated.toPackage devDeps (name, raw)))
       (Outdated.latest (Outdated.toPackage devDeps (name, raw))) = false
  /\ forall latest,
       isMajorUpdate (Outdated.current (Outdated.toPackage devDeps (name, raw)))
         latest = false.
Proof.
  intros Hraw. cbn [Outdated.toPackage Outdated.current Outdated.latest].
  rewrite Hraw. cbn [default].
  assert (forall latest, isMajorUpdate (lit "MISSING") latest = false) as Hnever.
  { intros latest. unfold isMajorUpdate.
    rewrite (majorOf_no_digits (lit "MISSING")); [reflexivity |].
    change (lit "MISSING") with [77; 73; 83; 83; 73; 78; 71]%N.
    repeat constructor. }
  split; [reflexivity |]. split; [apply Hnever | exact Hnever].
Qed.

(** The versions of the unit tests. *)
Example isMajorUpdate_tests :
  isMajorUpdate (lit "4.18.0") (lit "5.0.0") = true
  /\ isMajorUpdate (lit "4.17.0") (lit "4.17.21") = false
  /\ isMajorUpdate (lit "^1.0.0") (lit "2.0.0") = true
  /\ isMajorUpdate (lit "2.0.0") (lit "1.9.9") = false
  /\ isMajorUpdate (lit "MISSING") (lit "5.3.0") = false
  /\ isMajorUpdate (lit "9.9.9") (lit "10.0.0") = true.
Proof. repeat split; vm_compute; reflexivity. Qed.

Lemma isMajorUpdate_no_digits_witness :
  isMajorUpdate (lit "MISSING") (lit "5.3.0") = false
  /\ isMajorUpdate (lit "5.3.0") (lit "MISSING") = false.
Proof.
  apply (isMajorUpdate_no_digits (lit "MISSING") (lit "5.3.0")).
  change (lit "MISSING") with [77; 73; 83; 83; 73; 78; 71]%N.
  repeat constructor.
Defined.

Lemma isMajorUpdate_versions_witness :
  isMajorUpdate (lit "^" ++ numberToString 9 ++ lit ".9.9")
    ([] ++ numberToString 10 ++ lit ".0.0")
  = (9 <? 10).
Proof.
  apply (isMajorUpdate_versions (lit "^") 9 (lit ".9.9") [] 10 (lit ".0.0")).
  - change (lit "^") with [94%N]. repeat constructor.
  - constructor.
  - lia.
  - lia.
  - reflexivity.
  - reflexivity.
Defined.

Definition chalkEntry : jsstring * Outdated.RawOutdated :=
  (lit "chalk",
   {| Outdated.raw_current := None; Outdated.raw_wanted := lit "5.3.0";
      Outdated.raw_latest := lit "5.3.0"; Outdated.raw_location := None |}).

Lemma not_installed_never_major_witness :
  Outdated.current
    (Outdated.toPackage (Outdated.devDepsOf Outdated.basePkgJson) chalkEntry)
  = lit "MISSING"
  /\ isMajorUpdate
       (Outdated.current
          (Outdated.toPackage (Outdated.devDepsOf Outdated.basePkgJson) chalkEntry))
       (Outdated.latest
          (Outdated.toPackage (Outdated.devDepsOf Outdated.basePkgJson) chalkEntry))
     = false
  /\ forall latest,
       isMajorUpdate
         (Outdated.current
            (Outdated.toPackage (Outdated.devDepsOf Outdated.basePkgJson)
               chalkEntry))
         latest = false.
Proof.
  apply (not_installed_never_major (Outdated.devDepsOf Outdated.basePkgJson)
           (lit "chalk") (snd chalkEntry)).
  reflexivity.
Defined.

End Versions.

(** ** services/registry.ts: further properties *)

Module RegistryProperties.

Import Registry.

(** *** The deprecation notice *)

(** The document with one more entry in [versions]. *)
Definition withVersion (doc : PackageDocument) (v : jsstring) (info : VersionInfo)
  : PackageDocument :=
  {| doc_latest := doc_latest doc;
     doc_time := doc_time doc;
     doc_versions := Some (<[v := info]> (default ∅ (doc_versions doc))) |}.

(** What the registry says of a version other than the latest changes
    nothing. *)
Lemma deprecatedOf_other_version doc v info :
  doc_latest doc <> Some v ->
  deprecatedOf (withVersion doc v info) = deprecatedOf doc.
Proof.
  intros Hv. unfold deprecatedOf, withVersion.
  cbn [doc_latest doc_versions].
  destruct (doc_latest doc) as [[|c latest]|]; try reflexivity.
  rewrite lookup_insert_ne by congruence.
  destruct (doc_versions doc) as [versions|]; [reflexivity |].
  cbn [default]. now rewrite lookup_empty.
Qed.

Lemma deprecatedOf_iff doc msg :
  deprecatedOf doc = Some msg
  <-> msg <> []
      /\ exists latest versions info,
           doc_latest doc = Some latest /\ latest <> []
           /\ doc_versions doc = Some versions
           /\ versions !! latest = Some info
           /\ version_deprecated info = Some msg.
Proof.
  unfold deprecatedOf. split.
  - destruct (doc_latest doc) as [[|c latest]|]; try discriminate.
    destruct (doc_versions doc) as [versions|]; [| discriminate].
    destruct (versions !! (c :: latest)) as [info|] eqn:Hv; [| discriminate].
    destruct (version_deprecated info) as [[|d notice]|] eqn:Hd;
      cbn [truthy]; try discriminate.
    intros [= <-]. split; [discriminate |].
    exists (c :: latest), versions, info. repeat split; auto.
  - intros [Hmsg [latest [versions [info [-> [Hlatest [-> [Hv Hd]]]]]]]].
    destruct latest as [|c latest]; [contradiction |].
    rewrite Hv, Hd. destruct msg as [|d notice]; [contradiction |].
    reflexivity.
Qed.

(** *** Age labels *)

(** From 731 days on, the label counts at least two years. *)
Lemma ageLabel_years d :
  d > 730 * DAY_MS ->
  exists years,
    2 <= years
    /\ (ageLabel d = numberToString years ++ lit " years ago"
        \/ exists months,
             1 <= months <= 11
             /\ ageLabel d = numberToString years ++ lit "y "
                              ++ numberToString months ++ lit "m ago").
Proof.
  intros Hd. unfold ageLabel.
  assert (2 <= d / (360 * DAY_MS)) as Hyears
    by (apply Z.div_le_lower_bound; unfold DAY_MS in *; lia).
  destruct (Z.ltb_spec d (30 * DAY_MS)); [unfold DAY_MS in *; lia |].
  destruct (Z.ltb_spec d (360 * DAY_MS)); [unfold DAY_MS in *; lia |].
  exists (d / (360 * DAY_MS)). split; [exact Hyears |].
  destruct (Z.eqb_spec (d / (30 * DAY_MS) mod 12) 0) as [Hz | Hnz].
  - left. destruct (Z.eqb_spec (d / (360 * DAY_MS)) 1); [lia | reflexivity].
  - right. exists (d / (30 * DAY_MS) mod 12). split; [| reflexivity].
    pose proof (Z.mod_pos_bound (d / (30 * DAY_MS)) 12). lia.
Qed.

Section WithWorld.

Context {World : Type}.
Variable dateNow : World -> Z * World.
Variable getTime : jsstring -> number.
Variable encodeURIComponent : jsstring -> option jsstring.
Variable fetch : jsstring -> M World Response.

(** A lookup gives no record exactly when the name cannot be encoded,
    the request fails, the response is not [ok], or its body cannot be
    read; every readable document gives a record, whatever fields it
    lacks. *)
Theorem getPackageMetadata_null packageName w w' :
  getPackageMetadata dateNow getTime encodeURIComponent fetch packageName w
  = (inr None, w')
  <-> (encodeURIComponent packageName = None /\ w' = w)
      \/ exists encoded,
           encodeURIComponent packageName = Some encoded
           /\ ((exists e,
                  fetch (lit "https://registry.npmjs.org/" ++ encoded) w
                  = (inl e, w'))
               \/ exists response,
                    fetch (lit "https://registry.npmjs.org/" ++ encoded) w
                    = (inr response, w')
                    /\ (ok response = false \/ body response = None)).
Proof.
  unfold getPackageMetadata, tryCatch, bind, ret, throw.
  destruct (encodeURIComponent packageName) as [encoded|].
  - destruct (fetch (lit "https://registry.npmjs.org/" ++ encoded) w)
      as [[e | response] w1] eqn:Hfetch.
    + split.
      * intros [= <-]. right. exists encoded. split; [reflexivity |].
        left. eauto.
      * intros [[H _] | [enc [Henc Hcases]]]; [discriminate |].
        injection Henc as <-. rewrite Hfetch in Hcases.
        destruct Hcases as [[e' He] | [resp [Hr _]]]; [| discriminate].
        now injection He as _ <-.
    + destruct (ok response) eqn:Hok; cbn [negb];
        [destruct (body response) as [data|] eqn:Hbody |].
      * split.
        -- destruct (lastPublishDateOf data) as [|c date]; [discriminate |].
           unfold infallible at 1. destruct (dateNow w1) as [now w2].
           destruct (formatAge_returns dateNow getTime (c :: date) w2)
             as [label [w3 Hage]].
           rewrite Hage. discriminate.
        -- intros [[H _] | [enc [Henc Hcases]]]; [discriminate |].
           injection Henc as <-. rewrite Hfetch in Hcases.
           destruct Hcases as [[e' He] | [resp [Hr Hno]]]; [discriminate |].
           injection Hr as <- <-. destruct Hno; congruence.
      * split.
        -- intros [= <-]. right. exists encoded. split; [reflexivity |].
           right. exists response. auto.
        -- intros [[H _] | [enc [Henc Hcases]]]; [discriminate |].
           injection Henc as <-. rewrite Hfetch in Hcases.
           destruct Hcases as [[e' He] | [resp [Hr _]]]; [discriminate |].
           now injection Hr as _ <-.
      * split.
        -- intros [= <-]. right. exists encoded. split; [reflexivity |].
           right. exists response. auto.
        -- intros [[H _] | [enc [Henc Hcases]]]; [discriminate |].
           injection Henc as <-. rewrite Hfetch in Hcases.
           destruct Hcases as [[e' He] | [resp [Hr _]]]; [discriminate |].
           now injection Hr as _ <-.
  - split; [intros [= <-]; now left |].
    intros [[_ ->] | [encoded [H _]]]; [reflexivity | discriminate].
Qed.

(** The [deprecated] field of a record is the notice of the latest
    version of the document the registry answered with: it is a string
    exactly when the document names a latest version, has an entry for
    it in [versions], and that entry carries a non-empty notice; the
    field is then that notice. Nothing else in the document matters,
    the notices of other versions included. *)
Theorem getPackageMetadata_deprecated packageName w m w' :
  getPackageMetadata dateNow getTime encodeURIComponent fetch packageName w
  = (inr (Some m), w') ->
  exists encoded response w1 doc,
    encodeURIComponent packageName = Some encoded
    /\ fetch (lit "https://registry.npmjs.org/" ++ encoded) w
       = (inr response, w1)
    /\ body response = Some doc
    /\ forall msg,
         deprecated m = Some msg
         <-> msg <> []
             /\ exists latest versions info,
                  doc_latest doc = Some latest /\ latest <> []
                  /\ doc_versions doc = Some versions
                  /\ versions !! latest = Some info
                  /\ version_deprecated info = Some msg.
Proof.
  unfold getPackageMetadata, tryCatch, bind, ret, throw.
  destruct (encodeURIComponent packageName) as [encoded|]; [| discriminate].
  destruct (fetch _ w) as [[e | response] w1] eqn:Hfetch; [discriminate |].
  destruct (ok response); cbn [negb]; [| discriminate].
  destruct (body response) as [data|] eqn:Hbody; [| discriminate].
  intros Hrun.
  assert (deprecated m = deprecatedOf data) as Hm.
  { destruct (lastPublishDateOf data) as [|c date].
    - now injection Hrun as <- <-.
    - unfold infallible at 1 in Hrun. destruct (dateNow w1) as [now w2].
      destruct (formatAge_returns dateNow getTime (c :: date) w2)
        as [label [w3 Hage]].
      rewrite Hage in Hrun. now injection Hrun as <- <-. }
  exists encoded, response, w1, data.
  split; [reflexivity |]. split; [exact Hfetch |]. split; [exact Hbody |].
  intros msg. rewrite Hm. apply deprecatedOf_iff.
Qed.

(** A publish date the host cannot parse is never stale, and its
    label is made of the not-a-number the subtraction gives. *)
Theorem getPackageMetadata_invalid_date packageName w m w' :
  getPackageMetadata dateNow getTime encodeURIComponent fetch packageName w
  = (inr (Some m), w') ->
  lastPublishDate m <> [] ->
  getTime (lastPublishDate m) = None ->
  isStale m = false /\ lastPublishAge m = lit "NaNy NaNm ago".
Proof.
  unfold getPackageMetadata, tryCatch, bind, ret, throw.
  destruct (encodeURIComponent packageName) as [encoded|]; [| discriminate].
  destruct (fetch _ w) as [[e | response] w1]; [discriminate |].
  destruct (ok response); cbn [negb]; [| discriminate].
  destruct (body response) as [data|]; [| discriminate].
  destruct (lastPublishDateOf data) as [|c date] eqn:Hdate.
  - intros [= <- <-]. cbn [lastPublishDate]. congruence.
  - unfold infallible at 1, formatAge, bind, infallible, ret.
    destruct (dateNow w1) as [now w2]. destruct (dateNow w2) as [now' w3].
    intros [= <- <-] _. cbn [lastPublishDate isStale lastPublishAge].
    intros ->. split; reflexivity.
Qed.

(** With a clock that does not run backwards, a record that is stale
    carries a label of at least two years: the label is read on a
    second look at the clock, after the staleness test. *)
Theorem getPackageMetadata_stale_label packageName w m w' :
  (forall w0 now w1 now' w2,
     dateNow w0 = (now, w1) -> dateNow w1 = (now', w2) -> now <= now') ->
  getPackageMetadata dateNow getTime encodeURIComponent fetch packageName w
  = (inr (Some m), w') ->
  isStale m = true ->
  exists years,
    2 <= years
    /\ (lastPublishAge m = numberToString years ++ lit " years ago"
        \/ exists months,
             1 <= months <= 11
             /\ lastPublishAge m = numberToString years ++ lit "y "
                                     ++ numberToString months ++ lit "m ago").
Proof.
  intros Hclock.
  unfold getPackageMetadata, tryCatch, bind, ret, throw.
  destruct (encodeURIComponent packageName) as [encoded|]; [| discriminate].
  destruct (fetch _ w) as [[e | response] w1]; [discriminate |].
  destruct (ok response); cbn [negb]; [| discriminate].
  destruct (body response) as [data|]; [| discriminate].
  destruct (lastPublishDateOf data) as [|c date] eqn:Hdate.
  - intros [= <- <-]. discriminate.
  - unfold infallible at 1, formatAge, bind, infallible, ret.
    destruct (dateNow w1) as [now w2] eqn:Hnow.
    destruct (dateNow w2) as [now' w3] eqn:Hnow'.
    intros [= <- <-]. cbn [isStale lastPublishAge]. intros Hstale.
    apply stale_iff in Hstale as [t [Ht Hgt]]. rewrite Ht. cbn [numSub].
    rewrite ageOf_ageLabel. apply ageLabel_years.
    pose proof (Hclock w1 now w2 now' w3 Hnow Hnow'). lia.
Qed.

End WithWorld.

(** *** Runs of the unit tests *)

(** The document of "should detect deprecated packages", with an older
    version that carries a notice of its own. *)
Definition deprecatedDoc : PackageDocument :=
  {| doc_latest := Some (lit "2.0.0");
     doc_time := Some {[ lit "2.0.0" := lit "2026-01-01T00:00:00Z" ]};
     doc_versions :=
       Some {[ lit "1.0.0" := {| version_deprecated := Some (lit "Too old") |};
               lit "2.0.0" := {| version_deprecated := Some (lit "Use new-pkg") |} ]} |}.

Definition deprecatedPkg : RegistryMetadata :=
  {| name := lit "old-pkg"; deprecated := Some (lit "Use new-pkg");
     lastPublishDate := lit "2026-01-01T00:00:00Z";
     lastPublishAge := lit "1 month ago"; isStale := false |}.

Lemma getPackageMetadata_deprecated_witness :
  exists encoded response w1 doc,
    Some (lit "old-pkg") = Some encoded
    /\ mockFetch deprecatedDoc (lit "https://registry.npmjs.org/" ++ encoded) tt
       = (inr response, w1)
    /\ body response = Some doc
    /\ forall msg,
         deprecated deprecatedPkg = Some msg
         <-> msg <> []
             /\ exists latest versions info,
                  doc_latest doc = Some latest /\ latest <> []
                  /\ doc_versions doc = Some versions
                  /\ versions !! latest = Some info
                  /\ version_deprecated info = Some msg.
Proof.
  apply (getPackageMetadata_deprecated testClock testGetTime Some
           (mockFetch deprecatedDoc) (lit "old-pkg") tt deprecatedPkg tt).
  vm_compute. reflexivity.
Defined.

(** A notice on an older version alone does not make a package
    deprecated, and neither does an empty notice. *)
Example getPackageMetadata_not_deprecated :
  (exists m,
     getPackageMetadata testClock testGetTime Some
       (mockFetch
          {| doc_latest := Some (lit "2.0.0");
             doc_time := None;
             doc_versions :=
               Some {[ lit "1.0.0" := {| version_deprecated := Some (lit "Too old") |};
                       lit "2.0.0" := {| version_deprecated := Some [] |} ]} |})
       (lit "pkg") tt = (inr (Some m), tt)
     /\ deprecated m = None).
Proof. eexists. split; vm_compute; reflexivity. Qed.

Lemma getPackageMetadata_invalid_date_witness :
  isStale {| name := lit "odd-pkg"; deprecated := None;
             lastPublishDate := lit "yesterday";
             lastPublishAge := lit "NaNy NaNm ago"; isStale := false |} = false
  /\ lastPublishAge {| name := lit "odd-pkg"; deprecated := None;
                       lastPublishDate := lit "yesterday";
                       lastPublishAge := lit "NaNy NaNm ago";
                       isStale := false |} = lit "NaNy NaNm ago".
Proof.
  apply (getPackageMetadata_invalid_date testClock testGetTime Some
           (mockFetch (publishedOn "yesterday")) (lit "odd-pkg") tt _ tt).
  - vm_compute. reflexivity.
  - discriminate.
  - vm_compute. reflexivity.
Defined.

Lemma getPackageMetadata_stale_label_witness :
  exists years,
    2 <= years
    /\ (lastPublishAge stalePkg = numberToString years ++ lit " years ago"
        \/ exists months,
             1 <= months <= 11
             /\ lastPublishAge stalePkg = numberToString years ++ lit "y "
                                            ++ numberToString months
                                            ++ lit "m ago").
Proof.
  apply (getPackageMetadata_stale_label testClock testGetTime Some
           (mockFetch (publishedOn "2023-01-01T00:00:00Z"))
           (lit "stale-pkg") tt stalePkg tt).
  - intros w0 now w1 now' w2 [= <- <-] [= <- <-]. lia.
  - vm_compute. reflexivity.
  - reflexivity.
Defined.

End RegistryProperties.

(** ** commands/scan.ts and utils/display.ts: the scan report *)

Module Scan.

Record ScanReport := {
  audit : Audit.AuditResult;
  outdated : Outdated.OutdatedResult;
  deprecated : list Registry.RegistryMetadata;
  stale : list Registry.RegistryMetadata
}.

(** [m.deprecated !== false] *)
Definition isDeprecated (m : Registry.RegistryMetadata) : bool :=
  match Registry.deprecated m with
  | Some _ => true
  | None => false
  end.

(** [m.isStale && m.deprecated === false] *)
Definition isOnlyStale (m : Registry.RegistryMetadata) : bool :=
  Registry.isStale m && negb (isDeprecated m).

(** The report [scanCommand] hands to [displayFullReport]. *)
Definition buildReport (audit : Audit.AuditResult)
    (outdated : Outdated.OutdatedResult)
    (metadata : list Registry.RegistryMetadata) : ScanReport :=
  {| audit := audit;
     outdated := outdated;
     deprecated := List.filter isDeprecated metadata;
     stale := List.filter isOnlyStale metadata |}.

(** [hasIssues(report)] of utils/display.ts *)
Definition hasIssues (report : ScanReport) : bool :=
  (0 <? Audit.total (audit report))%nat
  || (0 <? Outdated.total (outdated report))%nat
  || (0 <? length (deprecated report))%nat
  || (0 <? length (stale report))%nat.

Lemma filter_sublist {A} (f : A -> bool) (l : list A) :
  sublist (List.filter f l) l.
Proof.
  induction l as [|x l IH]; cbn; [constructor |].
  destruct (f x); now constructor.
Qed.

Lemma filter_disjoint_length {A} (f g : A -> bool) (l : list A) :
  (forall x, f x = true -> g x = false) ->
  (length (List.filter f l) + length (List.filter g l) <= length l)%nat.
Proof.
  intros Hfg. induction l as [|x l IH]; cbn; [lia |].
  destruct (f x) eqn:Hf.
  - rewrite (Hfg x Hf). cbn. lia.
  - destruct (g x); cbn; lia.
Qed.

(** The two registry lists of a report never share a record: a
    deprecated package is listed as deprecated only, also when it is
    stale. Both lists keep the order of the lookups, and together they
    hold the records that are deprecated or stale. *)
Theorem buildReport_partition found behind metadata :
  let report := buildReport found behind metadata in
  sublist (deprecated report) metadata
  /\ sublist (stale report) metadata
  /\ (forall m, In m (deprecated report) <->
        In m metadata /\ Registry.deprecated m <> None)
  /\ (forall m, In m (stale report) <->
        In m metadata /\ Registry.isStale m = true
        /\ Registry.deprecated m = None)
  /\ (forall m, ~ (In m (deprecated report) /\ In m (stale report)))
  /\ (length (deprecated report) + length (stale report)
      <= length metadata)%nat.
Proof.
  cbn zeta. cbn [buildReport deprecated stale].
  assert (forall m, In m (List.filter isDeprecated metadata) <->
            In m metadata /\ Registry.deprecated m <> None) as Hd.
  { intros m. rewrite List.filter_In. unfold isDeprecated.
    destruct (Registry.deprecated m); intuition congruence. }
  assert (forall m, In m (List.filter isOnlyStale metadata) <->
            In m metadata /\ Registry.isStale m = true
            /\ Registry.deprecated m = None) as Hs.
  { intros m. rewrite List.filter_In. unfold isOnlyStale, isDeprecated.
    rewrite andb_true_iff.
    destruct (Registry.deprecated m); cbn; intuition congruence. }
  split; [apply filter_sublist |]. split; [apply filter_sublist |].
  split; [exact Hd |]. split; [exact Hs |]. split.
  - intros m [H1 H2]. apply Hd in H1 as [_ H1]. apply Hs in H2 as [_ [_ H2]].
    contradiction.
  - apply filter_disjoint_length. intros m Hm. unfold isOnlyStale.
    rewrite Hm. apply andb_false_r.
Qed.

Lemma filter_nil_iff {A} (f : A -> bool) (l : list A) :
  List.filter f l = [] <-> forall x, In x l -> f x = false.
Proof.
  induction l as [|x l IH]; cbn; [tauto |].
  destruct (f x) eqn:Hf.
  - split; [discriminate |]. intros H. specialize (H x (or_introl eq_refl)).
    congruence.
  - rewrite IH. split.
    + intros H y [<- | Hy]; auto.
    + intros H y Hy. apply H. now right.
Qed.

(** The closing message for a clean project is shown exactly when the
    audit and the outdated check found nothing and no dependency the
    registry answered for is deprecated or stale. *)
Theorem hasIssues_clean found behind metadata :
  hasIssues (buildReport found behind metadata) = false
  <-> Audit.total found = 0%nat
      /\ Outdated.total behind = 0%nat
      /\ forall m, In m metadata ->
           Registry.deprecated m = None /\ Registry.isStale m = false.
Proof.
  unfold hasIssues. cbn [buildReport audit outdated deprecated stale].
  rewrite !orb_false_iff, !Nat.ltb_ge.
  assert (forall l : list Registry.RegistryMetadata,
            (length l <= 0)%nat <-> l = []) as Hnil.
  { intros l. destruct l; cbn; split; intros; try lia; congruence. }
  rewrite !Hnil, !filter_nil_iff. split.
  - intros [[[Ha Ho] Hd] Hs]. repeat split; try lia.
    + specialize (Hd m H). unfold isDeprecated in Hd.
      destruct (Registry.deprecated m); congruence.
    + specialize (Hd m H). specialize (Hs m H). unfold isOnlyStale in Hs.
      rewrite Hd in Hs. cbn in Hs. now rewrite andb_true_r in Hs.
  - intros [Ha [Ho Hm]]. repeat split; try lia.
    + intros m Hin. destruct (Hm m Hin) as [Hd _]. unfold isDeprecated.
      now rewrite Hd.
    + intros m Hin. destruct (Hm m Hin) as [_ Hs]. unfold isOnlyStale.
      now rewrite Hs.
Qed.

End Scan.

(** ** commands/update.ts: the audit-fix flow *)

Module FixFlow.

Import Audit.

(** The flags of the command line; each may be absent. *)
Record CommandOptions := {
  all : option bool;
  exact : option bool;
  force : option bool;
  fix_ : option bool
}.

(** [flag === true], which for a flag that is a boolean or absent is
    also its truthiness. *)
Definition isTrue (flag : option bool) : bool :=
  match flag with
  | Some true => true
  | _ => false
  end.

(** The calls of the flow, in the order it makes them. *)
Inductive Event :=
| CallAudit
| CallAuditFix (force : bool)
| CallDisplayFix (result : AuditFixResult)
| CallConfirm (config : UpdateCommand.ConfirmConfig).

(** [!result.success && result.error?.includes("--force")] *)
Definition suggestsForce (result : AuditFixResult) : bool :=
  negb (success result)
  && match error result with
     | Some e => includes e (lit "--force")
     | None => false
     end.

Definition fixRetryConfig : UpdateCommand.ConfirmConfig :=
  {| UpdateCommand.message :=
       lit "Audit fix failed due to dependency conflicts. Retry with --force?";
     UpdateCommand.default := false |}.

(** [v.fixAvailable] as a condition: an object is truthy. *)
Definition isFixable (v : Vulnerability) : bool :=
  match fixAvailable v with
  | FixFlag available => available
  | FixTarget _ _ => true
  end.

Definition fixableCount (audit : AuditResult) : nat :=
  length (List.filter isFixable (vulnerabilities audit)).

Definition offerMessage (total fixable : nat) : jsstring :=
  lit "Found " ++ numberToString (Z.of_nat total) ++ lit " vulnerabilit"
    ++ (if Nat.eqb total 1 then lit "y" else lit "ies")
    ++ lit " (" ++ numberToString (Z.of_nat fixable)
    ++ lit " auto-fixable). Run npm audit fix?".

Definition offerConfig (audit : AuditResult) : UpdateCommand.ConfirmConfig :=
  {| UpdateCommand.message := offerMessage (total audit) (fixableCount audit);
     UpdateCommand.default := true |}.

Section WithWorld.

Context {World : Type}.
Variable execSync : jsstring -> M World jsstring.
Variable parseReport : jsstring -> option (option (list (jsstring * RawFinding))).
(** [confirm(config)]: the answer, or the error of a cancelled prompt. *)
Variable confirm : UpdateCommand.ConfirmConfig -> M World bool.
(** [displayAuditFixResult(result)] prints the outcome. *)
Variable displayAuditFixResult : AuditFixResult -> World -> World.

(** A call, recorded in the log the state carries along. The spinners
    around the calls are presentation and are left out. *)
Definition logged {A} (call : Event) (op : M World A) : M (World * list Event) A :=
  fun '(w, log) => let '(outcome, w') := op w in (outcome, (w', log ++ [call])).

Definition auditFix (force : bool) : M (World * list Event) AuditFixResult :=
  logged (CallAuditFix force) (runAuditFix execSync parseReport force).

Definition display (result : AuditFixResult) : M (World * list Event) unit :=
  logged (CallDisplayFix result)
    (fun w => (inr tt, displayAuditFixResult result w)).

Definition runAuditFixFlow (force : bool) : M (World * list Event) unit :=
  let* result := auditFix force in
  let* _ := display result in
  if suggestsForce result && negb force then
    tryCatch
      (let* retry := logged (CallConfirm fixRetryConfig) (confirm fixRetryConfig) in
       if retry then
         let* retryResult := auditFix true in
         display retryResult
       else ret tt)
      (fun _ => ret tt)
  else ret tt.

Definition checkAndOfferAuditFix (options : CommandOptions)
  : M (World * list Event) unit :=
  if isTrue (fix_ options) then runAuditFixFlow (isTrue (force options))
  else
    let* audit := logged CallAudit (runAudit execSync parseReport) in
    if Nat.eqb (total audit) 0 then ret tt
    else
      let fixable := fixableCount audit in
      if Nat.eqb fixable 0 then ret tt
      else
        tryCatch
          (let* shouldFix := logged (CallConfirm (offerConfig audit))
                               (confirm (offerConfig audit)) in
           if shouldFix then runAuditFixFlow (isTrue (force options))
           else ret tt)
          (fun _ => ret tt).

(** *** What [runAuditFix] can answer *)

Lemma runAuditFix_outcome force w :
  exists r w',
    runAuditFix execSync parseReport force w = (inr r, w')
    /\ ((success r = true /\ error r = None)
        \/ (success r = false
            /\ (error r = Some (lit "Could not resolve dependencies. Try with --force.")
                \/ error r = Some (lit "npm audit fix failed")))).
Proof.
  destruct (runAudit_cases execSync parseReport w) as [before [w1 [Hbefore _]]].
  unfold runAuditFix, tryCatch at 1, bind. rewrite Hbefore.
  unfold tryCatch, bind, ret.
  destruct (execSync (fixCommand force) w1) as [[execErr | stdout] w2];
    [destruct (thrown_stdout execErr) as [[|c out]|] eqn:Hout |];
    try (destruct (runAudit_cases execSync parseReport w2)
           as [after [w3 [Hafter _]]]; rewrite Hafter);
    (eexists; eexists; split; [reflexivity |]);
    cbn [fixFailed success error]; auto;
    (right; split; [reflexivity |]); destruct (includes _ _); auto.
Qed.

Lemma suggestsForce_outcome r :
  (success r = true /\ error r = None)
  \/ (success r = false
      /\ (error r = Some (lit "Could not resolve dependencies. Try with --force.")
          \/ error r = Some (lit "npm audit fix failed"))) ->
  suggestsForce r = true
  <-> error r = Some (lit "Could not resolve dependencies. Try with --force.").
Proof.
  unfold suggestsForce.
  intros [[-> ->] | [-> [-> | ->]]]; cbn [negb andb].
  - split; discriminate.
  - split; [reflexivity |]. intros _. vm_compute. reflexivity.
  - split; [vm_compute; discriminate |]. intros H. injection H as H.
    vm_compute in H. discriminate.
Qed.

(** The log a flow is started with stays in front of what it adds. *)
Lemma runAuditFixFlow_log force w log0 :
  runAuditFixFlow force (w, log0)
  = let '(outcome, (w', log)) := runAuditFixFlow force (w, []) in
    (outcome, (w', log0 ++ log)).
Proof.
  unfold runAuditFixFlow, bind, auditFix, display, logged, tryCatch, ret.
  destruct (runAuditFix execSync parseReport force w) as [[e | r1] w1];
    [reflexivity |].
  destruct (suggestsForce r1 && negb force); cbn [app];
    [| now rewrite <- app_assoc].
  destruct (confirm fixRetryConfig (displayAuditFixResult r1 w1))
    as [[e | [|]] w3]; cbn [app]; try (now rewrite <- !app_assoc).
  destruct (runAuditFix execSync parseReport true w3) as [[e | r2] w4];
    cbn [app]; now rewrite <- !app_assoc.
Qed.

Lemma runAudit_total w audit w' :
  runAudit execSync parseReport w = (inr audit, w') ->
  total audit = length (vulnerabilities audit).
Proof.
  intros Hrun.
  destruct (runAudit_cases execSync parseReport w) as [r [w1 [Hr Hcases]]].
  rewrite Hrun in Hr. injection Hr as <- <-.
  destruct Hcases as [-> | [stdout [entries [_ [_ ->]]]]]; [reflexivity |].
  apply (normalize_invariant entries).
Qed.

Lemma runAuditFixFlow_returns force w :
  exists w' log, runAuditFixFlow force (w, []) = (inr tt, (w', log)).
Proof.
  unfold runAuditFixFlow, bind, auditFix, display, logged, tryCatch, ret.
  destruct (runAuditFix_outcome force w) as [r1 [w1 [-> _]]].
  destruct (suggestsForce r1 && negb force); [| eauto].
  destruct (confirm fixRetryConfig (displayAuditFixResult r1 w1))
    as [[e | [|]] w3]; eauto.
  destruct (runAuditFix_outcome true w3) as [r2 [w4 [-> _]]]. eauto.
Qed.

(** *** The flows *)

(** [runAuditFixFlow] always returns. It runs the fix and shows the
    result; it offers a retry exactly when the run was not forced and
    the fix failed on a dependency conflict, with a prompt that
    defaults to no; an accepted retry is one forced run, shown in turn,
    after which nothing more is offered; a declined or cancelled prompt
    ends the flow. *)
Theorem runAuditFixFlow_calls force w :
  exists r1 w1 w' log,
    runAuditFix execSync parseReport force w = (inr r1, w1)
    /\ runAuditFixFlow force (w, []) = (inr tt, (w', log))
    /\ UpdateCommand.default fixRetryConfig = false
    /\ let shown := displayAuditFixResult r1 w1 in
       let first := [CallAuditFix force; CallDisplayFix r1] in
       let offered :=
         force = false
         /\ error r1
            = Some (lit "Could not resolve dependencies. Try with --force.") in
       (~ offered -> log = first /\ w' = shown)
       /\ (offered ->
            match confirm fixRetryConfig shown with
            | (inr true, w3) =>
                exists r2 w4,
                  runAuditFix execSync parseReport true w3 = (inr r2, w4)
                  /\ log = first ++ [CallConfirm fixRetryConfig;
                                      CallAuditFix true; CallDisplayFix r2]
                  /\ w' = displayAuditFixResult r2 w4
            | (_, w3) =>
                log = first ++ [CallConfirm fixRetryConfig] /\ w' = w3
            end).
Proof.
  destruct (runAuditFix_outcome force w) as [r1 [w1 [Hrun Hout]]].
  exists r1, w1.
  pose proof (suggestsForce_outcome r1 Hout) as Hs.
  unfold runAuditFixFlow, bind, auditFix, display, logged, tryCatch, ret.
  rewrite Hrun. cbn [app].
  destruct (suggestsForce r1) eqn:E; [destruct force |]; cbn [andb negb].
  - eexists. eexists. split; [reflexivity |]. split; [reflexivity |].
    split; [reflexivity |]. cbn zeta. split; [auto |].
    intros [H _]. discriminate.
  - assert (error r1
            = Some (lit "Could not resolve dependencies. Try with --force."))
      as Herr by now apply Hs.
    destruct (confirm fixRetryConfig (displayAuditFixResult r1 w1))
      as [[e | [|]] w3] eqn:Hconfirm.
    + eexists. eexists. split; [reflexivity |]. split; [reflexivity |].
      split; [reflexivity |]. cbn zeta. split; [intros H; tauto |].
      intros _. split; reflexivity.
    + destruct (runAuditFix_outcome true w3) as [r2 [w4 [Hrun2 _]]].
      rewrite Hrun2. cbn [app].
      eexists. eexists. split; [reflexivity |]. split; [reflexivity |].
      split; [reflexivity |]. cbn zeta. split; [intros H; tauto |].
      intros _. exists r2, w4. repeat split.
    + eexists. eexists. split; [reflexivity |]. split; [reflexivity |].
      split; [reflexivity |]. cbn zeta. split; [intros H; tauto |].
      intros _. split; reflexivity.
  - eexists. eexists. split; [reflexivity |]. split; [reflexivity |].
    split; [reflexivity |]. cbn zeta. split; [auto |].
    intros [_ H]. apply Hs in H. discriminate.
Qed.

(** [checkAndOfferAuditFix] always returns. With [--fix] it is the fix
    flow, with no audit and no question of its own. Without, it audits
    once and asks, with a prompt that defaults to yes, exactly when
    some finding can be fixed automatically (the test on the total is
    then implied); the fix flow follows an accepted prompt only. *)
Theorem checkAndOfferAuditFix_asks options w :
  exists w' log,
    checkAndOfferAuditFix options (w, []) = (inr tt, (w', log))
    /\ (isTrue (fix_ options) = true ->
        runAuditFixFlow (isTrue (force options)) (w, []) = (inr tt, (w', log)))
    /\ (isTrue (fix_ options) = false ->
        exists audit w1,
          runAudit execSync parseReport w = (inr audit, w1)
          /\ UpdateCommand.default (offerConfig audit) = true
          /\ (fixableCount audit = 0%nat -> log = [CallAudit] /\ w' = w1)
          /\ (fixableCount audit <> 0%nat ->
               match confirm (offerConfig audit) w1 with
               | (inr true, w2) =>
                   exists rest,
                     runAuditFixFlow (isTrue (force options)) (w2, [])
                     = (inr tt, (w', rest))
                     /\ log = [CallAudit; CallConfirm (offerConfig audit)]
                               ++ rest
               | (_, w2) =>
                   log = [CallAudit; CallConfirm (offerConfig audit)]
                   /\ w' = w2
               end)).
Proof.
  unfold checkAndOfferAuditFix.
  destruct (isTrue (fix_ options)) eqn:Hfix.
  - destruct (runAuditFixFlow_returns (isTrue (force options)) w)
      as [w' [log Hflow]].
    exists w', log. rewrite Hflow. split; [reflexivity |].
    split; [reflexivity | discriminate].
  - destruct (runAudit_cases execSync parseReport w) as [audit [w1 [Haudit _]]].
    pose proof (runAudit_total w audit w1 Haudit) as Htotal.
    unfold bind, logged, tryCatch, ret. rewrite Haudit. cbn [app].
    assert (total audit = 0%nat -> fixableCount audit = 0%nat) as Hzero.
    { intros H0. unfold fixableCount. rewrite H0 in Htotal.
      destruct (vulnerabilities audit); [reflexivity | discriminate]. }
    destruct (Nat.eqb_spec (total audit) 0) as [H0 | Hn0].
    { eexists. eexists. split; [reflexivity |]. split; [discriminate |].
      intros _. exists audit, w1. repeat split; auto.
      intros H. specialize (Hzero H0). contradiction. }
    destruct (Nat.eqb_spec (fixableCount audit) 0) as [Hf0 | Hfn0].
    { eexists. eexists. split; [reflexivity |]. split; [discriminate |].
      intros _. exists audit, w1. repeat split; auto.
      intros H. contradiction. }
    destruct (confirm (offerConfig audit) w1) as [[e | [|]] w2] eqn:Hconfirm.
    + eexists. eexists. split; [reflexivity |]. split; [discriminate |].
      intros _. exists audit, w1. split; [reflexivity |].
      split; [reflexivity |]. split; [intros H; contradiction |].
      intros _. try rewrite Hconfirm. split; reflexivity.
    + rewrite runAuditFixFlow_log.
      destruct (runAuditFixFlow_returns (isTrue (force options)) w2)
        as [w' [rest Hflow]].
      rewrite Hflow.
      eexists. eexists. split; [reflexivity |]. split; [discriminate |].
      intros _. exists audit, w1. split; [reflexivity |].
      split; [reflexivity |]. split; [intros H; contradiction |].
      intros _. try rewrite Hconfirm. exists rest.
      split; [exact Hflow || reflexivity | reflexivity].
    + eexists. eexists. split; [reflexivity |]. split; [discriminate |].
      intros _. exists audit, w1. split; [reflexivity |].
      split; [reflexivity |]. split; [intros H; contradiction |].
      intros _. try rewrite Hconfirm. split; reflexivity.
Qed.


End WithWorld.

(** *** Runs of the unit tests *)

(** "should offer retry with --force when audit fix fails with
    ERESOLVE", with the prompt accepted: the forced run follows. *)
Example runAuditFixFlow_retry :
  exists r1 r2,
    runAuditFixFlow (mockExecSync (inl eresolveFixError) reportOne reportNone)
      readReport (fun _ => ret true) (fun _ w => w) false (0%nat, [])
    = (inr tt,
       (2%nat,
        [CallAuditFix false; CallDisplayFix r1; CallConfirm fixRetryConfig;
         CallAuditFix true; CallDisplayFix r2]))
    /\ error r1 = Some (lit "Could not resolve dependencies. Try with --force.").
Proof. eexists. eexists. split; vm_compute; reflexivity. Qed.

(** One finding that can be fixed: the prompt counts it. *)
Example checkAndOfferAuditFix_declined :
  checkAndOfferAuditFix (mockExecSync (inr fixOutput) reportOne reportNone)
    readReport (fun _ => ret false) (fun _ w => w)
    {| all := None; exact := None; force := None; fix_ := None |} (0%nat, [])
  = (inr tt,
     (1%nat,
      [CallAudit;
       CallConfirm
         {| UpdateCommand.message :=
              lit "Found 1 vulnerability (1 auto-fixable). Run npm audit fix?";
            UpdateCommand.default := true |}])).
Proof. vm_compute. reflexivity. Qed.

End FixFlow.

(** ** commands/update.ts: [updateCommand] *)

Module UpdateFlow.

Import FixFlow.

(** The styles of chalk the command paints its texts with. *)
Inductive Style := red | green | yellow | gray | bold | redBold.

(** A line of the interactive list. *)
Record Choice := {
  name : jsstring;
  value : jsstring;
  checked : bool
}.

Record CheckboxConfig := {
  message : jsstring;
  choices : list Choice;
  pageSize : Z
}.

(** The steps of the command, in the order it takes them; a step that
    is a flow of its own carries the calls of that flow. *)
Inductive Step :=
| StepFixFlow (force : bool) (events : list Event)
| StepUpdates (names : list jsstring) (options : Updater.UpdateOptions)
    (calls : list UpdateCommand.Call)
| StepOffer (events : list Event)
| StepOutdated
| StepLog (text : jsstring)
| StepCheckbox (config : CheckboxConfig).

(** [{ exact: options.exact !== false, force: options.force === true }] *)
Definition updaterOpts (options : CommandOptions) : Updater.UpdateOptions :=
  {| Updater.exact := match exact options with
                      | Some false => false
                      | _ => true
                      end;
     Updater.force := isTrue (force options) |}.

(** [options.fix && packages.length === 0 && !options.all] *)
Definition fixOnly (packages : list jsstring) (options : CommandOptions) : bool :=
  isTrue (fix_ options) && Nat.eqb (length packages) 0
  && negb (isTrue (all options)).

Section WithWorld.

Context {World : Type}.
Variable readPackageJson : M World Updater.PackageJson.
Variable execSync : jsstring -> M World jsstring.
(** [JSON.parse] on the output of [npm audit --json]. *)
Variable parseAudit :
  jsstring -> option (option (list (jsstring * Audit.RawFinding))).
(** [JSON.parse] on the output of [npm outdated --json]. *)
Variable parseOutdated : jsstring -> option (list (jsstring * Outdated.RawOutdated)).
Variable localeCompare : jsstring -> jsstring -> Z.
Variable confirm : UpdateCommand.ConfirmConfig -> M World bool.
(** [checkbox(config)]: the values ticked, or the error of a cancelled
    prompt. *)
Variable checkbox : CheckboxConfig -> M World (list jsstring).
Variable displayUpdateResults : list Updater.UpdateResult -> World -> World.
Variable displayAuditFixResult : Audit.AuditFixResult -> World -> World.
(** [chalk.<style>(text)] *)
Variable chalk : Style -> jsstring -> jsstring.

(** A flow of its own, run as one step. *)
Definition sub {A L} (run : M (World * list L) A) (step : list L -> Step)
  : M (World * list Step) A :=
  fun '(w, log) =>
    let '(outcome, (w', events)) := run (w, []) in
    (outcome, (w', log ++ [step events])).

Definition stepped {A} (step : Step) (op : M World A) : M (World * list Step) A :=
  fun '(w, log) => let '(outcome, w') := op w in (outcome, (w', log ++ [step])).

(** [console.log(text)] *)
Definition consoleLog (text : jsstring) : M (World * list Step) unit :=
  stepped (StepLog text) (ret tt).

Definition runAuditFixFlow (force : bool) : M (World * list Step) unit :=
  sub (FixFlow.runAuditFixFlow execSync parseAudit confirm displayAuditFixResult
         force)
    (StepFixFlow force).

Definition runUpdates (names : list jsstring) (options : Updater.UpdateOptions)
  : M (World * list Step) unit :=
  sub (UpdateCommand.runUpdates readPackageJson execSync confirm
         displayUpdateResults names options)
    (StepUpdates names options).

Definition checkAndOfferAuditFix (options : CommandOptions)
  : M (World * list Step) unit :=
  sub (FixFlow.checkAndOfferAuditFix execSync parseAudit confirm
         displayAuditFixResult options)
    StepOffer.

Definition toChoice (pkg : Outdated.OutdatedPackage) : Choice :=
  let isMajor :=
    Versions.isMajorUpdate (Outdated.current pkg) (Outdated.latest pkg) in
  let arrow := if isMajor then chalk red (lit "->") else chalk green (lit "->") in
  let latestLabel :=
    if isMajor then chalk redBold (Outdated.latest pkg)
    else chalk green (Outdated.latest pkg) in
  let typeLabel :=
    if bool_decide (Outdated.type pkg = Outdated.devDependencies)
    then chalk gray (lit " (dev)") else [] in
  {| name := Outdated.name pkg ++ typeLabel ++ lit " "
               ++ chalk yellow (Outdated.current pkg) ++ lit " " ++ arrow
               ++ lit " " ++ latestLabel;
     value := Outdated.name pkg;
     checked := negb isMajor |}.

Definition upToDateText : jsstring :=
  chalk green ([LF] ++ lit "  All packages are up to date!" ++ [LF]).

Definition foundText (total : nat) : jsstring :=
  chalk gray ([LF] ++ lit "  Found " ++ chalk bold (numberToString (Z.of_nat total))
                ++ lit " outdated package"
                ++ (if Nat.eqb total 1 then [] else lit "s") ++ [LF]).

Definition noneSelectedText : jsstring :=
  chalk gray ([LF] ++ lit "  No packages selected." ++ [LF]).

Definition cancelledText : jsstring :=
  chalk gray ([LF] ++ lit "  Update cancelled." ++ [LF]).

Definition selectConfig (outdated : Outdated.OutdatedResult) : CheckboxConfig :=
  {| message := lit "Select packages to update:";
     choices := List.map toChoice (Outdated.packages outdated);
     pageSize := 20 |}.

Definition updateCommand (packages : list jsstring) (options : CommandOptions)
  : M (World * list Step) unit :=
  if fixOnly packages options then runAuditFixFlow (isTrue (force options))
  else if (0 <? length packages)%nat then
    let* _ := runUpdates packages (updaterOpts options) in
    checkAndOfferAuditFix options
  else
    let* outdated :=
      stepped StepOutdated
        (Outdated.getOutdated readPackageJson execSync parseOutdated
           localeCompare) in
    if Nat.eqb (Outdated.total outdated) 0 then
      let* _ := consoleLog upToDateText in
      checkAndOfferAuditFix options
    else
      let* _ := consoleLog (foundText (Outdated.total outdated)) in
      if isTrue (all options) then
        let names := List.map Outdated.name (Outdated.packages outdated) in
        let* _ := runUpdates names (updaterOpts options) in
        checkAndOfferAuditFix options
      else
        tryCatch
          (let* selected := stepped (StepCheckbox (selectConfig outdated))
                              (checkbox (selectConfig outdated)) in
           if Nat.eqb (length selected) 0 then consoleLog noneSelectedText
           else
             let* _ := runUpdates selected (updaterOpts options) in
             checkAndOfferAuditFix options)
          (fun _ => consoleLog cancelledText).

(** *** Where errors go *)






End WithWorld.

(** *** Runs of the unit tests *)

Definition noFlags : CommandOptions :=
  {| all := None; exact := None; force := None; fix_ := None |}.

(** A terminal without colours. *)
Definition plain (style : Style) (text : jsstring) : jsstring := text.

(** The project of the tests of [getOutdated], with a prompt library
    that answers as given. *)
Definition testCommand (readPackageJson : M unit Updater.PackageJson)
    (checkbox : CheckboxConfig -> M unit (list jsstring))
    (packages : list jsstring) (options : CommandOptions)
  : (Thrown + unit) * (unit * list Step) :=
  updateCommand readPackageJson (fun _ => throw Outdated.outdatedExit1)
    (fun _ => None) Outdated.readOutdated Outdated.codeUnitCompare
    (fun _ => ret true) checkbox (fun _ w => w) (fun _ w => w) plain
    packages options (tt, []).

(** "should handle user cancellation gracefully": the list is shown
    with the major updates left unticked, and the cancelled prompt ends
    in the notice. *)
Example updateCommand_cancelled :
  testCommand (ret Outdated.basePkgJson)
    (fun _ => throw Outdated.syntaxError) [] noFlags
  = (inr tt,
     (tt, [StepOutdated; StepLog (foundText plain 4);
           StepCheckbox (selectConfig plain Outdated.testResult);
           StepLog (cancelledText plain)]))
  /\ List.map (fun c => (value c, checked c))
       (choices (selectConfig plain Outdated.testResult))
     = [(lit "express", false); (lit "lodash", true);
        (lit "typescript", true); (lit "vitest", false)]
  /\ List.map name (choices (selectConfig plain Outdated.testResult))
     = [lit "express 4.18.0 -> 5.0.0"; lit "lodash 4.17.0 -> 4.17.21";
        lit "typescript (dev) 5.0.0 -> 5.7.0"; lit "vitest (dev) 1.0.0 -> 2.0.0"].
Proof. repeat split; vm_compute; reflexivity. Qed.

(** A manifest that cannot be read stops an update of named packages
    with its error. *)
Example updateCommand_manifest_error :
  fst (testCommand (throw Outdated.syntaxError) (fun _ => ret [])
         [lit "express"] noFlags)
  = inl Outdated.syntaxError.
Proof. vm_compute. reflexivity. Qed.

(** The same failure after a selection from the list is reported as a
    cancelled update. The manifest is read once, for the list, and is
    gone afterwards. *)
Example updateCommand_manifest_error_interactive :
  exists log,
    updateCommand
      (fun reads : nat =>
         if Nat.eqb reads 0 then (inr Outdated.basePkgJson, 1%nat)
         else (inl Outdated.syntaxError, reads))
      (fun _ => throw Outdated.outdatedExit1)
      (fun _ => None) Outdated.readOutdated Outdated.codeUnitCompare
      (fun _ => ret true) (fun _ => ret [lit "express"])
      (fun _ w => w) (fun _ w => w) plain [] noFlags (0%nat, [])
    = (inr tt, (1%nat, log))
    /\ last log = Some (StepLog (cancelledText plain)).
Proof. eexists. split; vm_compute; reflexivity. Qed.

End UpdateFlow.
